(** * Restor1-Pro: the REST catalogue servers, embedded and verified

    The repository holds three Express servers over the same routes:
    - the snapshot server (JSON files loaded once into two arrays), and
    - two MySQL servers that differ from one another only in logging.

    The snapshot server is embedded over dynamically typed JSON values with
    an exception monad (a thrown TypeError becomes the handler's HTTP 500),
    with strings as UTF-8 and numbers as the values of binary64; the MySQL
    servers are embedded over typed rows with a small evaluator for
    the SELECT statements the handlers build. *)

From Stdlib Require Import List String Ascii Bool ZArith NArith QArith Lia Lqa.
From Stdlib Require Import Qround Qabs Qpower Qreduction.
From Stdlib Require Import Permutation Sorted OrdersEx.
Import ListNotations.

Set Warnings "-register-all".
Local Open Scope string_scope.
Local Open Scope Z_scope.

(** ** ECMAScript numbers and values *)

Module JS.

(** Numbers are the values of binary64.  A finite one is held as the
    rational it denotes; what the program computes or reads is rounded to the
    nearest such value ([round64] below).  The sign of zero is not kept: no
    operation of the servers tells -0 from 0. *)
Inductive number :=
| NaN
| NegInf
| Fin (q : Q)
| PosInf.

(** Values as [JSON.parse] builds them, plus [undefined], which a property
    read of a missing key yields.  Objects keep their keys in order. *)
Inductive value :=
| VUndef
| VNull
| VBool (b : bool)
| VNum (n : number)
| VStr (s : string)
| VArr (xs : list value)
| VObj (fs : list (string * value)).

Inductive exn := TypeError.

(** Completion of an expression: a result or a thrown exception. *)
Inductive M (A : Type) :=
| Ok (a : A)
| Throw (e : exn).
Arguments Ok {A} a.
Arguments Throw {A} e.

Definition bind {A B} (c : M A) (k : A -> M B) : M B :=
  match c with
  | Ok a => k a
  | Throw e => Throw e
  end.

Notation "x <- c ;; k" := (bind c (fun x => k))
  (at level 61, c at next level, right associativity).

(** The parts of the runtime that depend on Unicode tables, on the locale,
    or on the printing of numbers and objects. *)
Class Runtime := {
  toLowerCase : string -> string;
  localeCompare : string -> string -> Z;
  ToStringOther : value -> string
}.

(** *** Numbers *)

(** The binade of a positive rational: the [e] with [2^e <= q < 2^(e+1)]. *)
Definition binade (q : Q) : Z :=
  let e := Z.log2 (Qnum q) - Z.log2 (Zpos (Qden q)) in
  if Qle_bool (2 ^ e) q then e else e - 1.

(** The exponent of the spacing of binary64 around a positive rational: 53
    significant bits, and 2^-1074 for the subnormal numbers. *)
Definition quantum (q : Q) : Z := Z.max (binade q - 52) (-1074).

(** The nearest integer, a tie going to the even one. *)
Definition rne (x : Q) : Z :=
  let f := Qfloor x in
  match Qcompare (x - inject_Z f) (1 # 2) with
  | Lt => f
  | Gt => f + 1
  | Eq => if Z.even f then f else f + 1
  end.

(** The binary64 value nearest to a rational (round to nearest, ties to
    even); what rounds to 2^1024 or beyond is an infinity. *)
Definition round64 (q : Q) : number :=
  let q := Qred q in
  let a := Qabs q in
  if Qeq_bool a 0 then Fin 0
  else
    let k := quantum a in
    let v := (inject_Z (rne (a / 2 ^ k)) * 2 ^ k)%Q in
    if Qle_bool (2 ^ 1024) v
    then (if Qle_bool 0 q then PosInf else NegInf)
    else Fin (Qred (if Qle_bool 0 q then v else - v)).

(** The rational is a value of binary64: a multiple of the spacing at its
    place, below 2^1024. *)
Definition is_double (q : Q) : bool :=
  let a := Qabs (Qred q) in
  Qeq_bool a 0 ||
  ((Qden (Qred (a / 2 ^ quantum a)) =? 1)%positive &&
   negb (Qle_bool (2 ^ 1024) a)).

Definition num_le (a b : number) : bool :=
  match a, b with
  | NaN, _ | _, NaN => false
  | NegInf, _ => true
  | _, PosInf => true
  | Fin x, Fin y => Qle_bool x y
  | _, _ => false
  end.

(** [==] and [===] on two numbers. *)
Definition num_eq (a b : number) : bool :=
  match a, b with
  | Fin x, Fin y => Qeq_bool x y
  | PosInf, PosInf | NegInf, NegInf => true
  | _, _ => false
  end.

Definition num_neg (a : number) : number :=
  match a with
  | NaN => NaN
  | NegInf => PosInf
  | PosInf => NegInf
  | Fin q => Fin (Qopp q)
  end.

(** [a + b] and [a * b]: the exact result, rounded. *)
Definition num_add (a b : number) : number :=
  match a, b with
  | NaN, _ | _, NaN => NaN
  | PosInf, NegInf | NegInf, PosInf => NaN
  | PosInf, _ | _, PosInf => PosInf
  | NegInf, _ | _, NegInf => NegInf
  | Fin x, Fin y => round64 (x + y)
  end.

Definition num_mul (a b : number) : number :=
  let sign (n : number) : comparison :=
    match n with
    | NaN => Eq
    | NegInf => Lt
    | PosInf => Gt
    | Fin q => Qcompare q 0
    end in
  match a, b with
  | NaN, _ | _, NaN => NaN
  | Fin x, Fin y => round64 (x * y)
  | _, _ =>
      match sign a, sign b with
      | Eq, _ | _, Eq => NaN
      | Lt, Lt | Gt, Gt => PosInf
      | _, _ => NegInf
      end
  end.

(** A numeric literal of the source text. *)
Definition literal (q : Q) : number := round64 q.

(** *** Strings

    A string is held as the bytes of its UTF-8 encoding, the form in which
    the JSON files and the request line carry it.  Finding one string in
    another, splitting at a comma and comparing for equality are the same on
    the bytes and on the code units. *)

Definition strip (p s : string) : option string :=
  if String.prefix p s
  then Some (substring (String.length p) (String.length s - String.length p) s)
  else None.

(** The code points of WhiteSpace and LineTerminator: TAB, LF, VT, FF, CR,
    SP, NBSP, the other space separators (U+1680, U+2000 to U+200A, U+202F,
    U+205F, U+3000), LS, PS and the byte order mark. *)
Definition white_space : list N :=
  [9; 10; 11; 12; 13; 32; 160; 5760; 8192; 8193; 8194; 8195; 8196; 8197;
   8198; 8199; 8200; 8201; 8202; 8232; 8233; 8239; 8287; 12288; 65279]%N.

(** UTF-8 of a code point of the basic plane. *)
Definition utf8 (n : N) : string :=
  if (n <? 128)%N then String (ascii_of_N n) EmptyString
  else if (n <? 2048)%N then
    String (ascii_of_N (192 + n / 64))
      (String (ascii_of_N (128 + n mod 64)) EmptyString)
  else
    String (ascii_of_N (224 + n / 4096))
      (String (ascii_of_N (128 + (n / 64) mod 64))
         (String (ascii_of_N (128 + n mod 64)) EmptyString)).

Definition blanks : list string := map utf8 white_space.

(** The rest of [s] after the first of [ps] that it starts with. *)
Fixpoint strip_any (ps : list string) (s : string) : option string :=
  match ps with
  | [] => None
  | p :: r =>
      match strip p s with
      | Some t => Some t
      | None => strip_any r s
      end
  end.

Fixpoint skip_blanks (fuel : nat) (s : string) : string :=
  match fuel with
  | O => s
  | S f =>
      match strip_any blanks s with
      | Some t => skip_blanks f t
      | None => s
      end
  end.

Definition trimStart (s : string) : string := skip_blanks (String.length s) s.

(** Nothing but white space. *)
Definition blank (s : string) : bool :=
  match trimStart s with EmptyString => true | _ => false end.

Fixpoint trimEnd (s : string) : string :=
  match s with
  | String c t => if blank s then EmptyString else String c (trimEnd t)
  | EmptyString => EmptyString
  end.

Definition trim (s : string) : string := trimEnd (trimStart s).

(** [hay.includes(needle)] *)
Fixpoint includes (hay needle : string) : bool :=
  String.prefix needle hay ||
  match hay with
  | String _ t => includes t needle
  | EmptyString => false
  end.

(** [s.split(sep)] for a separator of one character. *)
Fixpoint split (sep : ascii) (s : string) : list string :=
  match s with
  | EmptyString => [EmptyString]
  | String c t =>
      if Ascii.eqb c sep then EmptyString :: split sep t
      else match split sep t with
           | h :: r => String c h :: r
           | [] => [String c EmptyString]
           end
  end.

(** *** Numeric literals *)

Definition digit_of (radix : Z) (c : ascii) : option Z :=
  let n := Z.of_nat (nat_of_ascii c) in
  let d :=
    if (48 <=? n) && (n <=? 57) then Some (n - 48)
    else if (97 <=? n) && (n <=? 122) then Some (n - 87)
    else if (65 <=? n) && (n <=? 90) then Some (n - 55)
    else None in
  match d with
  | Some v => if v <? radix then Some v else None
  | None => None
  end.

(** The longest run of digits at the front of [s]: their count, their value
    continuing from [acc], and the rest of the string. *)
Fixpoint digits (radix : Z) (s : string) (acc : Z) (count : nat)
  : nat * Z * string :=
  match s with
  | String c t =>
      match digit_of radix c with
      | Some d => digits radix t (radix * acc + d) (S count)
      | None => (count, acc, s)
      end
  | EmptyString => (count, acc, s)
  end.

Definition sign (s : string) : bool * string :=
  match s with
  | String "-" t => (true, t)
  | String "+" t => (false, t)
  | _ => (false, s)
  end.

Definition pow10 (e : Z) : Q :=
  if 0 <=? e then inject_Z (10 ^ e) else Qinv (inject_Z (10 ^ (- e))).

(** ExponentPart, taken only when it is complete. *)
Definition exponent (s : string) : Z * string :=
  match s with
  | String c t =>
      if Ascii.eqb c "e" || Ascii.eqb c "E" then
        let '(neg, t') := sign t in
        match digits 10 t' 0 0 with
        | (O, _, _) => (0, s)
        | (_, e, rest) => ((if neg then - e else e), rest)
        end
      else (0, s)
  | EmptyString => (0, s)
  end.

(** StrUnsignedDecimalLiteral at the front of [s], and the rest: the value
    of the numeral, rounded. *)
Definition unsigned_decimal (s : string) : option (number * string) :=
  match strip "Infinity" s with
  | Some rest => Some (PosInf, rest)
  | None =>
      let '(ni, ip, r1) := digits 10 s 0 0 in
      match ni, r1 with
      | O, String "." t =>
          match digits 10 t 0 0 with
          | (O, _, _) => None
          | (nf, m, r2) =>
              let '(e, r3) := exponent r2 in
              Some (round64 (inject_Z m * pow10 (e - Z.of_nat nf)), r3)
          end
      | O, _ => None
      | _, String "." t =>
          let '(nf, m, r2) := digits 10 t ip 0 in
          let '(e, r3) := exponent r2 in
          Some (round64 (inject_Z m * pow10 (e - Z.of_nat nf)), r3)
      | _, _ =>
          let '(e, r3) := exponent r1 in
          Some (round64 (inject_Z ip * pow10 e), r3)
      end
  end.

(** StrDecimalLiteral at the front of [s], and the rest. *)
Definition decimal_literal (s : string) : option (number * string) :=
  let '(neg, t) := sign s in
  match unsigned_decimal t with
  | Some (n, rest) => Some ((if neg then num_neg n else n), rest)
  | None => None
  end.

(** [parseFloat(s)] *)
Definition parseFloat (s : string) : number :=
  match decimal_literal (trimStart s) with
  | Some (n, _) => n
  | None => NaN
  end.

(** [parseInt(s)], no radix given: the integer of the digits, rounded. *)
Definition parseInt (s : string) : number :=
  let '(neg, t) := sign (trimStart s) in
  let '(radix, t') :=
    match strip "0x" t, strip "0X" t with
    | Some r, _ | None, Some r => (16, r)
    | None, None => (10, t)
    end in
  match digits radix t' 0 0 with
  | (O, _, _) => NaN
  | (_, v, _) => round64 (inject_Z (if neg then - v else v))
  end.

(** ToNumber on a string (StringToNumber). *)
Definition StringToNumber (s : string) : number :=
  let t := trim s in
  let whole (radix : Z) (r : string) :=
    match digits radix r 0 0 with
    | (S _, v, EmptyString) => round64 (inject_Z v)
    | _ => NaN
    end in
  match t with
  | EmptyString => Fin 0
  | _ =>
      match strip "0x" t, strip "0X" t, strip "0o" t, strip "0O" t,
            strip "0b" t, strip "0B" t with
      | Some r, _, _, _, _, _ | None, Some r, _, _, _, _ => whole 16 r
      | None, None, Some r, _, _, _ | None, None, None, Some r, _, _ => whole 8 r
      | None, None, None, None, Some r, _
      | None, None, None, None, None, Some r => whole 2 r
      | None, None, None, None, None, None =>
          match decimal_literal t with
          | Some (n, EmptyString) => n
          | _ => NaN
          end
      end
  end.

(** The decimal numeral of an integer, as a client writes an identifier into
    the path of a request. *)
Definition digit_char (d : Z) : ascii := ascii_of_nat (Z.to_nat (48 + d)).

Fixpoint print_digits (fuel : nat) (n : Z) (acc : string) : string :=
  match fuel with
  | O => String (digit_char (n mod 10)) acc
  | S f =>
      if n <? 10 then String (digit_char (n mod 10)) acc
      else print_digits f (n / 10) (String (digit_char (n mod 10)) acc)
  end.

Definition decimal (z : Z) : string :=
  match z with
  | Z0 => "0"
  | Zpos p => print_digits (Pos.size_nat p) z EmptyString
  | Zneg p => String "-" (print_digits (Pos.size_nat p) (Zpos p) EmptyString)
  end.

Fixpoint all_digits (s : string) : bool :=
  match s with
  | String c t =>
      match digit_of 10 c with Some _ => all_digits t | None => false end
  | EmptyString => true
  end.

(** *** Operators on values *)

Section Operators.
Context {R : Runtime}.

(** ToBoolean *)
Definition truthy (v : value) : bool :=
  match v with
  | VUndef | VNull => false
  | VBool b => b
  | VNum (Fin q) => negb (Qeq_bool q 0)
  | VNum NaN => false
  | VNum _ => true
  | VStr s => negb (s =? "")%string
  | VArr _ | VObj _ => true
  end.

Definition typeof (v : value) : string :=
  match v with
  | VUndef => "undefined"
  | VBool _ => "boolean"
  | VNum _ => "number"
  | VStr _ => "string"
  | VNull | VArr _ | VObj _ => "object"
  end.

(** ToString *)
Definition ToString (v : value) : string :=
  match v with
  | VStr s => s
  | _ => ToStringOther v
  end.

(** ToNumber; an array or object is first turned into its string. *)
Definition ToNumber (v : value) : number :=
  match v with
  | VUndef => NaN
  | VNull => Fin 0
  | VBool b => if b then Fin 1 else Fin 0
  | VNum n => n
  | VStr s => StringToNumber s
  | VArr _ | VObj _ => StringToNumber (ToStringOther v)
  end.

(** The value stored last under [k]: [JSON.parse] keeps the last of
    duplicate keys. *)
Fixpoint lookup (k : string) (fs : list (string * value)) : option value :=
  match fs with
  | [] => None
  | (k', v) :: r =>
      match lookup k r with
      | Some w => Some w
      | None => if (k' =? k)%string then Some v else None
      end
  end.

(** [v.k] for the data keys the servers read ([id], [name], [category],
    [price], ...): none of them is a property of a built-in prototype, so the
    read of a primitive or of an array yields [undefined]. *)
Definition get (v : value) (k : string) : M value :=
  match v with
  | VUndef | VNull => Throw TypeError
  | VObj fs => Ok match lookup k fs with Some w => w | None => VUndef end
  | _ => Ok VUndef
  end.

Fixpoint update (k : string) (w : value) (fs : list (string * value))
  : list (string * value) :=
  match fs with
  | [] => [(k, w)]
  | (k', v) :: r =>
      match lookup k r with
      | Some _ => (k', v) :: update k w r
      | None => if (k' =? k)%string then (k', w) :: r else (k', v) :: update k w r
      end
  end.

(** [v.k = w] in sloppy mode (the files carry no "use strict"): an object
    takes the key, the assignment to a primitive is dropped.  An array would
    take [k] as an extra property that [res.json] never prints and that no
    handler reads; it is left as it is. *)
Definition set (v : value) (k : string) (w : value) : M value :=
  match v with
  | VUndef | VNull => Throw TypeError
  | VObj fs => Ok (VObj (update k w fs))
  | _ => Ok v
  end.

(** [a || b] and [a && b].  Completions are data, so the right operand can
    be written unguarded: it is dropped when the left one decides. *)
Definition or_ (a b : M value) : M value :=
  x <- a ;; if truthy x then Ok x else b.

Definition and_ (a b : M value) : M value :=
  x <- a ;; if truthy x then b else Ok x.

(** SameValueZero of a number with a value out of a JSON file. *)
Definition same_value_zero_num (n : number) (v : value) : bool :=
  match v with
  | VNum m => match n, m with NaN, NaN => true | _, _ => num_eq m n end
  | _ => false
  end.

(** SameValueZero of two values.  Two objects are the same only when they
    are one object; the operands here come out of two different records, so
    two objects or arrays never are. *)
Definition same_value_zero (a v : value) : bool :=
  match a, v with
  | VUndef, VUndef | VNull, VNull => true
  | VBool x, VBool y => Bool.eqb x y
  | VNum n, _ => same_value_zero_num n v
  | VStr x, VStr y => (x =? y)%string
  | _, _ => false
  end.

(** [v === s] for a string [s], [v === n] for a number [n]. *)
Definition strict_eq_str (v : value) (s : string) : bool :=
  match v with
  | VStr x => (x =? s)%string
  | _ => false
  end.

Definition strict_eq_num (v : value) (n : number) : bool :=
  match v with
  | VNum m => num_eq m n
  | _ => false
  end.

(** [v == s] for a string [s]. *)
Definition loose_eq_str (v : value) (s : string) : bool :=
  match v with
  | VUndef | VNull => false
  | VStr x => (x =? s)%string
  | VNum n => num_eq n (StringToNumber s)
  | VBool _ => num_eq (ToNumber v) (StringToNumber s)
  | VArr _ | VObj _ => (ToStringOther v =? s)%string
  end.

(** [v >= n] and [v <= n] for a number [n]. *)
Definition ge_num (v : value) (n : number) : bool := num_le n (ToNumber v).
Definition le_num (v : value) (n : number) : bool := num_le (ToNumber v) n.

(** *** Methods *)

(** A method of [String.prototype] called on [v]: other values have no such
    property, and calling [undefined] throws. *)
Definition call_toLowerCase (v : value) : M value :=
  match v with
  | VStr s => Ok (VStr (toLowerCase s))
  | _ => Throw TypeError
  end.

Definition call_trim (v : value) : M value :=
  match v with
  | VStr s => Ok (VStr (trim s))
  | _ => Throw TypeError
  end.

Definition call_localeCompare (v arg : value) : M Z :=
  match v with
  | VStr s => Ok (localeCompare s (ToString arg))
  | _ => Throw TypeError
  end.

(** [v.includes(arg)]: of a string, or of an array. *)
Definition call_includes (v arg : value) : M value :=
  match v with
  | VStr s => Ok (VBool (includes s (ToString arg)))
  | VArr xs => Ok (VBool (existsb (same_value_zero arg) xs))
  | _ => Throw TypeError
  end.

Definition as_array (v : value) : M (list value) :=
  match v with
  | VArr xs => Ok xs
  | _ => Throw TypeError
  end.

(** [xs.filter(f)] *)
Fixpoint filter_ (f : value -> M value) (xs : list value) : M (list value) :=
  match xs with
  | [] => Ok []
  | x :: r =>
      b <- f x ;;
      r' <- filter_ f r ;;
      Ok (if truthy b then x :: r' else r')
  end.

(** [xs.some(f)] *)
Fixpoint some_ (f : value -> M value) (xs : list value) : M value :=
  match xs with
  | [] => Ok (VBool false)
  | x :: r => b <- f x ;; if truthy b then Ok (VBool true) else some_ f r
  end.

Definition call_some (v : value) (f : value -> M value) : M value :=
  xs <- as_array v ;; some_ f xs.

(** [xs.find(f)] *)
Fixpoint find_ (f : value -> M value) (xs : list value) : M value :=
  match xs with
  | [] => Ok VUndef
  | x :: r => b <- f x ;; if truthy b then Ok x else find_ f r
  end.

(** [xs.slice(0, n)] *)
Definition slice0 (n : nat) (xs : list value) : list value := firstn n xs.

(** [xs.sort(cmp)].  The engine's sort is stable; on a comparator that is a
    total preorder every stable sort returns the list built here, by
    insertion from the right.  [undefined] entries go last, uncompared. *)
Fixpoint insert_ (cmp : value -> value -> M Z) (x : value) (xs : list value)
  : M (list value) :=
  match xs with
  | [] => Ok [x]
  | y :: r =>
      c <- cmp x y ;;
      if c <=? 0 then Ok (x :: y :: r)
      else r' <- insert_ cmp x r ;; Ok (y :: r')
  end.

Fixpoint isort_ (cmp : value -> value -> M Z) (xs : list value)
  : M (list value) :=
  match xs with
  | [] => Ok []
  | x :: r => r' <- isort_ cmp r ;; insert_ cmp x r'
  end.

Definition is_undef (v : value) : bool :=
  match v with VUndef => true | _ => false end.

Definition sort_ (cmp : value -> value -> M Z) (xs : list value)
  : M (list value) :=
  s <- isort_ cmp (filter (fun v => negb (is_undef v)) xs) ;;
  Ok (s ++ filter is_undef xs)%list.

End Operators.

End JS.

(** ** The snapshot server *)

Module Snapshot.
Import JS.

(** The two module-level arrays. *)
Record store := {
  restaurantsData : list value;
  dishesData : list value
}.

(** What a handler sends: [res.status(status).json(body)], or the reply of
    its [catch] block, status 500 with the message of the exception. *)
Inductive response :=
| Reply (status : nat) (body : value)
| ServerError (e : exn).

Definition status (r : response) : nat :=
  match r with
  | Reply s _ => s
  | ServerError _ => 500%nat
  end.

(** A value of [req.query] or [req.params]: a string, or absent.  (The
    arrays and nested objects that the query parser builds from repeated or
    bracketed keys are not modelled.) *)
Definition param := option string.

Definition of_param (p : param) : value :=
  match p with
  | Some s => VStr s
  | None => VUndef
  end.

Section Server.
Context {R : Runtime}.

Definition not_ (a : M value) : M value :=
  x <- a ;; Ok (VBool (negb (truthy x))).

(** *** Start-up: the JSON load block *)

(** The callback of [dishesData.filter]. *)
Definition keep_dish (dish : value) : M value :=
  and_ (and_ (and_ (and_
    (Ok dish)
    (Ok (VBool (typeof dish =? "object")%string)))
    (get dish "name"))
    (n <- get dish "name" ;; Ok (VBool (typeof n =? "string")%string)))
    (n <- get dish "name" ;; t <- call_trim n ;;
     Ok (VBool (negb (strict_eq_str t "")))).

(** The callback of [restaurantsData.map]; [rnd] is the sequence of results
    of [Math.random()] and [n] counts the calls made so far.  The sum and the
    product are those of binary64. *)
Definition add_coordinates (rnd : nat -> Q) (n : nat) (restaurant : value)
  : M (value * nat) :=
  c <- or_ (not_ (get restaurant "latitude"))
           (not_ (get restaurant "longitude")) ;;
  if truthy c then
    r1 <- set restaurant "latitude"
            (VNum (num_add (literal 43.2)
                           (num_mul (Fin (rnd n)) (literal 0.1)))) ;;
    r2 <- set r1 "longitude"
            (VNum (num_add (literal 76.8)
                           (num_mul (Fin (rnd (S n))) (literal 0.2)))) ;;
    Ok (r2, S (S n))
  else Ok (restaurant, n).

Fixpoint map_add_coordinates (rnd : nat -> Q) (n : nat) (xs : list value)
  : M (list value * nat) :=
  match xs with
  | [] => Ok ([], n)
  | x :: r =>
      p <- add_coordinates rnd n x ;;
      q <- map_add_coordinates rnd (snd p) r ;;
      Ok (fst p :: fst q, snd q)
  end.

(** The [try] block, given the two parsed files.  [Throw] is the [catch]
    branch: the server goes on with whatever the arrays held at the throw,
    which this model does not follow. *)
Definition load (restaurantsFile dishesFile : value) (rnd : nat -> Q)
  : M store :=
  rs <- or_ (get restaurantsFile "restaurants") (Ok (VArr [])) ;;
  ds <- as_array dishesFile ;;
  ds' <- filter_ keep_dish ds ;;
  rl <- as_array rs ;;
  p <- map_add_coordinates rnd 0 rl ;;
  Ok {| restaurantsData := fst p; dishesData := ds' |}.

(** *** Handlers *)

Definition error_body (msg : string) : value := VObj [("error", VStr msg)].

Definition catch (c : M response) : response :=
  match c with
  | Ok r => r
  | Throw e => ServerError e
  end.

(** GET /api/restaurants *)
Definition get_api_restaurants (st : store) : response :=
  catch (Ok (Reply 200 (VArr (restaurantsData st)))).

(** GET /api/restaurants/:id *)
Definition get_api_restaurants_id (st : store) (id : string) : response :=
  catch (
    restaurant <- find_ (fun r => i <- get r "id" ;;
                                  Ok (VBool (loose_eq_str i id)))
                        (restaurantsData st) ;;
    if negb (truthy restaurant)
    then Ok (Reply 404 (error_body "Restaurant not found"))
    else Ok (Reply 200 restaurant)).

(** GET /api/restaurants/:id/menu *)
Definition get_api_restaurants_id_menu (st : store) (id : string) : response :=
  catch (
    let restaurantId := parseInt id in
    menu <- filter_ (fun dish =>
                and_ (get dish "restaurants")
                     (rs <- get dish "restaurants" ;;
                      call_includes rs (VNum restaurantId)))
              (dishesData st) ;;
    Ok (Reply 200 (VArr menu))).

(** The callback of the [search] filter of GET /api/dishes. *)
Definition dish_matches (searchLower : string) (dish : value) : M value :=
  or_ (or_
    (n <- get dish "name" ;; l <- call_toLowerCase n ;;
     call_includes l (VStr searchLower))
    (and_ (get dish "category")
          (c <- get dish "category" ;; l <- call_toLowerCase c ;;
           call_includes l (VStr searchLower))))
    (and_ (get dish "ingredients")
          (i <- get dish "ingredients" ;;
           call_some i (fun ing => l <- call_toLowerCase ing ;;
                                   call_includes l (VStr searchLower)))).

Definition by_name (a b : value) : M Z :=
  x <- get a "name" ;; y <- get b "name" ;; call_localeCompare x y.

(** [if (p) { xs = xs.filter(f) }] for a parameter [p] of the query: the
    test passes when [p] is a non-empty string. *)
Definition supplied (p : param) : option string :=
  match p with
  | Some s => if truthy (VStr s) then Some s else None
  | None => None
  end.

Definition filter_if (p : param) (f : string -> value -> M value)
    (xs : list value) : M (list value) :=
  match supplied p with
  | Some s => filter_ (f s) xs
  | None => Ok xs
  end.

(** GET /api/dishes: its reply, as a function of the array [dishesData]
    holds.  (What the handler does to the array objects is followed by
    [get_api_dishes_at] below.) *)
Definition get_api_dishes (st : store)
    (search category min_price max_price : param) : response :=
  catch (
    let filteredDishes := dishesData st in
    f1 <- filter_if search
            (fun search => dish_matches (toLowerCase search))
            filteredDishes ;;
    f2 <- filter_if category
            (fun category dish =>
               c <- get dish "category" ;;
               Ok (VBool (strict_eq_str c category)))
            f1 ;;
    f3 <- filter_if min_price
            (fun min_price dish =>
               p <- get dish "price" ;;
               Ok (VBool (ge_num p (parseFloat min_price))))
            f2 ;;
    f4 <- filter_if max_price
            (fun max_price dish =>
               p <- get dish "price" ;;
               Ok (VBool (le_num p (parseFloat max_price))))
            f3 ;;
    sorted <- sort_ by_name f4 ;;
    Ok (Reply 200 (VArr sorted))).

(** GET /api/dishes/:id *)
Definition get_api_dishes_id (st : store) (id : string) : response :=
  catch (
    dish <- find_ (fun d => i <- get d "id" ;; Ok (VBool (loose_eq_str i id)))
                  (dishesData st) ;;
    if negb (truthy dish)
    then Ok (Reply 404 (error_body "Dish not found"))
    else Ok (Reply 200 dish)).

(** GET /api/dishes/:id/restaurants *)
Definition get_api_dishes_id_restaurants (st : store) (id : string)
  : response :=
  catch (
    let dishId := parseInt id in
    dish <- find_ (fun d => i <- get d "id" ;;
                            Ok (VBool (strict_eq_num i dishId)))
                  (dishesData st) ;;
    c <- or_ (not_ (Ok dish)) (not_ (get dish "restaurants")) ;;
    if truthy c then Ok (Reply 200 (VArr []))
    else
      availableRestaurants <-
        filter_ (fun r => rs <- get dish "restaurants" ;;
                          i <- get r "id" ;;
                          call_includes rs i)
                (restaurantsData st) ;;
      Ok (Reply 200 (VArr availableRestaurants))).

(** The search terms of GET /api/search. *)
Definition terms (query : string) : list string :=
  filter (fun q => (0 <? String.length q)%nat)
         (map (fun q => toLowerCase (trim q)) (split "," query)).

(** The callbacks of the two filters of GET /api/search. *)
Definition restaurant_found (queries : list string) (r : value) : M value :=
  some_ (fun q =>
    or_ (or_
      (n <- get r "name" ;; l <- call_toLowerCase n ;; call_includes l q)
      (and_ (get r "address")
            (a <- get r "address" ;; l <- call_toLowerCase a ;;
             call_includes l q)))
      (and_ (get r "type")
            (t <- get r "type" ;; l <- call_toLowerCase t ;;
             call_includes l q)))
    (map VStr queries).

Definition dish_found (queries : list string) (d : value) : M value :=
  and_ (and_ (and_
    (Ok d)
    (Ok (VBool (typeof d =? "object")%string)))
    (get d "name"))
    (some_ (fun q =>
       or_ (or_
         (n <- get d "name" ;; l <- call_toLowerCase n ;; call_includes l q)
         (and_ (get d "category")
               (c <- get d "category" ;; l <- call_toLowerCase c ;;
                call_includes l q)))
         (and_ (get d "ingredients")
               (i <- get d "ingredients" ;;
                call_some i (fun ing =>
                  and_ (Ok (VBool (typeof ing =? "string")%string))
                       (l <- call_toLowerCase ing ;; call_includes l q)))))
       (map VStr queries)).

(** GET /api/search *)
Definition get_api_search (st : store) (query type : param) : response :=
  catch (
    let type := match type with Some t => t | None => "all" end in
    match supplied query with
    | None => Ok (Reply 400 (error_body "Query parameter is required"))
    | Some query =>
        let queries := terms query in
        let results := [] in
        r1 <- (if (type =? "all")%string || (type =? "restaurants")%string
               then
                 found <- filter_ (restaurant_found queries)
                                  (restaurantsData st) ;;
                 Ok (results ++ [("restaurants", VArr (slice0 20 found))])%list
               else Ok results) ;;
        r2 <- (if (type =? "all")%string || (type =? "dishes")%string
               then
                 found <- filter_ (dish_found queries) (dishesData st) ;;
                 Ok (r1 ++ [("dishes", VArr (slice0 20 found))])%list
               else Ok r1) ;;
        Ok (Reply 200 (VObj r2))
    end).

(** GET /health; [now] is the reading of the clock, already printed. *)
Definition get_health (st : store) (now : string) : response :=
  let count (xs : list value) := VNum (Fin (inject_Z (Z.of_nat (List.length xs)))) in
  catch (Ok (Reply 200 (VObj [
    ("status", VStr "OK");
    ("timestamp", VStr now);
    ("database", VObj [
       ("status", VStr "JSON files");
       ("type", VStr "In-memory");
       ("restaurants", count (restaurantsData st));
       ("dishes", count (dishesData st))]);
    ("api", VObj [
       ("version", VStr "1.0.0");
       ("endpoints", VArr (map VStr [
          "GET /api/restaurants";
          "GET /api/restaurants/:id";
          "GET /api/restaurants/:id/menu";
          "GET /api/dishes";
          "GET /api/dishes/:id";
          "GET /api/dishes/:id/restaurants";
          "GET /api/search"]))])]))).

(** Any other route. *)
Definition not_found (method url : string) : response :=
  Reply 404 (VObj [
    ("error", VStr "Endpoint not found");
    ("method", VStr method);
    ("path", VStr url);
    ("hint", VStr "Check /health endpoint for available API routes")]).

(** *** The server as a transition system

    [restaurantsData] and [dishesData] are bound to two array objects, and
    no handler assigns to either binding or to a key of a record.  One
    handler changes an array in place: GET /api/dishes sorts
    [filteredDishes].  To follow what it changes, that handler is embedded a
    second time over a heap of array objects, in which [filter] and the
    spread build new arrays and [sort] overwrites its receiver. *)
Inductive request :=
| GetRestaurants
| GetRestaurant (id : string)
| GetMenu (id : string)
| GetDishes (search category min_price max_price : param)
| GetDish (id : string)
| GetDishRestaurants (id : string)
| Search (query type : param)
| Health (now : string)
| Other (method url : string).

(** The array objects, each known by its address. *)
Definition heap := list (list value).

Definition restaurantsRef : nat := 0.
Definition dishesRef : nat := 1.

Definition heap_of (st : store) : heap := [restaurantsData st; dishesData st].

Definition deref (h : heap) (a : nat) : list value := nth a h [].

Definition store_of (h : heap) : store :=
  {| restaurantsData := deref h restaurantsRef;
     dishesData := deref h dishesRef |}.

(** A new array object. *)
Definition alloc (h : heap) (xs : list value) : heap * nat :=
  ((h ++ [xs])%list, List.length h).

(** The array object at [a] takes new elements. *)
Fixpoint assign (h : heap) (a : nat) (xs : list value) : heap :=
  match h, a with
  | [], _ => []
  | _ :: r, O => xs :: r
  | y :: r, S a' => y :: assign r a' xs
  end.

(** [if (p) { xs = xs.filter(f) }]: [xs] is bound to a new array. *)
Definition filter_if_at (p : param) (f : string -> value -> M value)
    (a : nat) (h : heap) : heap * M nat :=
  match supplied p with
  | Some s =>
      match filter_ (f s) (deref h a) with
      | Ok xs => let '(h', a') := alloc h xs in (h', Ok a')
      | Throw e => (h, Throw e)
      end
  | None => (h, Ok a)
  end.

(** [xs.sort(cmp)]: the array at [a] is overwritten.  (Where the comparator
    throws, the order it is left in is open; it is left as it was.) *)
Definition sort_at (cmp : value -> value -> M Z) (a : nat) (h : heap)
  : heap * M unit :=
  match sort_ cmp (deref h a) with
  | Ok xs => (assign h a xs, Ok tt)
  | Throw e => (h, Throw e)
  end.

Definition then_ {A B} (c : heap -> heap * M A) (k : A -> heap -> heap * M B)
    (h : heap) : heap * M B :=
  match c h with
  | (h', Ok a) => k a h'
  | (h', Throw e) => (h', Throw e)
  end.

(** GET /api/dishes over the heap. *)
Definition get_api_dishes_at (search category min_price max_price : param)
    (h : heap) : heap * response :=
  let '(h', r) :=
    then_ (fun h => let '(h', a) := alloc h (deref h dishesRef) in (h', Ok a))
    (fun filteredDishes =>
    then_ (filter_if_at search
             (fun search => dish_matches (toLowerCase search))
             filteredDishes)
    (fun filteredDishes =>
    then_ (filter_if_at category
             (fun category dish =>
                c <- get dish "category" ;;
                Ok (VBool (strict_eq_str c category)))
             filteredDishes)
    (fun filteredDishes =>
    then_ (filter_if_at min_price
             (fun min_price dish =>
                p <- get dish "price" ;;
                Ok (VBool (ge_num p (parseFloat min_price))))
             filteredDishes)
    (fun filteredDishes =>
    then_ (filter_if_at max_price
             (fun max_price dish =>
                p <- get dish "price" ;;
                Ok (VBool (le_num p (parseFloat max_price))))
             filteredDishes)
    (fun filteredDishes =>
    then_ (sort_at by_name filteredDishes)
    (fun _ h =>
       (h, Ok (Reply 200 (VArr (deref h filteredDishes)))))))))) h in
  (h', catch r).

Definition step (st : store) (rq : request) : store * response :=
  match rq with
  | GetRestaurants => (st, get_api_restaurants st)
  | GetRestaurant id => (st, get_api_restaurants_id st id)
  | GetMenu id => (st, get_api_restaurants_id_menu st id)
  | GetDishes s c lo hi =>
      let '(h, r) := get_api_dishes_at s c lo hi (heap_of st) in
      (store_of h, r)
  | GetDish id => (st, get_api_dishes_id st id)
  | GetDishRestaurants id => (st, get_api_dishes_id_restaurants st id)
  | Search q t => (st, get_api_search st q t)
  | Health now => (st, get_health st now)
  | Other method url => (st, not_found method url)
  end.


End Server.

End Snapshot.

(** ** The MySQL servers

    The two MySQL servers send the same statements and differ in the texts
    of their error replies.  Each statement is embedded as the function on
    tables that MySQL computes for it, for the handlers the properties below
    refer to: the restaurant list, the dish filter and the unified search. *)

Module Sql.

(** Modelled from the spec: the schema of [restor1_db] is not among the
    sources; the columns are those of the data model (section 3) that the
    statements name, nullable, text where the statements apply LIKE and
    numeric where they order or bound.  [SELECT *] returns further columns,
    which no statement looks at. *)
Record restaurant := {
  r_id : Z;
  r_name : option string;
  r_address : option string;
  r_type : option string;
  r_rating : option Q
}.

Record dish := {
  d_id : Z;
  d_name : option string;
  d_description : option string;
  d_category : option string;
  d_ingredients : option string;
  d_price : option Q
}.

Record db := {
  restaurants : list restaurant;
  dishes : list dish
}.

Inductive server := Basic | Improved.

Inductive body :=
| Restaurants (rows : list restaurant)
| Dishes (rows : list dish)
| Results (restaurants : option (list restaurant)) (dishes : option (list dish))
| Error (msg : string).

(** [ServerError] is the reply of the [catch] block, status 500, sent when
    [pool.query] rejects. *)
Inductive response :=
| Reply (status : nat) (b : body)
| ServerError.

Definition status (r : response) : nat :=
  match r with
  | Reply s _ => s
  | ServerError => 500%nat
  end.

(** *** Expressions of a WHERE clause, three-valued *)

Definition or3 (a b : option bool) : option bool :=
  match a, b with
  | Some true, _ | _, Some true => Some true
  | Some false, Some false => Some false
  | _, _ => None
  end.

Definition and3 (a b : option bool) : option bool :=
  match a, b with
  | Some false, _ | _, Some false => Some false
  | Some true, Some true => Some true
  | _, _ => None
  end.

(** A row is selected when the clause is true, not when it is unknown. *)
Definition selected (c : option bool) : bool :=
  match c with
  | Some true => true
  | _ => false
  end.

(** The default collations of [utf8mb4] compare without regard to case; the
    folding modelled is that of the ASCII letters. *)
Definition fold_char (c : ascii) : ascii :=
  let n := nat_of_ascii c in
  if ((65 <=? n) && (n <=? 90))%nat then ascii_of_nat (n + 32) else c.

Fixpoint fold (s : string) : string :=
  match s with
  | String c t => String (fold_char c) (fold t)
  | EmptyString => EmptyString
  end.

(** The pattern of LIKE against a whole string: [%] stands for any run of
    characters, [_] for one, a backslash takes the next character as it is. *)
Fixpoint like_match (p : string) : string -> bool :=
  match p with
  | EmptyString => fun s => match s with EmptyString => true | _ => false end
  | String "%" p' =>
      fix star (s : string) : bool :=
        like_match p' s ||
        match s with
        | String _ t => star t
        | EmptyString => false
        end
  | String "_" p' =>
      fun s => match s with String _ t => like_match p' t | _ => false end
  | String "\" (String c p') =>
      fun s => match s with
               | String x t => Ascii.eqb x c && like_match p' t
               | _ => false
               end
  | String c p' =>
      fun s => match s with
               | String x t => Ascii.eqb x c && like_match p' t
               | _ => false
               end
  end.

(** [column LIKE ?] *)
Definition like (column : option string) (pattern : string) : option bool :=
  match column with
  | Some s => Some (like_match (fold pattern) (fold s))
  | None => None
  end.

(** [column = ?] on a text column. *)
Definition text_eq (column : option string) (p : string) : option bool :=
  match column with
  | Some s => Some (fold s =? fold p)%string
  | None => None
  end.

(** The number MySQL reads off the front of a string parameter that it
    compares with a numeric column; 0 when there is none. *)
Definition number_of (p : string) : Q :=
  match JS.strip "Infinity" (snd (JS.sign (JS.trimStart p))),
        JS.decimal_literal (JS.trimStart p) with
  | None, Some (JS.Fin q, _) => q
  | _, _ => 0%Q
  end.

(** [column >= ?] and [column <= ?] on a numeric column. *)
Definition num_ge (column : option Q) (p : string) : option bool :=
  match column with
  | Some q => Some (Qle_bool (number_of p) q)
  | None => None
  end.

Definition num_le (column : option Q) (p : string) : option bool :=
  match column with
  | Some q => Some (Qle_bool q (number_of p))
  | None => None
  end.

(** *** ORDER BY and LIMIT *)

(** NULL sorts below every value. *)
Definition le_option {A} (le : A -> A -> bool) (a b : option A) : bool :=
  match a, b with
  | None, _ => true
  | Some _, None => false
  | Some x, Some y => le x y
  end.

Definition text_le (a b : string) : bool :=
  match String_as_OT.compare (fold a) (fold b) with
  | Gt => false
  | _ => true
  end.

Section Sort.
Context {A : Type} (le : A -> A -> bool).

Fixpoint insert (x : A) (xs : list A) : list A :=
  match xs with
  | [] => [x]
  | y :: r => if le x y then x :: y :: r else y :: insert x r
  end.

(** Rows in the order of [le]; rows that tie keep the order of the table
    (MySQL leaves their order open). *)
Fixpoint order_by (xs : list A) : list A :=
  match xs with
  | [] => []
  | x :: r => insert x (order_by r)
  end.

End Sort.

(** [a] may stand before [b] under [ORDER BY rating DESC]. *)
Definition rating_desc (a b : restaurant) : bool :=
  le_option Qle_bool (r_rating b) (r_rating a).

(** [a] may stand before [b] under [ORDER BY name]. *)
Definition name_asc (a b : dish) : bool :=
  le_option text_le (d_name a) (d_name b).

Definition limit {A} (n : nat) (xs : list A) : list A := firstn n xs.

(** *** Handlers *)

(** A parameter passes [if (p)] when it is a non-empty string. *)
Definition supplied (p : option string) : option string :=
  match p with
  | Some s => if (s =? "")%string then None else Some s
  | None => None
  end.

(** [pool] is the database when it answers, [None] when [pool.query]
    rejects. *)
Section Server.
Variable pool : option db.

Definition query {A} (f : db -> A) (k : A -> response) : response :=
  match pool with
  | Some d => k (f d)
  | None => ServerError
  end.

(** GET /api/restaurants:
    [SELECT * FROM restaurants ORDER BY rating DESC] *)
Definition get_api_restaurants : response :=
  query (fun d => order_by rating_desc (restaurants d))
        (fun rows => Reply 200 (Restaurants rows)).

(** The WHERE clause that GET /api/dishes puts together. *)
Definition dishes_where (search category min_price max_price : option string)
    (d : dish) : option bool :=
  let c0 := Some true in
  let c1 :=
    match supplied search with
    | Some s =>
        let searchParam := ("%" ++ s ++ "%")%string in
        and3 c0 (or3 (or3 (like (d_name d) searchParam)
                          (like (d_description d) searchParam))
                     (like (d_ingredients d) searchParam))
    | None => c0
    end in
  let c2 :=
    match supplied category with
    | Some c => and3 c1 (text_eq (d_category d) c)
    | None => c1
    end in
  let c3 :=
    match supplied min_price with
    | Some p => and3 c2 (num_ge (d_price d) p)
    | None => c2
    end in
  match supplied max_price with
  | Some p => and3 c3 (num_le (d_price d) p)
  | None => c3
  end.

(** GET /api/dishes:
    [SELECT * FROM dishes WHERE 1=1 ... ORDER BY name] *)
Definition get_api_dishes (search category min_price max_price : option string)
  : response :=
  query (fun d =>
           order_by name_asc
             (filter (fun x => selected
                        (dishes_where search category min_price max_price x))
                     (dishes d)))
        (fun rows => Reply 200 (Dishes rows)).

Definition query_required (v : server) : string :=
  match v with
  | Basic => "Query required"
  | Improved => "Query parameter is required"
  end.

(** GET /api/search *)
Definition get_api_search (v : server) (query_ type : option string)
  : response :=
  let type := match type with Some t => t | None => "all" end in
  match supplied query_ with
  | None => Reply 400 (Error (query_required v))
  | Some q =>
      let searchParam := ("%" ++ q ++ "%")%string in
      let with_restaurants (k : option (list restaurant) -> response) :=
        if (type =? "all")%string || (type =? "restaurants")%string then
          query (fun d =>
                   limit 20
                     (filter (fun r => selected
                        (or3 (or3 (like (r_name r) searchParam)
                                  (like (r_address r) searchParam))
                             (like (r_type r) searchParam)))
                        (restaurants d)))
                (fun rows => k (Some rows))
        else k None in
      let with_dishes (k : option (list dish) -> response) :=
        if (type =? "all")%string || (type =? "dishes")%string then
          query (fun d =>
                   limit 20
                     (filter (fun x => selected
                        (or3 (or3 (or3 (like (d_name x) searchParam)
                                       (like (d_description x) searchParam))
                                  (like (d_category x) searchParam))
                             (like (d_ingredients x) searchParam)))
                        (dishes d)))
                (fun rows => k (Some rows))
        else k None in
      with_restaurants (fun rs =>
      with_dishes (fun ds =>
      Reply 200 (Results rs ds)))
  end.

End Server.

End Sql.

(** ** A runtime for the examples

    Lower-casing of the ASCII letters and comparison by code unit; the
    examples never turn a non-string into a string. *)

Definition compare_units (a b : string) : Z :=
  match String_as_OT.compare a b with
  | Lt => -1
  | Eq => 0
  | Gt => 1
  end.

#[export] Instance sample_runtime : JS.Runtime := {|
  JS.toLowerCase := Sql.fold;
  JS.localeCompare := compare_units;
  JS.ToStringOther := fun _ => EmptyString
|}.

(** ** Records of the data model, read off the values *)

Module Data.
Import JS.

Definition field (v : value) (k : string) : value :=
  match v with
  | VObj fs => match lookup k fs with Some w => w | None => VUndef end
  | _ => VUndef
  end.

Definition is_object (v : value) : bool :=
  match v with VObj _ => true | _ => false end.

Definition is_string (v : value) : bool :=
  match v with VStr _ => true | _ => false end.

Definition is_finite (v : value) : bool :=
  match v with VNum (Fin _) => true | _ => false end.

(** An integer that a number of a JSON file can be: a value of binary64. *)
Definition is_integer (v : value) : bool :=
  match v with
  | VNum (Fin q) => (Qden q =? 1)%positive && is_double q
  | _ => false
  end.

Definition array_of (p : value -> bool) (v : value) : bool :=
  match v with VArr xs => forallb p xs | _ => false end.

(** A key that may be missing or null. *)
Definition optional (p : value -> bool) (v : value) : bool :=
  match v with VUndef | VNull => true | _ => p v end.

Definition nonempty (v : value) : bool :=
  match v with VStr s => negb (s =? "")%string | _ => false end.

(** A Dish of section 3: identifier, non-empty name, numeric price;
    category, ingredients and the restaurant identifiers may be missing. *)
Definition is_dish (d : value) : bool :=
  is_object d &&
  is_integer (field d "id") &&
  nonempty (field d "name") &&
  optional is_string (field d "category") &&
  is_finite (field d "price") &&
  optional (array_of is_string) (field d "ingredients") &&
  optional (array_of is_integer) (field d "restaurants").

(** A Restaurant of section 3: identifier and name; address and type may be
    missing. *)
Definition is_restaurant (r : value) : bool :=
  is_object r &&
  is_integer (field r "id") &&
  is_string (field r "name") &&
  optional is_string (field r "address") &&
  optional is_string (field r "type").

Definition text (v : value) : string :=
  match v with VStr s => s | _ => EmptyString end.

Definition int (v : value) : Z :=
  match v with VNum (Fin q) => Qnum q | _ => 0 end.

Definition rational (v : value) : Q :=
  match v with VNum (Fin q) => q | _ => 0%Q end.

Definition texts (v : value) : list string :=
  match v with
  | VStr s => [s]
  | VArr xs => map text xs
  | _ => []
  end.

Definition id_of (v : value) : Z := int (field v "id").
Definition name_of (v : value) : string := text (field v "name").
Definition price_of (d : value) : Q := rational (field d "price").

(** The serving relation of a dish: the identifiers in its [restaurants]. *)
Definition served_at (d : value) : list Z :=
  match field d "restaurants" with
  | VArr xs => map int xs
  | _ => []
  end.

Definition category_of (d : value) : list string := texts (field d "category").
Definition ingredients_of (d : value) : list string :=
  texts (field d "ingredients").

(** The serving relation of [d] contains the restaurant identifier [z]. *)
Definition serves (z : Z) (d : value) : bool := existsb (Z.eqb z) (served_at d).

(** The searchable fields of a dish and of a restaurant (section 4.2). *)
Definition dish_fields (d : value) : list string :=
  (texts (field d "name") ++ texts (field d "category")
   ++ texts (field d "ingredients"))%list.

Definition restaurant_fields (r : value) : list string :=
  (texts (field r "name") ++ texts (field r "address")
   ++ texts (field r "type"))%list.

(** The searchable field [f] holds the lower-cased text [q]. *)
Definition holds {R : Runtime} (q : string) (f : string) : bool :=
  includes (toLowerCase f) q.

(** The predicate set of [filterDishes] (section 4.2): substring search over
    name, category and ingredients, exact category, price bounds; the
    supplied predicates are conjoined, the others left out. *)
Definition satisfies {R : Runtime}
    (search category min_price max_price : Snapshot.param) (d : value) : bool :=
  match Snapshot.supplied search with
  | Some s => existsb (holds (toLowerCase s)) (dish_fields d)
  | None => true
  end &&
  match Snapshot.supplied category with
  | Some c => existsb (String.eqb c) (texts (field d "category"))
  | None => true
  end &&
  match Snapshot.supplied min_price with
  | Some lo => num_le (parseFloat lo) (Fin (price_of d))
  | None => true
  end &&
  match Snapshot.supplied max_price with
  | Some hi => num_le (Fin (price_of d)) (parseFloat hi)
  | None => true
  end.


Definition name_leb {R : Runtime} (a b : value) : bool :=
  localeCompare (name_of a) (name_of b) <=? 0.

(** The terms of [unifiedSearch] (section 4.2): the query text split on
    commas, each term trimmed, the empty ones dropped, the others
    lower-cased. *)
Definition search_terms {R : Runtime} (queryText : string) : list string :=
  map toLowerCase
      (filter (fun t => negb (t =? "")%string)
              (map trim (split "," queryText))).

(** Any term in any field. *)
Definition matches_any {R : Runtime} (queryText : string)
    (fields : list string) : bool :=
  existsb (fun t => existsb (holds t) fields) (search_terms queryText).

(** The scope selects the collection [which]. *)
Definition in_scope (scope which : string) : bool :=
  (scope =? "all")%string || (scope =? which)%string.

(** The records of a collection: objects with an integer [id]. *)
Definition identified (v : value) : Prop :=
  is_object v = true /\ is_integer (field v "id") = true.

(** The multiple of the spacing nearest to a positive [a], and a positive
    rational that is such a multiple. *)
Definition nearest (a : Q) : Q :=
  (inject_Z (rne (a / 2 ^ quantum a)) * 2 ^ quantum a)%Q.

Definition on_grid (b : Q) : Prop :=
  exists n : Z, (b / 2 ^ quantum b == inject_Z n)%Q.

(** The byte [c] is the first of a white space. *)
Definition starts_blank (c : ascii) : bool :=
  existsb (fun b => match b with
                    | String a _ => Ascii.eqb a c
                    | EmptyString => false
                    end) blanks.

(** A run of white space, and the text [t] left of [s] when the white space
    at both ends is taken away. *)
Inductive Blank : string -> Prop :=
| Blank_nil : Blank EmptyString
| Blank_cons (b s : string) : In b blanks -> Blank s -> Blank (b ++ s).

Definition Trimmed (s t : string) : Prop :=
  exists l r,
    s = (l ++ t ++ r)%string /\ Blank l /\ Blank r /\
    (forall b u, In b blanks -> t <> (b ++ u)%string) /\
    (forall b u, In b blanks -> t <> (u ++ b)%string).

(** A dish record that the load keeps: an object whose name is a string,
    not empty and not blank. *)
Definition well_named (d : value) : bool :=
  is_object d &&
  match field d "name" with
  | VStr s => negb (s =? "")%string && negb (trim s =? "")%string
  | _ => false
  end.

(** A restaurant record lacks coordinates, has both, has them inside the
    fall-back box. *)
Definition lacks_coordinates (r : value) : bool :=
  negb (truthy (field r "latitude")) || negb (truthy (field r "longitude")).

Definition located (r : value) : bool :=
  truthy (field r "latitude") && truthy (field r "longitude").

(** The coordinates that the load computes from a draw [r]. *)
Definition drawn_latitude (r : Q) : number :=
  num_add (literal 43.2) (num_mul (Fin r) (literal 0.1)).

Definition drawn_longitude (r : Q) : number :=
  num_add (literal 76.8) (num_mul (Fin r) (literal 0.2)).

(** The fall-back box as the load reaches it: the bounds are the values of
    binary64 that are written 43.2, 43.300000000000004, 76.8 and 77. *)
Definition in_box (r : value) : Prop :=
  exists x y : Q,
    field r "latitude" = VNum (Fin x) /\ field r "longitude" = VNum (Fin y) /\
    (43.2000000000000028421709430404007434844970703125 <= x
     <= 43.30000000000000426325641456060111522674560546875)%Q /\
    (76.7999999999999971578290569595992565155029296875 <= y <= 77)%Q.

(** The restaurant entries of the parsed restaurants file, under
    [restaurantsFile.restaurants || []]; [None] when the key holds something
    else than a list. *)
Definition entries (restaurantsFile : value) : option (list value) :=
  match field restaurantsFile "restaurants" with
  | VArr rs => Some rs
  | v => if truthy v then None else Some []
  end.

(** What the load does to one restaurant record: a record with coordinates
    is kept as it is, one without gets both inside the box and keeps its
    other keys. *)
Definition patched (r r' : value) : Prop :=
  (lacks_coordinates r = false -> r' = r) /\
  (lacks_coordinates r = true ->
   in_box r' /\
   forall k, k <> "latitude" -> k <> "longitude" -> field r' k = field r k).


(** [a] occurs in [b]. *)
Definition Substring (a b : string) : Prop :=
  exists p q, b = (p ++ a ++ q)%string.

(** A number that no list of identifiers holds. *)
Definition unlisted (n : number) : Prop := n = NaN \/ n = PosInf \/ n = NegInf.

(** The text [s] of a route parameter names the identifier [z]: it compares
    equal ([==]) to the number [z]. *)
Definition names (s : string) (z : Z) : bool :=
  num_eq (Fin (inject_Z z)) (StringToNumber s).

(** The text [s] of a route parameter is read ([parseInt]) as the integer
    [z]. *)
Definition reads (s : string) (z : Z) : Prop :=
  parseInt s = Fin (inject_Z z).

End Data.

(** ** Sample data *)

Module Examples.
Import JS Snapshot.

Definition pilaf : value :=
  VObj [("id", VNum (Fin 1)); ("name", VStr "Pilaf"); ("price", VNum (Fin 10))].

Definition borscht : value :=
  VObj [("id", VNum (Fin 2)); ("name", VStr "Borscht"); ("price", VNum (Fin 6))].

Definition plov : value :=
  VObj [("id", VNum (Fin 3)); ("name", VStr "Plov");
        ("category", VStr "Main"); ("price", VNum (Fin 12));
        ("ingredients", VArr [VStr "Rice"; VStr "Lamb"]);
        ("restaurants", VArr [VNum (Fin 1); VNum (Fin 2)])].

(** A row of the [dishes] table. *)
Definition pilaf_row : Sql.dish :=
  {| Sql.d_id := 1;
     Sql.d_name := Some "Pilaf";
     Sql.d_description := Some "Rice with lamb";
     Sql.d_category := Some "Main";
     Sql.d_ingredients := Some "rice, lamb";
     Sql.d_price := Some 10%Q |}.

Definition pizza_hut : value :=
  VObj [("id", VNum (Fin 1)); ("name", VStr "Pizza Hut");
        ("address", VStr "Abay 10"); ("type", VStr "Pizzeria");
        ("rating", VNum (Fin 3))].

Definition sushi_bar : value :=
  VObj [("id", VNum (Fin 2)); ("name", VStr "Sakura");
        ("address", VStr "Dostyk 5"); ("type", VStr "Sushi bar");
        ("rating", VNum (Fin 5))].

Definition catalog : store :=
  {| restaurantsData := [pizza_hut; sushi_bar];
     dishesData := [pilaf; borscht; plov] |}.

(** The same two restaurants as rows of the [restaurants] table. *)
Definition pizza_hut_row : Sql.restaurant :=
  {| Sql.r_id := 1; Sql.r_name := Some "Pizza Hut";
     Sql.r_address := Some "Abay 10"; Sql.r_type := Some "Pizzeria";
     Sql.r_rating := Some 3%Q |}.

Definition sushi_bar_row : Sql.restaurant :=
  {| Sql.r_id := 2; Sql.r_name := Some "Sakura";
     Sql.r_address := Some "Dostyk 5"; Sql.r_type := Some "Sushi bar";
     Sql.r_rating := Some 5%Q |}.

Definition catalog_db : Sql.db :=
  {| Sql.restaurants := [pizza_hut_row; sushi_bar_row];
     Sql.dishes := [pilaf_row] |}.

(** A record with a negative price, as a credit note would carry. *)
Definition voucher : value :=
  VObj [("id", VNum (Fin 4)); ("name", VStr "Voucher");
        ("price", VNum (Fin (-5)))].

Definition with_voucher : store :=
  {| restaurantsData := []; dishesData := [pilaf; voucher] |}.

(** The two files of a snapshot: a restaurant without coordinates and one
    with; a dish, and four entries that are not dishes. *)
Definition restaurants_file : value :=
  VObj [("restaurants",
         VArr [pizza_hut;
               VObj [("id", VNum (Fin 2)); ("name", VStr "Sakura");
                     ("latitude", VNum (Fin 43.25));
                     ("longitude", VNum (Fin 76.95))]])].

Definition dishes_file : value :=
  VArr [pilaf; VNull; VObj [("name", VStr "  ")]; VStr "soup"; VArr []].

Definition half (n : nat) : Q := 0.5.

Definition two_dishes : store :=
  {| restaurantsData := []; dishesData := [pilaf; borscht] |}.





End Examples.

(** ** Further notions: the start-up, the query text, the identifier text *)

Module More.
Import JS Snapshot Data.

(** [null] or [undefined]: the values whose property reads throw. *)
Definition nullish (v : value) : bool :=
  match v with
  | VUndef | VNull => true
  | _ => false
  end.

(** The number of entries for which the load draws coordinates. *)
Definition lacking (rs : list value) : nat :=
  List.length (filter lacks_coordinates rs).

(** The two files written back from a store. *)
Definition restaurants_file_of (st : store) : value :=
  VObj [("restaurants", VArr (restaurantsData st))].

Definition dishes_file_of (st : store) : value := VArr (dishesData st).

(** A text without a comma. *)
Fixpoint no_comma (s : string) : bool :=
  match s with
  | String c t => negb (Ascii.eqb c ",") && no_comma t
  | EmptyString => true
  end.

(** A character that can follow a numeral without continuing it in any
    reading of the text as a number: an ASCII character that is no digit, no
    white space, no point, no exponent mark and no radix mark. *)
Definition stray (c : ascii) : bool :=
  (N_of_ascii c <? 128)%N &&
  negb (starts_blank c) &&
  match digit_of 10 c with Some _ => false | None => true end &&
  negb (existsb (Ascii.eqb c) ["."; "e"; "E"; "x"; "X"; "o"; "O"; "b"; "B"]%char).

(** The list that a 200 reply carries, and [[]] for any other reply. *)
Definition listed (r : response) : list value :=
  match r with
  | Reply 200 (VArr xs) => xs
  | _ => []
  end.


End More.

Module MoreExamples.
Import JS Snapshot.

(** The second entry of [Examples.restaurants_file]. *)
Definition sakura_located : value :=
  VObj [("id", VNum (Fin 2)); ("name", VStr "Sakura");
        ("latitude", VNum (Fin 43.25)); ("longitude", VNum (Fin 76.95))].

(** A restaurants file whose one entry has no name, and the store that the
    load builds of it. *)
Definition nameless_file : value :=
  VObj [("restaurants", VArr [VObj [("id", VNum (Fin 3))]])].

Definition nameless_store : store :=
  match load nameless_file (VArr []) Examples.half with
  | Ok st => st
  | Throw _ => {| restaurantsData := []; dishesData := [] |}
  end.

(** The store that the load builds of the two sample files. *)
Definition loaded_store : store :=
  match load Examples.restaurants_file Examples.dishes_file Examples.half with
  | Ok st => st
  | Throw _ => {| restaurantsData := []; dishesData := [] |}
  end.

End MoreExamples.


(** * Properties *)

Import JS Snapshot Data.

(** ** Prefixes *)

Lemma prefix_spec (p s : string) :
  String.prefix p s = true <-> exists q, s = (p ++ q)%string.
Proof.
  revert s; induction p as [|c p IH]; intros s; simpl.
  - destruct s; simpl; split; eauto.
  - destruct s as [|c' s]; simpl.
    + split; [discriminate | intros [q H]; discriminate].
    + destruct (ascii_dec c c') as [->|Hne].
      * rewrite IH. split; intros [q H]; exists q; congruence.
      * split; [discriminate | intros [q H]; congruence].
Qed.

(** ** White space *)

Section WhiteSpace.
Local Open Scope string_scope.

Lemma substring_all (q : string) : substring 0 (String.length q) q = q.
Proof. induction q as [|c q IH]; simpl; [reflexivity | rewrite IH; reflexivity]. Qed.

Lemma substring_drop (p q : string) :
  substring (String.length p) (String.length (p ++ q) - String.length p) (p ++ q) = q.
Proof.
  induction p as [|c p IH]; simpl.
  - rewrite Nat.sub_0_r. apply substring_all.
  - exact IH.
Qed.

Lemma strip_spec (p s t : string) : strip p s = Some t <-> s = p ++ t.
Proof.
  unfold strip. destruct (String.prefix p s) eqn:E.
  - apply prefix_spec in E. destruct E as [q ->]. rewrite substring_drop.
    split.
    + intros H. injection H as <-. reflexivity.
    + intros H. f_equal. revert H. clear. induction p as [|c p IH]; simpl.
      * auto.
      * intros H. injection H as H. auto.
  - split; [discriminate|]. intros ->.
    assert (P : String.prefix p (p ++ t) = true) by (apply prefix_spec; eauto).
    congruence.
Qed.

Lemma strip_any_some (ps : list string) (s t : string) :
  strip_any ps s = Some t -> exists b, In b ps /\ s = b ++ t.
Proof.
  induction ps as [|p r IH]; simpl; [discriminate|].
  destruct (strip p s) as [u|] eqn:E.
  - intros H. injection H as <-. apply strip_spec in E. eauto.
  - intros H. destruct (IH H) as (b & Hb & Hs). eauto.
Qed.

Lemma strip_any_none (ps : list string) (s : string) :
  strip_any ps s = None -> forall b u, In b ps -> s <> b ++ u.
Proof.
  induction ps as [|p r IH]; simpl; [intros _ b u []|].
  destruct (strip p s) as [t|] eqn:E; [discriminate|].
  intros H b u [<-|Hb] Hs.
  - apply strip_spec in Hs. congruence.
  - apply (IH H b u Hb Hs).
Qed.

Lemma append_nil_r (s : string) : s ++ "" = s.
Proof. induction s as [|c s IH]; simpl; [reflexivity | rewrite IH; reflexivity]. Qed.

Lemma append_assoc (a b c : string) : (a ++ b) ++ c = a ++ b ++ c.
Proof. induction a as [|x a IH]; simpl; [reflexivity | rewrite IH; reflexivity]. Qed.

Lemma length_append (a b : string) :
  String.length (a ++ b) = (String.length a + String.length b)%nat.
Proof. induction a as [|x a IH]; simpl; [reflexivity | rewrite IH; reflexivity]. Qed.

Lemma blanks_nonempty (b : string) : In b blanks -> b <> "".
Proof.
  intros H ->. revert H. vm_compute. intuition discriminate.
Qed.

Lemma blanks_prefix_free (b b' : string) :
  In b blanks -> In b' blanks -> String.prefix b b' = true -> b = b'.
Proof.
  intros Hb Hb' H.
  assert (T : forallb (fun x => forallb (fun y =>
                implb (String.prefix x y) (String.eqb x y)) blanks) blanks = true)
    by (vm_compute; reflexivity).
  rewrite forallb_forall in T. specialize (T b Hb).
  rewrite forallb_forall in T. specialize (T b' Hb').
  rewrite H in T. apply String.eqb_eq, T.
Qed.

Lemma append_split (a b u v : string) :
  a ++ u = b ++ v -> String.prefix a b = true \/ String.prefix b a = true.
Proof.
  revert b. induction a as [|x a IH]; intros b H.
  - left. destruct b; reflexivity.
  - destruct b as [|y b]; [right; reflexivity|].
    simpl in H. injection H as -> H. simpl.
    destruct (ascii_dec y y) as [_|N]; [|contradiction]. apply IH, H.
Qed.

Lemma append_cancel (a u v : string) : a ++ u = a ++ v -> u = v.
Proof. induction a as [|x a IH]; simpl; [auto | intros H; injection H; auto]. Qed.

Lemma blank_unique (b b' u u' : string) :
  In b blanks -> In b' blanks -> b ++ u = b' ++ u' -> b = b' /\ u = u'.
Proof.
  intros Hb Hb' H.
  assert (E : b = b').
  { destruct (append_split _ _ _ _ H) as [P|P].
    - apply blanks_prefix_free; assumption.
    - symmetry. apply blanks_prefix_free; assumption. }
  subst b'. split; [reflexivity | apply (append_cancel b), H].
Qed.

Lemma strip_blank (b s : string) :
  In b blanks -> strip_any blanks (b ++ s) = Some s.
Proof.
  intros Hb. destruct (strip_any blanks (b ++ s)) as [t|] eqn:E.
  - apply strip_any_some in E. destruct E as (b' & Hb' & H).
    destruct (blank_unique _ _ _ _ Hb Hb' H) as [_ ->]. reflexivity.
  - exfalso. apply (strip_any_none _ _ E b s Hb). reflexivity.
Qed.

Lemma skip_blanks_spec (fuel : nat) :
  forall s, (String.length s <= fuel)%nat ->
  exists l, Blank l /\ s = l ++ skip_blanks fuel s /\
            strip_any blanks (skip_blanks fuel s) = None.
Proof.
  induction fuel as [|f IH]; intros s Hs.
  - destruct s; [|simpl in Hs; lia]. exists "". repeat split. constructor.
  - cbn [skip_blanks]. destruct (strip_any blanks s) as [t|] eqn:E.
    + destruct (strip_any_some _ _ _ E) as (b & Hb & ->).
      pose proof (blanks_nonempty b Hb) as Hne.
      assert (Ht : (String.length t <= f)%nat).
      { rewrite length_append in Hs. destruct b; [contradiction|].
        simpl in Hs. lia. }
      destruct (IH t Ht) as (l & Bl & El & N).
      exists (b ++ l). split; [constructor; assumption|]. split; [|exact N].
      rewrite append_assoc, <- El. reflexivity.
    + exists "". split; [constructor|]. split; [reflexivity | exact E].
Qed.

Lemma trimStart_spec (s : string) :
  exists l, Blank l /\ s = l ++ trimStart s /\
            strip_any blanks (trimStart s) = None.
Proof. apply skip_blanks_spec. apply Nat.le_refl. Qed.

Lemma skip_blanks_blank (s : string) :
  Blank s -> forall fuel, (String.length s <= fuel)%nat -> skip_blanks fuel s = "".
Proof.
  induction 1 as [|b s Hb Hs IH]; intros fuel Hf.
  - destruct fuel; reflexivity.
  - pose proof (blanks_nonempty b Hb) as Hne.
    rewrite length_append in Hf.
    destruct fuel as [|f]; [destruct b; [contradiction | simpl in Hf; lia]|].
    cbn [skip_blanks]. rewrite (strip_blank b s Hb). apply IH.
    destruct b; [contradiction | simpl in Hf; lia].
Qed.

Lemma blank_Blank (s : string) : blank s = true <-> Blank s.
Proof.
  unfold blank. split.
  - destruct (trimStart_spec s) as (l & Bl & E & _).
    destruct (trimStart s); [|discriminate]. intros _.
    rewrite append_nil_r in E. subst l. exact Bl.
  - intros H. unfold trimStart. rewrite (skip_blanks_blank s H); auto.
Qed.

Lemma Blank_app (a b : string) : Blank a -> Blank b -> Blank (a ++ b).
Proof.
  induction 1 as [|x a Hx Ha IH]; intros Hb; [exact Hb|].
  rewrite append_assoc. constructor; auto.
Qed.

Lemma trimEnd_spec (s : string) :
  exists r, Blank r /\ s = trimEnd s ++ r /\
            forall b u, In b blanks -> trimEnd s <> u ++ b.
Proof.
  induction s as [|c t IH].
  - exists "". repeat split; [constructor|]. intros b u Hb H.
    apply (blanks_nonempty b Hb). destruct u; [symmetry; exact H | discriminate H].
  - cbn [trimEnd]. destruct (blank (String c t)) eqn:E.
    + exists (String c t). split; [apply blank_Blank, E|]. split; [reflexivity|].
      intros b u Hb H. apply (blanks_nonempty b Hb).
      destruct u; [symmetry; exact H | discriminate H].
    + destruct IH as (r & Br & Er & N). exists r. split; [exact Br|].
      split; [simpl; rewrite <- Er; reflexivity|].
      intros b u Hb H. destruct u as [|x u].
      * simpl in H. assert (B : Blank (String c t)).
        { rewrite Er. change (Blank ((String c (trimEnd t)) ++ r)).
          rewrite H. constructor; assumption. }
        apply blank_Blank in B. congruence.
      * simpl in H. injection H as _ H. apply (N b u Hb H).
Qed.

Lemma trim_spec (s : string) : Trimmed s (trim s).
Proof.
  unfold trim. destruct (trimStart_spec s) as (l & Bl & El & N).
  destruct (trimEnd_spec (trimStart s)) as (r & Br & Er & E).
  exists l, r. split; [rewrite <- Er; exact El|].
  split; [exact Bl|]. split; [exact Br|]. split; [|exact E].
  intros b u Hb H.
  apply (strip_any_none _ _ N b (u ++ r) Hb).
  rewrite Er at 1. rewrite H. apply append_assoc.
Qed.

Lemma trim_empty (s : string) : trim s = "" <-> Blank s.
Proof.
  split.
  - intros H. destruct (trim_spec s) as (l & r & E & Bl & Br & _).
    rewrite H in E. simpl in E. subst s. apply Blank_app; assumption.
  - intros H. unfold trim.
    assert (E : trimStart s = "").
    { apply blank_Blank in H. unfold blank in H.
      destruct (trimStart s); [reflexivity | discriminate]. }
    rewrite E. reflexivity.
Qed.

Lemma strip_any_head (c : ascii) (t : string) :
  starts_blank c = false -> strip_any blanks (String c t) = None.
Proof.
  intros H. destruct (strip_any blanks (String c t)) as [u|] eqn:E; [|reflexivity].
  apply strip_any_some in E. destruct E as (b & Hb & Hs).
  pose proof (blanks_nonempty b Hb) as Hne.
  destruct b as [|a b]; [contradiction|]. simpl in Hs. injection Hs as <- _.
  assert (T : starts_blank c = true).
  { unfold starts_blank. apply existsb_exists. exists (String c b).
    split; [exact Hb | apply Ascii.eqb_refl]. }
  congruence.
Qed.

Lemma trimStart_head (c : ascii) (t : string) :
  starts_blank c = false -> trimStart (String c t) = String c t.
Proof.
  intros H. unfold trimStart. cbn [String.length skip_blanks].
  rewrite (strip_any_head c t H). reflexivity.
Qed.

Lemma trimEnd_cons (c : ascii) (t : string) :
  starts_blank c = false -> trimEnd (String c t) = String c (trimEnd t).
Proof.
  intros H. cbn [trimEnd]. unfold blank. rewrite (trimStart_head c t H).
  reflexivity.
Qed.

End WhiteSpace.

(** ** Rounding to binary64 *)

Section Binary64.
Local Open Scope Q_scope.

Lemma two_neq0 : ~ 2 == 0.
Proof. intros H. discriminate H. Qed.

Lemma pow2_pos (e : Z) : 0 < 2 ^ e.
Proof. apply Qpower_0_lt. reflexivity. Qed.

Lemma pow2_le (n m : Z) : (n <= m)%Z -> 2 ^ n <= 2 ^ m.
Proof. intros H. apply Qpower_le_compat_l; [exact H | discriminate]. Qed.

Lemma pow2_Z (n : Z) : (0 <= n)%Z -> inject_Z (2 ^ n) == 2 ^ n.
Proof. intros H. apply (Zpower_Qpower 2 n H). Qed.

Lemma Qred_inject_Z (z : Z) : Qred (inject_Z z) = inject_Z z.
Proof.
  unfold Qred, inject_Z.
  pose proof (Z.ggcd_gcd z 1) as Hg.
  pose proof (Z.ggcd_correct_divisors z 1) as Hd.
  change (Z.pos 1) with 1%Z.
  destruct (Z.ggcd z 1) as [g [aa bb]]. simpl in *.
  rewrite Z.gcd_1_r in Hg. subst g. destruct Hd as [Ha Hb].
  destruct aa, bb; simpl in *; try discriminate; subst; try reflexivity;
    injection Hb as ->; reflexivity.
Qed.

Lemma Qred_idem (q : Q) : Qred (Qred q) = Qred q.
Proof. apply Qred_complete, Qred_correct. Qed.

Lemma round64_comp (p q : Q) : p == q -> round64 p = round64 q.
Proof. intros H. unfold round64. rewrite (Qred_complete p q H). reflexivity. Qed.

Lemma rne_comp (x y : Q) : x == y -> rne x = rne y.
Proof.
  intros H. unfold rne. rewrite (Qfloor_comp x y H).
  assert (E : x - inject_Z (Qfloor y) == y - inject_Z (Qfloor y))
    by (rewrite H; reflexivity).
  rewrite (Qcompare_comp _ _ E _ _ (Qeq_refl _)). reflexivity.
Qed.

Lemma rne_Z (n : Z) : rne (inject_Z n) = n.
Proof.
  unfold rne. rewrite Qfloor_Z.
  assert (E : inject_Z n - inject_Z n == 0) by ring.
  rewrite (Qcompare_comp _ _ E _ _ (Qeq_refl _)). reflexivity.
Qed.

Lemma rne_floor (x : Q) : (Qfloor x <= rne x <= Qfloor x + 1)%Z.
Proof.
  unfold rne. destruct (_ ?= _); [destruct (Z.even _)| |]; lia.
Qed.

Lemma rne_lower (x : Q) (n : Z) : inject_Z n <= x -> (n <= rne x)%Z.
Proof.
  intros H. apply Qfloor_resp_le in H. rewrite Qfloor_Z in H.
  pose proof (rne_floor x). lia.
Qed.

Lemma rne_upper (x : Q) (n : Z) : x <= inject_Z n -> (rne x <= n)%Z.
Proof.
  intros H. pose proof (Qfloor_le x) as Hf.
  assert (Hfn : (Qfloor x <= n)%Z).
  { rewrite Zle_Qle. apply (Qle_trans _ x); assumption. }
  unfold rne. destruct (x - inject_Z (Qfloor x) ?= 1 # 2) eqn:C.
  - destruct (Z.even (Qfloor x)); [exact Hfn|].
    apply Qeq_alt in C.
    assert (L : inject_Z (Qfloor x) < inject_Z n).
    { apply (Qlt_le_trans _ x); [|exact H].
      assert (x == inject_Z (Qfloor x) + (1 # 2)) by (rewrite <- C; ring).
      rewrite H0 at 2. rewrite <- (Qplus_0_r (inject_Z (Qfloor x))) at 1.
      apply Qplus_lt_r. reflexivity. }
    rewrite <- Zlt_Qlt in L. lia.
  - exact Hfn.
  - apply Qgt_alt in C.
    assert (L : inject_Z (Qfloor x) < inject_Z n).
    { apply (Qlt_le_trans _ x); [|exact H].
      apply (Qplus_lt_l _ _ (- inject_Z (Qfloor x))).
      setoid_replace (inject_Z (Qfloor x) + - inject_Z (Qfloor x)) with 0 by ring.
      apply (Qlt_trans _ (1 # 2)); [reflexivity | exact C]. }
    rewrite <- Zlt_Qlt in L. lia.
Qed.

Lemma Qabs_zero (q : Q) : Qabs q == 0 -> q == 0.
Proof.
  intros H. assert (L : Qabs q <= 0) by (rewrite H; apply Qle_refl).
  apply Qabs_Qle_condition in L. destruct L as [L1 L2].
  apply Qle_antisym; assumption.
Qed.

Lemma signed_abs (q v : Q) :
  v == Qabs q -> (if Qle_bool 0 q then v else - v) == q.
Proof.
  intros H. destruct (Qle_bool 0 q) eqn:E.
  - apply Qle_bool_iff in E. rewrite H. apply Qabs_pos, E.
  - assert (L : q <= 0).
    { destruct (Qlt_le_dec 0 q) as [L|L]; [|exact L].
      apply Qlt_le_weak, Qle_bool_iff in L. congruence. }
    rewrite H, (Qabs_neg q L). ring.
Qed.

Lemma round64_exact (q : Q) : is_double q = true -> round64 q = Fin (Qred q).
Proof.
  unfold is_double, round64.
  set (q' := Qred q). set (a := Qabs q').
  destruct (Qeq_bool a 0) eqn:E0; cbn [orb].
  - intros _. apply Qeq_bool_iff, Qabs_zero in E0.
    f_equal. unfold q' in *. rewrite <- (Qred_idem q).
    symmetry. apply (Qred_complete _ 0 E0).
  - intros H. apply andb_true_iff in H. destruct H as [H1 H2].
    apply negb_true_iff in H2. apply Pos.eqb_eq in H1.
    set (k := quantum a) in *.
    assert (Ex : a / 2 ^ k == inject_Z (Qnum (Qred (a / 2 ^ k)))).
    { rewrite <- (Qred_correct (a / 2 ^ k)) at 1.
      destruct (Qred (a / 2 ^ k)) as [n d]. simpl in *. subst d. reflexivity. }
    rewrite (rne_comp _ _ Ex), rne_Z.
    assert (Ev : inject_Z (Qnum (Qred (a / 2 ^ k))) * 2 ^ k == a).
    { rewrite <- Ex. field. apply Qpower_not_0, two_neq0. }
    rewrite (Qleb_comp _ _ (Qeq_refl _) _ _ Ev), H2.
    f_equal. transitivity (Qred q'); [|apply Qred_idem].
    apply Qred_complete, signed_abs. exact Ev.
Qed.



Lemma inject_Z_pos (d : positive) : 0 < inject_Z (Zpos d).
Proof. change 0 with (inject_Z 0). rewrite <- Zlt_Qlt. reflexivity. Qed.

Lemma binade_spec (q : Q) :
  0 < q -> 2 ^ binade q <= q /\ q < 2 ^ (binade q + 1).
Proof.
  intros Hq. destruct q as [n d]. unfold binade. cbn [Qnum Qden].
  assert (Hn : (0 < n)%Z) by (unfold Qlt in Hq; simpl in Hq; lia).
  destruct (Z.log2_spec n Hn) as [Hn1 Hn2].
  destruct (Z.log2_spec (Zpos d) (Pos2Z.is_pos d)) as [Hd1 Hd2].
  pose proof (Z.log2_nonneg n) as Hna.
  pose proof (Z.log2_nonneg (Zpos d)) as Hnb.
  set (a := Z.log2 n) in *. set (b := Z.log2 (Zpos d)) in *.
  pose proof (inject_Z_pos d) as Dp.
  assert (U : n # d < 2 ^ (a - b + 1)).
  { rewrite (Qmake_Qdiv n d). apply Qlt_shift_div_r; [exact Dp|].
    apply (Qlt_le_trans _ (inject_Z (2 ^ Z.succ a))).
    - rewrite <- Zlt_Qlt. exact Hn2.
    - rewrite pow2_Z by lia.
      replace (Z.succ a) with ((a - b + 1) + b)%Z by lia.
      rewrite Qpower_plus by exact two_neq0.
      apply Qmult_le_l; [apply pow2_pos|].
      rewrite <- pow2_Z by lia. rewrite <- Zle_Qle. exact Hd1. }
  assert (L : 2 ^ (a - b - 1) < n # d).
  { rewrite (Qmake_Qdiv n d). apply Qlt_shift_div_l; [exact Dp|].
    apply (Qlt_le_trans _ (inject_Z (2 ^ a))).
    - rewrite pow2_Z by lia.
      replace a with ((a - b - 1) + Z.succ b)%Z at 2 by lia.
      rewrite Qpower_plus by exact two_neq0.
      apply Qmult_lt_l; [apply pow2_pos|].
      rewrite <- pow2_Z by lia. rewrite <- Zlt_Qlt. exact Hd2.
    - rewrite <- Zle_Qle. exact Hn1. }
  destruct (Qle_bool (2 ^ (a - b)) (n # d)) eqn:E.
  - apply Qle_bool_iff in E. split; assumption.
  - split.
    + apply Qlt_le_weak. exact L.
    + replace (a - b - 1 + 1)%Z with (a - b)%Z by lia.
      destruct (Qlt_le_dec (n # d) (2 ^ (a - b))) as [H|H]; [exact H|].
      apply Qle_bool_iff in H. congruence.
Qed.

Lemma binade_unique (q : Q) (e : Z) :
  0 < q -> 2 ^ e <= q -> q < 2 ^ (e + 1) -> binade q = e.
Proof.
  intros Hq H1 H2. destruct (binade_spec q Hq) as [B1 B2].
  assert (L1 : (e < binade q + 1)%Z).
  { apply (Qpower_lt_compat_l_inv 2); [|reflexivity].
    apply (Qle_lt_trans _ q); assumption. }
  assert (L2 : (binade q < e + 1)%Z).
  { apply (Qpower_lt_compat_l_inv 2); [|reflexivity].
    apply (Qle_lt_trans _ q); assumption. }
  lia.
Qed.

Lemma binade_comp (p q : Q) : 0 < p -> p == q -> binade p = binade q.
Proof.
  intros Hp H. destruct (binade_spec p Hp) as [B1 B2].
  symmetry. apply binade_unique; rewrite <- H; assumption.
Qed.

Lemma binade_mono (x y : Q) : 0 < x -> x <= y -> (binade x <= binade y)%Z.
Proof.
  intros Hx H. assert (Hy : 0 < y) by (apply (Qlt_le_trans _ x); assumption).
  destruct (binade_spec x Hx) as [X1 X2]. destruct (binade_spec y Hy) as [Y1 Y2].
  assert (L : (binade x < binade y + 1)%Z).
  { apply (Qpower_lt_compat_l_inv 2); [|reflexivity].
    apply (Qle_lt_trans _ x); [exact X1|].
    apply (Qle_lt_trans _ y); assumption. }
  lia.
Qed.

Lemma scale_pow2 (b : Q) (k kb : Z) (n : Z) :
  (k <= kb)%Z -> b / 2 ^ kb == inject_Z n ->
  b / 2 ^ k == inject_Z (n * 2 ^ (kb - k)).
Proof.
  intros Hk H. rewrite inject_Z_mult, pow2_Z by lia. rewrite <- H.
  rewrite Qpower_minus by exact two_neq0.
  field. split; apply Qpower_not_0, two_neq0.
Qed.

Lemma nearest_upper (a b : Q) :
  0 < a -> a <= b -> on_grid b -> nearest a <= b.
Proof.
  intros Ha Hab [n Hn]. unfold nearest.
  assert (Hk : (quantum a <= quantum b)%Z).
  { unfold quantum. pose proof (binade_mono a b Ha Hab). lia. }
  set (k := quantum a) in *.
  pose proof (scale_pow2 b k _ n Hk Hn) as Hb.
  assert (L : (rne (a / 2 ^ k) <= n * 2 ^ (quantum b - k))%Z).
  { apply rne_upper. rewrite <- Hb.
    apply Qmult_le_r; [apply Qinv_lt_0_compat, pow2_pos | exact Hab]. }
  rewrite Zle_Qle in L.
  apply (Qle_trans _ (inject_Z (n * 2 ^ (quantum b - k)) * 2 ^ k)).
  - apply Qmult_le_r; [apply pow2_pos | exact L].
  - rewrite <- Hb. apply Qle_lteq. right. field. apply Qpower_not_0, two_neq0.
Qed.

Lemma nearest_lower (c a : Q) :
  0 < c -> c <= a -> on_grid c -> c <= nearest a.
Proof.
  intros Hc Hca [n Hn]. unfold nearest.
  assert (Ha : 0 < a) by (apply (Qlt_le_trans _ c); assumption).
  pose proof (binade_mono c a Hc Hca) as Hb.
  set (k := quantum a) in *.
  destruct (Z.eq_dec (quantum c) k) as [E|N].
  - rewrite E in Hn.
    assert (L : (n <= rne (a / 2 ^ k))%Z).
    { apply rne_lower. rewrite <- Hn.
      apply Qmult_le_r; [apply Qinv_lt_0_compat, pow2_pos | exact Hca]. }
    rewrite Zle_Qle in L.
    apply (Qle_trans _ (inject_Z n * 2 ^ k)).
    + rewrite <- Hn. apply Qle_lteq. right. field. apply Qpower_not_0, two_neq0.
    + apply Qmult_le_r; [apply pow2_pos | exact L].
  - assert (Hk : k = (binade a - 52)%Z /\ (binade c < binade a)%Z).
    { unfold k, quantum in *. lia. }
    destruct Hk as [Hk Hlt].
    destruct (binade_spec a Ha) as [A1 _]. destruct (binade_spec c Hc) as [_ C2].
    assert (L : (2 ^ 52 <= rne (a / 2 ^ k))%Z).
    { apply rne_lower. rewrite pow2_Z by lia.
      apply Qle_shift_div_l; [apply pow2_pos|].
      rewrite <- Qpower_plus by exact two_neq0.
      replace (52 + k)%Z with (binade a) by lia. exact A1. }
    rewrite Zle_Qle in L.
    apply (Qle_trans _ (2 ^ binade a)).
    + apply Qlt_le_weak. apply (Qlt_le_trans _ _ _ C2). apply pow2_le. lia.
    + replace (binade a) with (52 + k)%Z at 1 by lia.
      rewrite Qpower_plus by exact two_neq0. rewrite <- pow2_Z by lia.
      apply Qmult_le_r; [apply pow2_pos | exact L].
Qed.

Lemma nearest_nonneg (a : Q) : 0 < a -> 0 <= nearest a.
Proof.
  intros Ha. unfold nearest. apply Qmult_le_0_compat.
  - change 0 with (inject_Z 0). rewrite <- Zle_Qle. apply rne_lower.
    apply Qle_shift_div_l; [apply pow2_pos|].
    setoid_replace (inject_Z 0 * 2 ^ quantum a) with 0 by ring.
    apply Qlt_le_weak, Ha.
  - apply Qlt_le_weak, pow2_pos.
Qed.

Lemma abs_red (q : Q) : 0 < q -> Qabs (Qred q) == q.
Proof.
  intros H. rewrite Qabs_pos; [apply Qred_correct|].
  rewrite Qred_correct. apply Qlt_le_weak, H.
Qed.

Lemma double_grid (b : Q) :
  0 < b -> is_double b = true ->
  on_grid (Qabs (Qred b)) /\ Qabs (Qred b) < 2 ^ 1024.
Proof.
  intros Hb. unfold is_double. pose proof (abs_red b Hb) as E.
  set (a := Qabs (Qred b)) in *.
  destruct (Qeq_bool a 0) eqn:E0.
  { apply Qeq_bool_iff in E0. rewrite E0 in E. rewrite <- E in Hb.
    discriminate Hb. }
  cbn [orb]. intros H. apply andb_true_iff in H. destruct H as [H1 H2].
  apply negb_true_iff in H2. apply Pos.eqb_eq in H1. split.
  - exists (Qnum (Qred (a / 2 ^ quantum a))).
    rewrite <- (Qred_correct (a / 2 ^ quantum a)) at 1.
    destruct (Qred (a / 2 ^ quantum a)) as [n d]. simpl in *. subst d.
    reflexivity.
  - destruct (Qlt_le_dec a (2 ^ 1024)) as [L|L]; [exact L|].
    apply Qle_bool_iff in L. congruence.
Qed.

Lemma round64_pos (q : Q) :
  0 < q -> nearest (Qabs (Qred q)) < 2 ^ 1024 ->
  round64 q = Fin (Qred (nearest (Qabs (Qred q)))).
Proof.
  intros Hq Hv. pose proof (abs_red q Hq) as E. unfold round64.
  fold (nearest (Qabs (Qred q))).
  set (a := Qabs (Qred q)) in *.
  destruct (Qeq_bool a 0) eqn:E0.
  { apply Qeq_bool_iff in E0. rewrite E0 in E. rewrite <- E in Hq.
    discriminate Hq. }
  destruct (Qle_bool (2 ^ 1024) (nearest a)) eqn:Eo.
  { apply Qle_bool_iff in Eo. exfalso.
    apply (Qlt_irrefl (nearest a)), (Qlt_le_trans _ _ _ Hv Eo). }
  assert (Ep : Qle_bool 0 (Qred q) = true).
  { apply Qle_bool_iff. rewrite Qred_correct. apply Qlt_le_weak, Hq. }
  rewrite Ep. reflexivity.
Qed.

(** Rounding keeps a number between two doubles that enclose it. *)
Lemma round64_between (a x b : Q) :
  is_double a = true -> is_double b = true ->
  0 < a -> a <= x -> x <= b ->
  exists y, round64 x = Fin y /\ a <= y /\ y <= b.
Proof.
  intros Da Db Ha Hax Hxb.
  assert (Hx : 0 < x) by (apply (Qlt_le_trans _ a); assumption).
  assert (Hb : 0 < b) by (apply (Qlt_le_trans _ x); assumption).
  destruct (double_grid a Ha Da) as [Ga _].
  destruct (double_grid b Hb Db) as [Gb Lb].
  pose proof (abs_red a Ha) as Ea. pose proof (abs_red x Hx) as Ex.
  pose proof (abs_red b Hb) as Eb.
  set (a' := Qabs (Qred a)) in *. set (x' := Qabs (Qred x)) in *.
  set (b' := Qabs (Qred b)) in *.
  assert (Hx' : 0 < x') by (rewrite Ex; exact Hx).
  assert (Ha' : 0 < a') by (rewrite Ea; exact Ha).
  assert (U : nearest x' <= b').
  { apply nearest_upper; [exact Hx' | rewrite Ex, Eb; exact Hxb | exact Gb]. }
  assert (L : a' <= nearest x').
  { apply nearest_lower; [exact Ha' | rewrite Ea, Ex; exact Hax | exact Ga]. }
  exists (Qred (nearest x')). split; [|split].
  - apply round64_pos; [exact Hx|]. apply (Qle_lt_trans _ b'); assumption.
  - rewrite Qred_correct, <- Ea. exact L.
  - rewrite Qred_correct, <- Eb. exact U.
Qed.

Lemma round64_below (x b : Q) :
  is_double b = true -> 0 <= x -> x <= b ->
  exists y, round64 x = Fin y /\ 0 <= y /\ y <= b.
Proof.
  intros Db H0 Hxb. apply Qle_lteq in H0. destruct H0 as [Hx|Hx].
  - assert (Hb : 0 < b) by (apply (Qlt_le_trans _ x); assumption).
    destruct (double_grid b Hb Db) as [Gb Lb].
    pose proof (abs_red x Hx) as Ex. pose proof (abs_red b Hb) as Eb.
    set (x' := Qabs (Qred x)) in *. set (b' := Qabs (Qred b)) in *.
    assert (Hx' : 0 < x') by (rewrite Ex; exact Hx).
    assert (U : nearest x' <= b').
    { apply nearest_upper; [exact Hx' | rewrite Ex, Eb; exact Hxb | exact Gb]. }
    exists (Qred (nearest x')). split; [|split].
    + apply round64_pos; [exact Hx|]. apply (Qle_lt_trans _ b'); assumption.
    + rewrite Qred_correct. apply nearest_nonneg, Hx'.
    + rewrite Qred_correct, <- Eb. exact U.
  - exists 0. split; [|split].
    + rewrite <- (round64_comp 0 x Hx). reflexivity.
    + apply Qle_refl.
    + rewrite Hx. exact Hxb.
Qed.

End Binary64.

(** ** Strings *)

Lemma includes_spec (h n : string) :
  includes h n = true <-> Substring n h.
Proof.
  unfold Substring. induction h as [|c h IH]; cbn [includes].
  - rewrite orb_false_r, prefix_spec. split.
    + intros [q H]. exists EmptyString, q. exact H.
    + intros [p [q H]]. destruct p; simpl in H; [eauto | discriminate].
  - rewrite orb_true_iff, prefix_spec, IH. split.
    + intros [[q H] | [p [q H]]].
      * exists EmptyString, q. exact H.
      * exists (String c p), q. simpl. congruence.
    + intros [p [q H]]. destruct p as [|c' p]; simpl in H.
      * left. eauto.
      * right. exists p, q. congruence.
Qed.

Lemma includes_empty (h : string) : includes h EmptyString = true.
Proof. apply includes_spec. exists EmptyString, h. reflexivity. Qed.

Lemma includes_in_empty (n : string) :
  includes EmptyString n = true -> n = EmptyString.
Proof.
  intros H. apply includes_spec in H. destruct H as [p [q H]].
  destruct p; simpl in H; [|discriminate]. destruct n; [reflexivity | discriminate].
Qed.

Lemma existsb_through_map {A B} (f : A -> B) (g : B -> bool) (xs : list A) :
  existsb g (map f xs) = existsb (fun x => g (f x)) xs.
Proof.
  induction xs as [|x r IH]; simpl; [reflexivity | rewrite IH; reflexivity].
Qed.

(** ** The array methods on callbacks that do not throw *)

Section Methods.
Context {R : Runtime}.

Lemma get_field (v : value) (k : string) :
  is_object v = true -> get v k = Ok (field v k).
Proof. destruct v; simpl; intros H; try discriminate; reflexivity. Qed.

Lemma filter_pure (f : value -> M value) (g : value -> bool) (xs : list value) :
  (forall x, In x xs -> exists v, f x = Ok v /\ truthy v = g x) ->
  filter_ f xs = Ok (filter g xs).
Proof.
  induction xs as [|x r IH]; intros H; simpl; [reflexivity|].
  destruct (H x (or_introl eq_refl)) as [v [Hf Hv]].
  rewrite Hf. simpl. rewrite IH by (intros; apply H; right; assumption).
  simpl. rewrite Hv. destruct (g x); reflexivity.
Qed.

Lemma some_pure (f : value -> M value) (g : value -> bool) (xs : list value) :
  (forall x, In x xs -> exists v, f x = Ok v /\ truthy v = g x) ->
  some_ f xs = Ok (VBool (existsb g xs)).
Proof.
  induction xs as [|x r IH]; intros H; simpl; [reflexivity|].
  destruct (H x (or_introl eq_refl)) as [v [Hf Hv]].
  rewrite Hf. simpl. rewrite Hv. destruct (g x); simpl; [reflexivity|].
  apply IH. intros; apply H; right; assumption.
Qed.

Lemma find_pure (f : value -> M value) (g : value -> bool) (xs : list value) :
  (forall x, In x xs -> exists v, f x = Ok v /\ truthy v = g x) ->
  find_ f xs = Ok match find g xs with Some x => x | None => VUndef end.
Proof.
  induction xs as [|x r IH]; intros H; simpl; [reflexivity|].
  destruct (H x (or_introl eq_refl)) as [v [Hf Hv]].
  rewrite Hf. simpl. rewrite Hv. destruct (g x); simpl; [reflexivity|].
  apply IH. intros; apply H; right; assumption.
Qed.

End Methods.

(** ** Records *)

Lemma is_dish_inv (d : value) :
  is_dish d = true ->
  is_object d = true /\
  is_integer (field d "id") = true /\
  nonempty (field d "name") = true /\
  optional is_string (field d "category") = true /\
  is_finite (field d "price") = true /\
  optional (array_of is_string) (field d "ingredients") = true /\
  optional (array_of is_integer) (field d "restaurants") = true.
Proof.
  unfold is_dish. rewrite !andb_true_iff. tauto.
Qed.

Lemma is_restaurant_inv (r : value) :
  is_restaurant r = true ->
  is_object r = true /\
  is_integer (field r "id") = true /\
  is_string (field r "name") = true /\
  optional is_string (field r "address") = true /\
  optional is_string (field r "type") = true.
Proof.
  unfold is_restaurant. rewrite !andb_true_iff. tauto.
Qed.

Lemma nonempty_inv (v : value) :
  nonempty v = true -> exists s, v = VStr s /\ s <> EmptyString.
Proof.
  destruct v; simpl; try discriminate. intros H. exists s. split; [reflexivity|].
  intros ->. discriminate.
Qed.

Section Search.
Context {R : Runtime}.
Hypothesis lower_empty : toLowerCase EmptyString = EmptyString.

(** A guarded, optional text field, as [x.k && x.k.toLowerCase().includes(q)]. *)
Lemma guarded_text (x : value) (k q : string) :
  is_object x = true ->
  optional is_string (field x k) = true ->
  exists v,
    and_ (get x k)
         (c <- get x k ;; l <- call_toLowerCase c ;; call_includes l (VStr q))
    = Ok v /\
    (q <> EmptyString -> truthy v = existsb (holds q) (texts (field x k))).
Proof.
  intros Ho Hk. rewrite !get_field by assumption.
  destruct (field x k) as [| |b|n|s|xs|fs]; simpl in Hk; try discriminate;
    simpl; try (eexists; split; [reflexivity | reflexivity]).
  destruct (String.eqb_spec s EmptyString) as [->|Hs]; simpl.
  - eexists; split; [reflexivity|]. intros Hq. simpl.
    unfold holds. rewrite lower_empty, orb_false_r.
    destruct (includes EmptyString q) eqn:E; [|reflexivity].
    apply includes_in_empty in E. contradiction.
  - eexists; split; [reflexivity|]. intros _. simpl. unfold holds.
    rewrite orb_false_r. reflexivity.
Qed.

Lemma name_text (x : value) (q : string) :
  is_object x = true ->
  is_string (field x "name") = true ->
  (n <- get x "name" ;; l <- call_toLowerCase n ;; call_includes l (VStr q))
  = Ok (VBool (existsb (holds q) (texts (field x "name")))).
Proof.
  intros Ho Hn. rewrite get_field by assumption.
  destruct (field x "name"); simpl in Hn; try discriminate.
  simpl. unfold holds. rewrite orb_false_r. reflexivity.
Qed.

Lemma nonempty_string (v : value) : nonempty v = true -> is_string v = true.
Proof. destruct v; simpl; congruence. Qed.

(** The ingredients, as
    [x.ingredients && x.ingredients.some(ing => check(ing) && ...)]. *)
Lemma guarded_texts (x : value) (q : string) (f : value -> M value) :
  is_object x = true ->
  optional (array_of is_string) (field x "ingredients") = true ->
  (forall s, f (VStr s) = Ok (VBool (holds q s))) ->
  exists v,
    and_ (get x "ingredients")
         (i <- get x "ingredients" ;; call_some i f)
    = Ok v /\
    truthy v = existsb (holds q) (texts (field x "ingredients")).
Proof.
  intros Ho Hk Hf. rewrite !get_field by assumption.
  destruct (field x "ingredients") as [| |b|n|s|xs|fs]; simpl in Hk;
    try discriminate; simpl;
    try (eexists; split; [reflexivity | reflexivity]).
  unfold call_some. simpl.
  rewrite (some_pure f (fun ing => holds q (text ing))).
  - eexists; split; [reflexivity|]. simpl.
    rewrite existsb_through_map. reflexivity.
  - intros y Hy. rewrite forallb_forall in Hk. specialize (Hk y Hy).
    destruct y; simpl in Hk; try discriminate.
    rewrite Hf. eexists; split; reflexivity.
Qed.

Lemma or_truthy (a b : M value) (va vb : value) :
  a = Ok va -> b = Ok vb ->
  exists v, or_ a b = Ok v /\ truthy v = truthy va || truthy vb.
Proof.
  intros -> ->. unfold or_. simpl. destruct (truthy va) eqn:E.
  - eexists; split; [reflexivity|]. rewrite E. reflexivity.
  - eexists; split; [reflexivity|]. reflexivity.
Qed.

Lemma dish_matches_pure (q : string) (d : value) :
  is_dish d = true ->
  exists v, dish_matches q d = Ok v /\
            truthy v = existsb (holds q) (dish_fields d).
Proof.
  intros Hd. apply is_dish_inv in Hd.
  destruct Hd as (Ho & _ & Hn & Hc & _ & Hi & _).
  unfold dish_matches, dish_fields.
  destruct (guarded_texts d q
              (fun ing => l <- call_toLowerCase ing ;; call_includes l (VStr q))
              Ho Hi) as (vi & Ei & Ti); [reflexivity|].
  destruct (guarded_text d "category" q Ho Hc) as (vc & Ec & Tc).
  rewrite (name_text d q Ho (nonempty_string _ Hn)).
  edestruct or_truthy as (v1 & E1 & T1); [reflexivity | exact Ec |].
  rewrite E1.
  edestruct or_truthy as (v2 & E2 & T2); [reflexivity | exact Ei |].
  exists v2. split; [exact E2|].
  rewrite T2, T1, Ti, !existsb_app. simpl truthy.
  destruct (String.eqb_spec q EmptyString) as [->|Hq].
  - apply nonempty_inv in Hn. destruct Hn as (n & En & _). rewrite En. simpl.
    assert (Hh : holds EmptyString n = true) by apply includes_empty.
    rewrite !Hh. reflexivity.
  - rewrite Tc by assumption. rewrite orb_assoc. reflexivity.
Qed.

End Search.

(** ** Sorting *)

Section Insertion.
Context {A : Type} (le : A -> A -> bool).

Lemma insert_perm (x : A) (xs : list A) :
  Permutation (Sql.insert le x xs) (x :: xs).
Proof.
  induction xs as [|y r IH]; simpl; [reflexivity|].
  destruct (le x y); [reflexivity|].
  rewrite IH. apply perm_swap.
Qed.

Lemma order_by_perm (xs : list A) : Permutation (Sql.order_by le xs) xs.
Proof.
  induction xs as [|x r IH]; simpl; [reflexivity|].
  rewrite insert_perm. constructor. exact IH.
Qed.

Hypothesis le_total : forall a b, le a b = true \/ le b a = true.
Hypothesis le_trans : forall a b c, le a b = true -> le b c = true -> le a c = true.

Lemma insert_sorted (x : A) (xs : list A) :
  StronglySorted (fun a b => le a b = true) xs ->
  StronglySorted (fun a b => le a b = true) (Sql.insert le x xs).
Proof.
  induction 1 as [|y r Hs IH Hy]; simpl.
  - repeat constructor.
  - destruct (le x y) eqn:E.
    + constructor; [constructor; assumption|].
      constructor; [exact E|].
      rewrite Forall_forall in *. intros z Hz. eauto.
    + constructor; [exact IH|].
      assert (Hyx : le y x = true) by (destruct (le_total x y); congruence).
      rewrite Forall_forall in *. intros z Hz.
      apply (Permutation_in _ (insert_perm x r)) in Hz.
      destruct Hz as [<-|Hz]; auto.
Qed.

Lemma order_by_sorted (xs : list A) :
  StronglySorted (fun a b => le a b = true) (Sql.order_by le xs).
Proof.
  induction xs as [|x r IH]; simpl; [constructor | apply insert_sorted, IH].
Qed.

End Insertion.


Section SortByName.
Context {R : Runtime}.

Lemma by_name_pure (a b : value) :
  is_dish a = true -> is_dish b = true ->
  by_name a b = Ok (localeCompare (name_of a) (name_of b)).
Proof.
  intros Ha Hb. apply is_dish_inv in Ha, Hb.
  destruct Ha as (Hoa & _ & Hna & _), Hb as (Hob & _ & Hnb & _).
  unfold by_name, name_of. rewrite !get_field by assumption.
  apply nonempty_inv in Hna, Hnb.
  destruct Hna as (x & -> & _), Hnb as (y & -> & _). reflexivity.
Qed.

Lemma insert_pure (x : value) (xs : list value) :
  is_dish x = true -> Forall (fun d => is_dish d = true) xs ->
  insert_ by_name x xs = Ok (Sql.insert name_leb x xs).
Proof.
  intros Hx Hxs. induction Hxs as [|y r Hy Hr IH]; simpl; [reflexivity|].
  rewrite by_name_pure by assumption. simpl. unfold name_leb at 1.
  destruct (localeCompare (name_of x) (name_of y) <=? 0); [reflexivity|].
  rewrite IH. reflexivity.
Qed.

Lemma dishes_perm (xs ys : list value) :
  Permutation xs ys ->
  Forall (fun d => is_dish d = true) ys -> Forall (fun d => is_dish d = true) xs.
Proof.
  intros P H. rewrite Forall_forall in *. intros x Hx.
  apply H, (Permutation_in _ P Hx).
Qed.

Lemma isort_pure (xs : list value) :
  Forall (fun d => is_dish d = true) xs ->
  isort_ by_name xs = Ok (Sql.order_by name_leb xs).
Proof.
  induction 1 as [|x r Hx Hr IH]; simpl; [reflexivity|].
  rewrite IH. simpl. apply insert_pure; [exact Hx|].
  apply (dishes_perm _ r); [apply order_by_perm | exact Hr].
Qed.

Lemma dish_defined (d : value) : is_dish d = true -> is_undef d = false.
Proof. destruct d; simpl; intros H; try discriminate; reflexivity. Qed.

Lemma sort_pure (xs : list value) :
  Forall (fun d => is_dish d = true) xs ->
  sort_ by_name xs = Ok (Sql.order_by name_leb xs).
Proof.
  intros H. unfold sort_.
  assert (E : filter (fun v => negb (is_undef v)) xs = xs
              /\ filter is_undef xs = []).
  { induction H as [|x r Hx Hr [IH1 IH2]]; simpl; [split; reflexivity|].
    rewrite (dish_defined x Hx). simpl. rewrite IH1. split; [reflexivity | exact IH2]. }
  destruct E as [E1 E2].
  rewrite E1, E2, isort_pure by assumption. simpl.
  rewrite app_nil_r. reflexivity.
Qed.

End SortByName.

(** ** GET /api/dishes *)

Lemma filter_all {A} (xs : list A) : filter (fun _ => true) xs = xs.
Proof. induction xs as [|x r IH]; simpl; congruence. Qed.

Lemma filter_twice {A} (f g : A -> bool) (xs : list A) :
  filter g (filter f xs) = filter (fun x => f x && g x) xs.
Proof.
  induction xs as [|x r IH]; simpl; [reflexivity|].
  destruct (f x); simpl; [destruct (g x)|]; rewrite IH; reflexivity.
Qed.

Lemma Forall_filtered {A} (P : A -> Prop) (f : A -> bool) (xs : list A) :
  Forall P xs -> Forall P (filter f xs).
Proof.
  rewrite !Forall_forall. intros H x Hx. apply filter_In in Hx. apply H, Hx.
Qed.

Section Dishes.
Context {R : Runtime}.

Lemma filter_if_pure (p : param) (f : string -> value -> M value)
    (g : string -> value -> bool) (xs : list value) :
  (forall s x, supplied p = Some s -> In x xs ->
     exists v, f s x = Ok v /\ truthy v = g s x) ->
  filter_if p f xs =
  Ok (filter (fun x => match supplied p with Some s => g s x | None => true end) xs).
Proof.
  intros H. unfold filter_if. destruct (supplied p) as [s|].
  - apply filter_pure. intros x Hx. apply H; [reflexivity | exact Hx].
  - rewrite filter_all. reflexivity.
Qed.

Lemma price_number (d : value) :
  is_dish d = true -> field d "price" = VNum (Fin (price_of d)).
Proof.
  intros H. apply is_dish_inv in H. destruct H as (_ & _ & _ & _ & Hp & _).
  unfold price_of. destruct (field d "price") as [| | |[]| | |]; simpl in *;
    try discriminate; reflexivity.
Qed.

(** What the handler computes on a collection of dishes. *)
Lemma get_api_dishes_pure (st : store) (search category min_price max_price : param) :
  (supplied search <> None -> toLowerCase EmptyString = EmptyString) ->
  Forall (fun d => is_dish d = true) (dishesData st) ->
  get_api_dishes st search category min_price max_price =
  Reply 200 (VArr (Sql.order_by name_leb
    (filter (satisfies search category min_price max_price) (dishesData st)))).
Proof.
  intros Hl HD. unfold get_api_dishes.
  rewrite (filter_if_pure search _
             (fun s d => existsb (holds (toLowerCase s)) (dish_fields d))).
  2:{ intros s x Hs Hx. apply dish_matches_pure; [apply Hl; congruence|].
      rewrite Forall_forall in HD. auto. }
  cbn [bind].
  set (D1 := filter _ (dishesData st)).
  assert (H1 : Forall (fun d => is_dish d = true) D1) by (apply Forall_filtered, HD).
  rewrite (filter_if_pure category _
             (fun c d => existsb (String.eqb c) (texts (field d "category")))).
  2:{ intros s x _ Hx. rewrite Forall_forall in H1. specialize (H1 x Hx).
      apply is_dish_inv in H1. destruct H1 as (Ho & _ & _ & Hc & _).
      rewrite get_field by assumption. eexists; split; [reflexivity|].
      cbn [truthy].
      destruct (field x "category"); simpl in Hc |- *;
        try discriminate Hc; try reflexivity.
      rewrite orb_false_r. apply String.eqb_sym. }
  cbn [bind].
  set (D2 := filter _ D1).
  assert (H2 : Forall (fun d => is_dish d = true) D2) by (apply Forall_filtered, H1).
  rewrite (filter_if_pure min_price _
             (fun lo d => num_le (parseFloat lo) (Fin (price_of d)))).
  2:{ intros s x _ Hx. rewrite Forall_forall in H2. specialize (H2 x Hx).
      pose proof (price_number x H2) as Hp.
      apply is_dish_inv in H2. destruct H2 as (Ho & _).
      rewrite get_field by assumption. rewrite Hp.
      eexists; split; reflexivity. }
  cbn [bind].
  set (D3 := filter _ D2).
  assert (H3 : Forall (fun d => is_dish d = true) D3) by (apply Forall_filtered, H2).
  rewrite (filter_if_pure max_price _
             (fun hi d => num_le (Fin (price_of d)) (parseFloat hi))).
  2:{ intros s x _ Hx. rewrite Forall_forall in H3. specialize (H3 x Hx).
      pose proof (price_number x H3) as Hp.
      apply is_dish_inv in H3. destruct H3 as (Ho & _).
      rewrite get_field by assumption. rewrite Hp.
      eexists; split; reflexivity. }
  cbn [bind].
  set (D4 := filter _ D3).
  assert (H4 : Forall (fun d => is_dish d = true) D4) by (apply Forall_filtered, H3).
  rewrite sort_pure by exact H4. cbn [bind catch].
  subst D4 D3 D2 D1. rewrite !(filter_twice _ _ (dishesData st)). reflexivity.
Qed.

End Dishes.

(** ** The sample runtime is lawful *)




(** ** Numerals: the text of an identifier is read back as the identifier *)

Lemma digit_cases (d : Z) :
  0 <= d < 10 ->
  d = 0 \/ d = 1 \/ d = 2 \/ d = 3 \/ d = 4 \/
  d = 5 \/ d = 6 \/ d = 7 \/ d = 8 \/ d = 9.
Proof. lia. Qed.

Ltac each_digit d H :=
  apply digit_cases in H;
  repeat (destruct H as [H|H]; [subst d|]); [..|subst d].

Lemma digit_of_char (d : Z) : 0 <= d < 10 -> digit_of 10 (digit_char d) = Some d.
Proof. intros H. each_digit d H; reflexivity. Qed.

Lemma digit_not_blank (d : Z) :
  0 <= d < 10 -> starts_blank (digit_char d) = false.
Proof. intros H. each_digit d H; reflexivity. Qed.

Lemma digits_print (fuel : nat) :
  forall n acc a c, 0 <= n < 2 ^ Z.of_nat fuel ->
  exists k, digits 10 (print_digits fuel n acc) a c
            = digits 10 acc (a * 10 ^ Z.of_nat (S k) + n) (c + S k)%nat.
Proof.
  induction fuel as [|f IH]; intros n acc a c Hn.
  - change (2 ^ Z.of_nat 0) with 1 in Hn. assert (n = 0) by lia. subst n.
    exists O. simpl print_digits. cbn [digits].
    rewrite digit_of_char by (apply Z.mod_pos_bound; lia).
    f_equal; [|lia]. change (0 mod 10) with 0.
    change (10 ^ Z.of_nat 1) with 10. lia.
  - cbn [print_digits]. destruct (Z.ltb_spec n 10) as [Hlt|Hge].
    + exists O. cbn [digits].
      rewrite digit_of_char by (apply Z.mod_pos_bound; lia).
      f_equal; [|lia]. rewrite Z.mod_small by lia.
      change (10 ^ Z.of_nat 1) with 10. lia.
    + destruct (IH (n / 10) (String (digit_char (n mod 10)) acc) a c) as [k Hk].
      { split; [apply Z.div_pos; lia|].
        rewrite Nat2Z.inj_succ, Z.pow_succ_r in Hn by lia.
        apply Z.div_lt_upper_bound; lia. }
      exists (S k). rewrite Hk. cbn [digits].
      rewrite digit_of_char by (apply Z.mod_pos_bound; lia).
      f_equal; [|lia].
      rewrite (Z.div_mod n 10) at 3 by lia.
      replace (Z.of_nat (S (S k))) with (Z.of_nat (S k) + 1) by lia.
      rewrite Z.pow_add_r by lia. change (10 ^ 1) with 10. ring.
Qed.

Lemma digit_char_inv (c : ascii) (v : Z) :
  digit_of 10 c = Some v -> c = digit_char v /\ 0 <= v < 10.
Proof.
  unfold digit_of, digit_char.
  set (n := Z.of_nat (nat_of_ascii c)).
  assert (Hn : Z.to_nat n = nat_of_ascii c) by (subst n; apply Nat2Z.id).
  destruct ((48 <=? n) && (n <=? 57)) eqn:E1.
  - apply andb_true_iff in E1. destruct E1 as [H1 H2].
    apply Z.leb_le in H1, H2.
    destruct (Z.ltb_spec (n - 48) 10); [|discriminate].
    intros Hv. injection Hv as <-. split; [|lia].
    replace (48 + (n - 48)) with n by lia. rewrite Hn.
    symmetry. apply ascii_nat_embedding.
  - destruct ((97 <=? n) && (n <=? 122)) eqn:E2.
    + apply andb_true_iff in E2. destruct E2 as [H1 _]. apply Z.leb_le in H1.
      destruct (Z.ltb_spec (n - 87) 10); [lia | discriminate].
    + destruct ((65 <=? n) && (n <=? 90)) eqn:E3; [|discriminate].
      apply andb_true_iff in E3. destruct E3 as [H1 _]. apply Z.leb_le in H1.
      destruct (Z.ltb_spec (n - 55) 10); [lia | discriminate].
Qed.

Lemma print_all_digits (fuel : nat) :
  forall n acc, all_digits acc = true -> all_digits (print_digits fuel n acc) = true.
Proof.
  assert (D : forall n acc, all_digits acc = true ->
                all_digits (String (digit_char (n mod 10)) acc) = true).
  { intros n acc H. cbn [all_digits].
    rewrite digit_of_char by (apply Z.mod_pos_bound; lia). exact H. }
  induction fuel as [|f IH]; intros n acc H; cbn [print_digits].
  - apply D, H.
  - destruct (n <? 10); [apply D, H | apply IH, D, H].
Qed.

Lemma print_nonempty (fuel : nat) :
  forall n acc, print_digits fuel n acc <> EmptyString.
Proof.
  induction fuel as [|f IH]; intros n acc; cbn [print_digits].
  - discriminate.
  - destruct (n <? 10); [discriminate | apply IH].
Qed.

Lemma digits_trimStart (s : string) : all_digits s = true -> trimStart s = s.
Proof.
  destruct s as [|c t]; [reflexivity|]. cbn [all_digits].
  destruct (digit_of 10 c) as [v|] eqn:E; [|discriminate]. intros _.
  apply digit_char_inv in E. destruct E as [-> Hv].
  apply trimStart_head, digit_not_blank, Hv.
Qed.


Lemma digits_sign (s : string) : all_digits s = true -> sign s = (false, s).
Proof.
  destruct s as [|c t]; [reflexivity|]. cbn [all_digits].
  destruct (digit_of 10 c) as [v|] eqn:E; [|discriminate]. intros _.
  apply digit_char_inv in E. destruct E as [-> Hv].
  each_digit v Hv; reflexivity.
Qed.

Lemma digits_no_prefix (a b : ascii) (r s : string) :
  digit_of 10 a = None \/ digit_of 10 b = None ->
  all_digits s = true -> strip (String a (String b r)) s = None.
Proof.
  intros Hab Hs. unfold strip.
  assert (E : String.prefix (String a (String b r)) s = false).
  { destruct s as [|c [|c' t]]; cbn [String.prefix]; try reflexivity.
    - destruct (ascii_dec a c); reflexivity.
    - cbn [all_digits] in Hs.
      destruct (digit_of 10 c) eqn:Ec; [|discriminate].
      destruct (digit_of 10 c') eqn:Ec'; [|discriminate].
      destruct (ascii_dec a c) as [->|]; [|reflexivity].
      destruct (ascii_dec b c') as [->|]; [|reflexivity].
      destruct Hab; congruence. }
  rewrite E. reflexivity.
Qed.

Lemma parseInt_digits (s : string) (k : nat) (n : Z) :
  all_digits s = true -> digits 10 s 0 0 = (S k, n, EmptyString) ->
  parseInt s = round64 (inject_Z n).
Proof.
  intros Hs Hd. unfold parseInt.
  rewrite (digits_trimStart s Hs), (digits_sign s Hs).
  rewrite !digits_no_prefix by (auto; right; reflexivity).
  rewrite Hd. reflexivity.
Qed.

Lemma size_bound (p : positive) : Zpos p < 2 ^ Z.of_nat (Pos.size_nat p).
Proof.
  induction p as [p IH|p IH|]; cbn [Pos.size_nat];
    rewrite ?Nat2Z.inj_succ, ?Z.pow_succ_r by lia; lia.
Qed.

Lemma digits_of_print (p : positive) :
  exists k, digits 10 (print_digits (Pos.size_nat p) (Zpos p) EmptyString) 0 0
            = (S k, Zpos p, EmptyString).
Proof.
  destruct (digits_print (Pos.size_nat p) (Zpos p) EmptyString 0 0) as [k Hk].
  { split; [lia | apply size_bound]. }
  exists k. rewrite Hk. reflexivity.
Qed.

Lemma print_digits_shape (p : positive) :
  all_digits (print_digits (Pos.size_nat p) (Zpos p) EmptyString) = true.
Proof. apply print_all_digits. reflexivity. Qed.

Lemma minus_not_blank (s : string) : trimStart (String "-" s) = String "-" s.
Proof. apply trimStart_head. reflexivity. Qed.

(** The decimal numeral of [z] is read as the value of binary64 nearest to
    [z], by [parseInt] and by ToNumber alike. *)
Lemma parseInt_decimal_rounds (z : Z) :
  parseInt (decimal z) = round64 (inject_Z z).
Proof.
  destruct z as [|p|p]; [reflexivity | |].
  - destruct (digits_of_print p) as [k Hk].
    apply (parseInt_digits _ k), Hk. apply print_digits_shape.
  - destruct (digits_of_print p) as [k Hk].
    pose proof (print_digits_shape p) as Hs.
    unfold parseInt, decimal.
    set (s := print_digits (Pos.size_nat p) (Zpos p) EmptyString) in *.
    rewrite minus_not_blank.
    cbn [sign]. rewrite !digits_no_prefix by (auto; right; reflexivity).
    rewrite Hk. reflexivity.
Qed.

Lemma round64_integer (z : Z) :
  is_double (inject_Z z) = true -> round64 (inject_Z z) = Fin (inject_Z z).
Proof. intros H. rewrite (round64_exact _ H), Qred_inject_Z. reflexivity. Qed.

Lemma parseInt_decimal (z : Z) :
  is_double (inject_Z z) = true -> parseInt (decimal z) = Fin (inject_Z z).
Proof. intros H. rewrite parseInt_decimal_rounds. apply round64_integer, H. Qed.











(** ** C1: the dish filter *)





(** ** C4: the search predicate of the dish filter *)

Lemma dish_fields_split (d : value) (f : string) :
  is_dish d = true ->
  In f (dish_fields d) <->
  f = name_of d \/ In f (category_of d) \/ In f (ingredients_of d).
Proof.
  intros H. apply is_dish_inv in H. destruct H as (_ & _ & Hn & _).
  apply nonempty_inv in Hn. destruct Hn as (n & En & _).
  unfold dish_fields, name_of, category_of, ingredients_of.
  rewrite !in_app_iff, En. simpl. intuition congruence.
Qed.

Lemma existsb_holds {R : Runtime} (q : string) (fs : list string) :
  existsb (holds q) fs = true <->
  exists f, In f fs /\ Substring q (toLowerCase f).
Proof.
  rewrite existsb_exists. unfold holds.
  split; intros [f [Hf H]]; exists f; (split; [exact Hf|]);
    apply includes_spec; exact H.
Qed.

Lemma or3_selected (a b : option bool) :
  Sql.selected (Sql.or3 a b) = true <->
  Sql.selected a = true \/ Sql.selected b = true.
Proof.
  destruct a as [[]|], b as [[]|]; simpl; intuition congruence.
Qed.

Lemma like_selected (column : option string) (pattern : string) :
  Sql.selected (Sql.like column pattern) = true <->
  exists t, column = Some t /\
            Sql.like_match (Sql.fold pattern) (Sql.fold t) = true.
Proof.
  destruct column as [t|]; simpl.
  - destruct (Sql.like_match (Sql.fold pattern) (Sql.fold t)) eqn:L; split.
    + intros _. exists t. split; [reflexivity | exact L].
    + reflexivity.
    + discriminate.
    + intros [t' [E H]]. injection E as <-. congruence.
  - split; [discriminate | intros [t [E _]]; discriminate].
Qed.

Lemma and3_true (a : option bool) : Sql.and3 (Some true) a = a.
Proof. destruct a as [[]|]; reflexivity. Qed.

Lemma supplied_nonempty (s : string) :
  s <> EmptyString -> Sql.supplied (Some s) = Some s.
Proof.
  intros H. simpl. destruct (String.eqb_spec s EmptyString); congruence.
Qed.

(** C4, as amended.  In the snapshot server the search predicate of the dish
    filter holds of a dish exactly when the lower-cased search text occurs in
    the lower-cased name, category or one of the ingredients.  The MySQL
    servers select a row exactly when the pattern [%s%] matches its name, its
    description or its ingredients; they do not look at the category. *)
Theorem search_predicate_by_server :
  (forall (R : Runtime) (s : string) (d : value),
     toLowerCase EmptyString = EmptyString ->
     is_dish d = true ->
     exists v,
       dish_matches (toLowerCase s) d = Ok v /\
       (truthy v = true <->
        Substring (toLowerCase s) (toLowerCase (name_of d)) \/
        (exists c, In c (category_of d) /\
                   Substring (toLowerCase s) (toLowerCase c)) \/
        (exists i, In i (ingredients_of d) /\
                   Substring (toLowerCase s) (toLowerCase i)))) /\
  (forall (s : string) (x : Sql.dish),
     s <> EmptyString ->
     Sql.selected (Sql.dishes_where (Some s) None None None x) = true <->
     exists t,
       In (Some t) [Sql.d_name x; Sql.d_description x; Sql.d_ingredients x] /\
       Sql.like_match (Sql.fold ("%" ++ s ++ "%")) (Sql.fold t) = true).
Proof.
  split.
  - intros R s d Hl Hd.
    destruct (dish_matches_pure Hl (toLowerCase s) d Hd) as (v & E & T).
    exists v. split; [exact E|]. rewrite T, existsb_holds. split.
    + intros (f & Hf & H). apply (dish_fields_split d f Hd) in Hf.
      destruct Hf as [-> | [Hf | Hf]]; eauto.
    + intros [H | [(c & Hc & H) | (i & Hi & H)]].
      * exists (name_of d). split; [|exact H].
        apply (dish_fields_split d _ Hd). auto.
      * exists c. split; [|exact H]. apply (dish_fields_split d _ Hd). auto.
      * exists i. split; [|exact H]. apply (dish_fields_split d _ Hd). auto.
  - intros s x Hs. unfold Sql.dishes_where.
    rewrite (supplied_nonempty s Hs). cbn [Sql.supplied].
    rewrite and3_true, !or3_selected, !like_selected. simpl In. split.
    + intros [[(t & E & H) | (t & E & H)] | (t & E & H)]; exists t; auto.
    + intros (t & [E | [E | [E | []]]] & H); eauto.
Qed.

Lemma search_predicate_by_server_witness :
  (exists v,
     dish_matches (R := sample_runtime) (Sql.fold "LAMB") Examples.plov = Ok v /\
     (truthy v = true <->
      Substring (Sql.fold "LAMB") (Sql.fold (name_of Examples.plov)) \/
      (exists c, In c (category_of Examples.plov) /\
                 Substring (Sql.fold "LAMB") (Sql.fold c)) \/
      (exists i, In i (ingredients_of Examples.plov) /\
                 Substring (Sql.fold "LAMB") (Sql.fold i)))) /\
  (Sql.selected (Sql.dishes_where (Some "lamb") None None None Examples.pilaf_row)
     = true <->
   exists t,
     In (Some t) [Sql.d_name Examples.pilaf_row;
                  Sql.d_description Examples.pilaf_row;
                  Sql.d_ingredients Examples.pilaf_row] /\
     Sql.like_match (Sql.fold ("%" ++ "lamb" ++ "%")) (Sql.fold t) = true).
Proof.
  split.
  - apply (proj1 search_predicate_by_server sample_runtime "LAMB" Examples.plov);
      reflexivity.
  - apply (proj2 search_predicate_by_server "lamb" Examples.pilaf_row).
    discriminate.
Defined.

(** The claim C4 fails on the MySQL servers: the category of this row holds
    the search text, and the row is not selected. *)
Lemma search_predicate_mysql_counterexample :
  Sql.d_category Examples.pilaf_row = Some "Main" /\
  Substring (Sql.fold "main") (Sql.fold "Main") /\
  Sql.selected (Sql.dishes_where (Some "main") None None None Examples.pilaf_row)
    = false.
Proof.
  split; [reflexivity|]. split; [|reflexivity].
  exists EmptyString, EmptyString. reflexivity.
Qed.

(** ** C2: the unified search *)

Section UnifiedSearch.
Context {R : Runtime}.
Hypothesis lower_empty : forall s, toLowerCase s = EmptyString <-> s = EmptyString.

Lemma length_positive (s : string) :
  (0 <? String.length s)%nat = negb (s =? "")%string.
Proof. destruct s; reflexivity. Qed.

Lemma terms_spec (query : string) : terms query = search_terms query.
Proof.
  unfold terms, search_terms.
  induction (split "," query) as [|x r IH]; simpl; [reflexivity|].
  rewrite length_positive.
  destruct (String.eqb_spec (toLowerCase (trim x)) EmptyString) as [E|E];
    destruct (String.eqb_spec (trim x) EmptyString) as [E'|E']; simpl.
  - exact IH.
  - apply (proj1 (lower_empty _)) in E. contradiction.
  - apply (proj2 (lower_empty _)) in E'. contradiction.
  - rewrite IH. reflexivity.
Qed.

Lemma terms_nonempty (query t : string) : In t (terms query) -> t <> EmptyString.
Proof.
  unfold terms. intros H. apply filter_In in H. destruct H as [_ H].
  intros ->. discriminate.
Qed.

Lemma lower_empty_string : toLowerCase EmptyString = EmptyString.
Proof. apply lower_empty. reflexivity. Qed.

Lemma restaurant_found_pure (queries : list string) (r : value) :
  (forall t, In t queries -> t <> EmptyString) ->
  is_restaurant r = true ->
  exists v,
    restaurant_found queries r = Ok v /\
    truthy v = existsb (fun t => existsb (holds t) (restaurant_fields r)) queries.
Proof.
  intros Hq Hr. apply is_restaurant_inv in Hr.
  destruct Hr as (Ho & _ & Hn & Ha & Ht).
  unfold restaurant_found.
  rewrite (some_pure _ (fun q => existsb (holds (text q)) (restaurant_fields r))).
  - eexists. split; [reflexivity|]. simpl. apply existsb_through_map.
  - intros x Hx. apply in_map_iff in Hx. destruct Hx as (t & <- & Hin).
    specialize (Hq t Hin). simpl text.
    rewrite (name_text r t Ho Hn).
    destruct (guarded_text lower_empty_string r "address" t Ho Ha) as (va & Ea & Ta).
    destruct (guarded_text lower_empty_string r "type" t Ho Ht) as (vt & Et & Tt).
    edestruct or_truthy as (v1 & E1 & T1); [reflexivity | exact Ea |].
    rewrite E1.
    edestruct or_truthy as (v2 & E2 & T2); [reflexivity | exact Et |].
    exists v2. split; [exact E2|].
    rewrite T2, T1, Ta, Tt by assumption.
    unfold restaurant_fields. rewrite !existsb_app, orb_assoc. reflexivity.
Qed.

Lemma dish_found_pure (queries : list string) (d : value) :
  (forall t, In t queries -> t <> EmptyString) ->
  is_dish d = true ->
  exists v,
    dish_found queries d = Ok v /\
    truthy v = existsb (fun t => existsb (holds t) (dish_fields d)) queries.
Proof.
  intros Hq Hd. apply is_dish_inv in Hd.
  destruct Hd as (Ho & _ & Hn & Hc & _ & Hi & _).
  unfold dish_found.
  rewrite (some_pure _ (fun q => existsb (holds (text q)) (dish_fields d))).
  - destruct d as [| | | | | |fs]; simpl in Ho; try discriminate.
    rewrite get_field by reflexivity.
    pose proof Hn as Hn'. apply nonempty_inv in Hn'. destruct Hn' as (n & En & Hne).
    rewrite En. unfold and_. simpl.
    destruct (String.eqb_spec n EmptyString) as [->|_]; [contradiction|]. simpl.
    eexists. split; [reflexivity|]. simpl. apply existsb_through_map.
  - intros x Hx. apply in_map_iff in Hx. destruct Hx as (t & <- & Hin).
    specialize (Hq t Hin). simpl text.
    rewrite (name_text d t Ho (nonempty_string _ Hn)).
    destruct (guarded_text lower_empty_string d "category" t Ho Hc) as (vc & Ec & Tc).
    destruct (guarded_texts d t
                (fun ing => and_ (Ok (VBool (typeof ing =? "string")%string))
                                 (l <- call_toLowerCase ing ;;
                                  call_includes l (VStr t)))
                Ho Hi) as (vi & Ei & Ti); [reflexivity|].
    edestruct or_truthy as (v1 & E1 & T1); [reflexivity | exact Ec |].
    rewrite E1.
    edestruct or_truthy as (v2 & E2 & T2); [reflexivity | exact Ei |].
    exists v2. split; [exact E2|].
    rewrite T2, T1, Tc, Ti by assumption.
    unfold dish_fields. rewrite !existsb_app, orb_assoc. reflexivity.
Qed.

Lemma get_api_search_pure (st : store) (query : string) (type : param) :
  query <> EmptyString ->
  Forall (fun r => is_restaurant r = true) (restaurantsData st) ->
  Forall (fun d => is_dish d = true) (dishesData st) ->
  get_api_search st (Some query) type =
  let scope := match type with Some t => t | None => "all" end in
  Reply 200 (VObj (
    (if in_scope scope "restaurants"
     then [("restaurants",
            VArr (firstn 20 (filter
                    (fun r => matches_any query (restaurant_fields r))
                    (restaurantsData st))))]
     else []) ++
    (if in_scope scope "dishes"
     then [("dishes",
            VArr (firstn 20 (filter
                    (fun d => matches_any query (dish_fields d))
                    (dishesData st))))]
     else [])))%list.
Proof.
  intros Hq HR HD. unfold get_api_search, supplied. simpl truthy.
  destruct (String.eqb_spec query EmptyString) as [E|_]; [contradiction|].
  cbn [negb]. unfold in_scope, matches_any. rewrite <- terms_spec.
  rewrite (filter_pure (restaurant_found (terms query))
             (fun r => existsb (fun t => existsb (holds t) (restaurant_fields r))
                               (terms query))).
  2:{ intros x Hx. apply restaurant_found_pure; [apply terms_nonempty|].
      rewrite Forall_forall in HR. auto. }
  rewrite (filter_pure (dish_found (terms query))
             (fun d => existsb (fun t => existsb (holds t) (dish_fields d))
                               (terms query))).
  2:{ intros x Hx. apply dish_found_pure; [apply terms_nonempty|].
      rewrite Forall_forall in HD. auto. }
  cbv zeta.
  destruct ((_ =? "all")%string || (_ =? "restaurants")%string);
    destruct ((_ =? "all")%string || (_ =? "dishes")%string); reflexivity.
Qed.

End UnifiedSearch.

Lemma fold_empty (s : string) : Sql.fold s = EmptyString <-> s = EmptyString.
Proof. destruct s; simpl; split; intros H; try reflexivity; discriminate. Qed.

Lemma matches_any_spec {R : Runtime} (query : string) (fields : list string) :
  matches_any query fields = true <->
  exists t f, In t (search_terms query) /\ In f fields /\
              Substring t (toLowerCase f).
Proof.
  unfold matches_any. rewrite existsb_exists. split.
  - intros (t & Ht & H). apply existsb_holds in H. destruct H as (f & Hf & H).
    exists t, f. auto.
  - intros (t & f & Ht & Hf & H). exists t. split; [exact Ht|].
    apply existsb_holds. exists f. auto.
Qed.

(** C2, as amended.  In the snapshot server, for every non-empty query text
    and every scope, GET /api/search splits the text on commas, trims and
    lower-cases each term and drops the terms that are empty after trimming;
    it answers 200 with, for each collection in scope, the first 20 records in
    collection order of those in which any term occurs in any searchable
    field (name, address, type of a restaurant; name, category, ingredients of
    a dish).  Trimming takes the white space of the language (U+00A0, U+FEFF
    and the space characters with the ASCII ones, not U+200B) off both ends
    and nothing else: a term is empty after it exactly when it is a run of
    white space. *)
Theorem unifiedSearch_snapshot :
  (forall (R : Runtime) (st : store) (query : string) (type : param),
    (forall s, toLowerCase s = EmptyString <-> s = EmptyString) ->
    Forall (fun r => is_restaurant r = true) (restaurantsData st) ->
    Forall (fun d => is_dish d = true) (dishesData st) ->
    query <> EmptyString ->
    terms query = search_terms query /\
    get_api_search st (Some query) type =
      (let scope := match type with Some t => t | None => "all" end in
       Reply 200 (VObj (
         (if in_scope scope "restaurants"
          then [("restaurants",
                 VArr (firstn 20 (filter
                         (fun r => matches_any query (restaurant_fields r))
                         (restaurantsData st))))]
          else []) ++
         (if in_scope scope "dishes"
          then [("dishes",
                 VArr (firstn 20 (filter
                         (fun d => matches_any query (dish_fields d))
                         (dishesData st))))]
          else [])))%list) /\
    (forall fields,
       matches_any query fields = true <->
       exists t f, In t (search_terms query) /\ In f fields /\
                   Substring t (toLowerCase f))) /\
  (forall s : string, Trimmed s (trim s)) /\
  (forall s : string, trim s = EmptyString <-> Blank s) /\
  search_terms (R := sample_runtime)
    (utf8 160 ++ "Pizza" ++ utf8 8195 ++ ", ," ++ utf8 8203 ++ ",sushi"
       ++ utf8 65279)
    = ["pizza"; utf8 8203; "sushi"] /\
  get_api_search (R := sample_runtime) Examples.catalog
      (Some (utf8 160 ++ "pizza")) (Some "restaurants")
    = Reply 200 (VObj [("restaurants", VArr [Examples.pizza_hut])]) /\
  get_api_search (R := sample_runtime) Examples.catalog
      (Some (utf8 8203 ++ "pizza")) (Some "restaurants")
    = Reply 200 (VObj [("restaurants", VArr [])]).
Proof.
  split; [|split; [|split; [|split; [|split]]]].
  - intros R st query type Hl HR HD Hq. split; [|split].
    + apply terms_spec, Hl.
    + apply get_api_search_pure; assumption.
    + intros fields. apply matches_any_spec.
  - exact trim_spec.
  - exact trim_empty.
  - vm_compute. reflexivity.
  - vm_compute. reflexivity.
  - vm_compute. reflexivity.
Qed.

Lemma unifiedSearch_snapshot_witness :
  terms (R := sample_runtime) "Pizza, sushi"
    = search_terms (R := sample_runtime) "Pizza, sushi" /\
  get_api_search (R := sample_runtime) Examples.catalog
      (Some "Pizza, sushi") (Some "restaurants") =
    (let scope := "restaurants" in
     Reply 200 (VObj (
       (if in_scope scope "restaurants"
        then [("restaurants",
               VArr (firstn 20 (filter
                       (fun r => matches_any (R := sample_runtime)
                                   "Pizza, sushi" (restaurant_fields r))
                       (restaurantsData Examples.catalog))))]
        else []) ++
       (if in_scope scope "dishes"
        then [("dishes",
               VArr (firstn 20 (filter
                       (fun d => matches_any (R := sample_runtime)
                                   "Pizza, sushi" (dish_fields d))
                       (dishesData Examples.catalog))))]
        else [])))%list) /\
  (forall fields,
     matches_any (R := sample_runtime) "Pizza, sushi" fields = true <->
     exists t f, In t (search_terms (R := sample_runtime) "Pizza, sushi") /\
                 In f fields /\ Substring t (Sql.fold f)).
Proof.
  apply (proj1 unifiedSearch_snapshot sample_runtime Examples.catalog
           "Pizza, sushi" (Some "restaurants")).
  - exact fold_empty.
  - repeat constructor.
  - repeat constructor.
  - discriminate.
Defined.

(** The claim C2 fails on the MySQL servers: the term [pizza] of the query
    occurs in the name of the first restaurant, and the search, which takes
    the whole text as one pattern, finds no restaurant. *)
Lemma unifiedSearch_mysql_counterexample :
  In "pizza" (search_terms (R := sample_runtime) "pizza,sushi") /\
  Sql.r_name Examples.pizza_hut_row = Some "Pizza Hut" /\
  Substring "pizza" (Sql.fold "Pizza Hut") /\
  Sql.get_api_search (Some Examples.catalog_db) Sql.Basic
      (Some "pizza,sushi") (Some "restaurants")
    = Sql.Reply 200 (Sql.Results (Some []) None) /\
  Sql.get_api_search (Some Examples.catalog_db) Sql.Improved
      (Some "pizza,sushi") (Some "restaurants")
    = Sql.Reply 200 (Sql.Results (Some []) None).
Proof.
  split; [left; reflexivity|]. split; [reflexivity|].
  split; [exists EmptyString, " hut"; reflexivity|].
  split; reflexivity.
Qed.

(** ** C3: the restaurant list *)

Lemma rating_desc_total (a b : Sql.restaurant) :
  Sql.rating_desc a b = true \/ Sql.rating_desc b a = true.
Proof.
  unfold Sql.rating_desc, Sql.le_option.
  destruct (Sql.r_rating a) as [x|], (Sql.r_rating b) as [y|]; auto.
  rewrite !Qle_bool_iff. destruct (Qlt_le_dec x y) as [H|H]; [|auto].
  right. apply Qlt_le_weak, H.
Qed.

Lemma rating_desc_trans (a b c : Sql.restaurant) :
  Sql.rating_desc a b = true -> Sql.rating_desc b c = true ->
  Sql.rating_desc a c = true.
Proof.
  unfold Sql.rating_desc, Sql.le_option.
  destruct (Sql.r_rating a) as [x|], (Sql.r_rating b) as [y|],
           (Sql.r_rating c) as [z|]; auto; try discriminate.
  rewrite !Qle_bool_iff. intros H1 H2. apply (Qle_trans _ y); assumption.
Qed.

(** C3.  The MySQL servers list the restaurants by rating, highest first; the
    snapshot server sends its array as loaded, and on two restaurants rated 3
    and 5, in this order in the file, it answers in this order. *)
Theorem listRestaurants_order_by_server :
  (forall d : Sql.db,
     exists rows,
       Sql.get_api_restaurants (Some d) = Sql.Reply 200 (Sql.Restaurants rows) /\
       Permutation rows (Sql.restaurants d) /\
       StronglySorted (fun a b => Sql.rating_desc a b = true) rows) /\
  (forall st : store,
     get_api_restaurants st = Reply 200 (VArr (restaurantsData st))) /\
  get_api_restaurants Examples.catalog
    = Reply 200 (VArr [Examples.pizza_hut; Examples.sushi_bar]) /\
  field Examples.pizza_hut "rating" = VNum (Fin 3) /\
  field Examples.sushi_bar "rating" = VNum (Fin 5) /\
  Sql.get_api_restaurants (Some Examples.catalog_db)
    = Sql.Reply 200 (Sql.Restaurants [Examples.sushi_bar_row; Examples.pizza_hut_row]).
Proof.
  split; [|repeat split].
  intros d. eexists. split; [reflexivity|]. split.
  - apply order_by_perm.
  - apply order_by_sorted; [exact rating_desc_total | exact rating_desc_trans].
Qed.

(** ** C6 and C10: the guard and the scope of the unified search *)

Lemma catch_bind_status {A} (c : M A) (k : A -> M response) :
  (forall a, status (catch (k a)) <> 400%nat) ->
  status (catch (x <- c ;; k x)) <> 400%nat.
Proof.
  intros H. destruct c as [a|e]; simpl; [apply H | discriminate].
Qed.

Lemma sql_query_status {A} (pool : option Sql.db) (f : Sql.db -> A)
    (k : A -> Sql.response) :
  (forall a, Sql.status (k a) <> 400%nat) ->
  Sql.status (Sql.query pool f k) <> 400%nat.
Proof.
  intros H. unfold Sql.query. destruct pool; [apply H | discriminate].
Qed.

(** C6.  GET /api/search answers 400 exactly when the query text is absent or
    the empty string, in the snapshot server and in both MySQL servers; the
    reply then is the error "query required". *)
Theorem unifiedSearch_invalid_request :
  forall (R : Runtime) (st : store) (pool : option Sql.db) (v : Sql.server)
         (query type : param),
    (status (get_api_search st query type) = 400%nat <->
     query = None \/ query = Some EmptyString) /\
    (Sql.status (Sql.get_api_search pool v query type) = 400%nat <->
     query = None \/ query = Some EmptyString) /\
    get_api_search st None type
      = Reply 400 (error_body "Query parameter is required") /\
    get_api_search st (Some EmptyString) type
      = Reply 400 (error_body "Query parameter is required") /\
    Sql.get_api_search pool v None type
      = Sql.Reply 400 (Sql.Error (Sql.query_required v)) /\
    Sql.get_api_search pool v (Some EmptyString) type
      = Sql.Reply 400 (Sql.Error (Sql.query_required v)).
Proof.
  intros R st pool v query type.
  split; [|split; [|repeat split]].
  - destruct query as [q|]; [|simpl; intuition].
    destruct (String.eqb_spec q EmptyString) as [->|Hq]; [simpl; intuition|].
    split; [|intros [H|H]; congruence].
    intros H. exfalso. revert H.
    unfold get_api_search, supplied. simpl truthy.
    destruct (String.eqb_spec q EmptyString) as [E|_]; [contradiction|].
    cbn [negb].
    apply catch_bind_status. intros r1.
    apply catch_bind_status. intros r2. discriminate.
  - destruct query as [q|]; [|simpl; intuition].
    destruct (String.eqb_spec q EmptyString) as [->|Hq]; [simpl; intuition|].
    split; [|intros [H|H]; congruence].
    intros H. exfalso. revert H.
    unfold Sql.get_api_search. rewrite (supplied_nonempty q Hq).
    destruct (_ || _); destruct (_ || _);
      repeat (apply sql_query_status; intros ?); discriminate.
Qed.

(** C10.  For a non-empty query text and a scope that is none of "all",
    "restaurants" and "dishes", GET /api/search answers 200 with an object
    that has neither list, in the snapshot server and in both MySQL servers,
    whatever the collections hold. *)
Theorem unifiedSearch_unknown_scope :
  forall (R : Runtime) (st : store) (pool : option Sql.db) (v : Sql.server)
         (query scope : string),
    query <> EmptyString ->
    scope <> "all" -> scope <> "restaurants" -> scope <> "dishes" ->
    get_api_search st (Some query) (Some scope) = Reply 200 (VObj []) /\
    Sql.get_api_search pool v (Some query) (Some scope)
      = Sql.Reply 200 (Sql.Results None None).
Proof.
  intros R st pool v query scope Hq Ha Hr Hd.
  apply String.eqb_neq in Ha, Hr, Hd. split.
  - unfold get_api_search, supplied. simpl truthy.
    destruct (String.eqb_spec query EmptyString) as [E|_]; [contradiction|].
    cbn [negb]. rewrite Ha, Hr, Hd. reflexivity.
  - unfold Sql.get_api_search. rewrite (supplied_nonempty query Hq).
    rewrite Ha, Hr, Hd. reflexivity.
Qed.

Lemma unifiedSearch_unknown_scope_witness :
  get_api_search (R := sample_runtime) Examples.catalog (Some "pizza") (Some "menu")
    = Reply 200 (VObj []) /\
  Sql.get_api_search (Some Examples.catalog_db) Sql.Basic (Some "pizza") (Some "menu")
    = Sql.Reply 200 (Sql.Results None None).
Proof.
  apply (unifiedSearch_unknown_scope sample_runtime Examples.catalog
           (Some Examples.catalog_db) Sql.Basic "pizza" "menu");
    discriminate.
Defined.

(** ** C9: a price bound of 0 *)

Lemma satisfies_min_zero {R : Runtime} (d : value) :
  satisfies None None (Some "0") None d = Qle_bool 0 (price_of d).
Proof.
  unfold satisfies. cbn [supplied truthy String.eqb negb andb].
  rewrite andb_true_r. reflexivity.
Qed.

Lemma satisfies_max_zero {R : Runtime} (d : value) :
  satisfies None None None (Some "0") d = Qle_bool (price_of d) 0.
Proof. reflexivity. Qed.

(** C9, as amended.  In the snapshot server a price bound given as the empty
    string is not applied: the answer is that of the absent bound.  The bound
    0 reaches the handler as the string "0", which is truthy, and is applied:
    with [min_price=0] and nothing else the dishes priced at least 0 are
    listed, with [max_price=0] those priced at most 0. *)
Theorem price_bound_truthiness :
  forall (R : Runtime) (st : store),
    Forall (fun d => is_dish d = true) (dishesData st) ->
    (forall search category bound,
       get_api_dishes st search category (Some EmptyString) bound
         = get_api_dishes st search category None bound /\
       get_api_dishes st search category bound (Some EmptyString)
         = get_api_dishes st search category bound None) /\
    (exists out,
       get_api_dishes st None None (Some "0") None = Reply 200 (VArr out) /\
       Permutation out
         (filter (fun d => Qle_bool 0 (price_of d)) (dishesData st))) /\
    (exists out,
       get_api_dishes st None None None (Some "0") = Reply 200 (VArr out) /\
       Permutation out
         (filter (fun d => Qle_bool (price_of d) 0) (dishesData st))).
Proof.
  intros R st HD. split; [|split].
  - intros search category bound. split; reflexivity.
  - eexists. split.
    + apply get_api_dishes_pure; [intros H; contradiction H; reflexivity | exact HD].
    + rewrite order_by_perm.
      rewrite (filter_ext _ _ satisfies_min_zero). reflexivity.
  - eexists. split.
    + apply get_api_dishes_pure; [intros H; contradiction H; reflexivity | exact HD].
    + rewrite order_by_perm.
      rewrite (filter_ext _ _ satisfies_max_zero). reflexivity.
Qed.

Lemma price_bound_truthiness_witness :
  (forall search category bound,
     get_api_dishes (R := sample_runtime) Examples.two_dishes
         search category (Some EmptyString) bound
       = get_api_dishes Examples.two_dishes search category None bound /\
     get_api_dishes (R := sample_runtime) Examples.two_dishes
         search category bound (Some EmptyString)
       = get_api_dishes Examples.two_dishes search category bound None) /\
  (exists out,
     get_api_dishes (R := sample_runtime) Examples.two_dishes
         None None (Some "0") None = Reply 200 (VArr out) /\
     Permutation out
       (filter (fun d => Qle_bool 0 (price_of d)) (dishesData Examples.two_dishes))) /\
  (exists out,
     get_api_dishes (R := sample_runtime) Examples.two_dishes
         None None None (Some "0") = Reply 200 (VArr out) /\
     Permutation out
       (filter (fun d => Qle_bool (price_of d) 0) (dishesData Examples.two_dishes))).
Proof.
  apply (price_bound_truthiness sample_runtime Examples.two_dishes).
  repeat constructor.
Defined.

(** The claim C9 fails: with [max_price=0] the two dishes, priced 10 and 6,
    are removed, while without the bound both are listed; and with
    [min_price=0] a record priced below 0 is removed. *)
Lemma price_bound_zero_counterexample :
  get_api_dishes (R := sample_runtime) Examples.two_dishes
      None None None (Some "0") = Reply 200 (VArr []) /\
  get_api_dishes (R := sample_runtime) Examples.two_dishes
      None None None None
    = Reply 200 (VArr [Examples.borscht; Examples.pilaf]) /\
  get_api_dishes (R := sample_runtime) Examples.with_voucher
      None None (Some "0") None = Reply 200 (VArr [Examples.pilaf]) /\
  get_api_dishes (R := sample_runtime) Examples.with_voucher
      None None None None
    = Reply 200 (VArr [Examples.pilaf; Examples.voucher]).
Proof. repeat split. Qed.

(** ** C7: lookup by identifier *)

Lemma integer_inv (v : value) :
  is_integer v = true -> v = VNum (Fin (inject_Z (int v))).
Proof.
  destruct v as [| | |[| |q|]| | |]; simpl; try discriminate.
  destruct q as [n d]. simpl. destruct d; try discriminate. reflexivity.
Qed.

Lemma inject_Z_eqb (x y : Z) : Qeq_bool (inject_Z x) (inject_Z y) = (x =? y).
Proof.
  destruct (Z.eqb_spec x y) as [->|H].
  - apply Qeq_bool_iff. reflexivity.
  - destruct (Qeq_bool (inject_Z x) (inject_Z y)) eqn:E; [|reflexivity].
    apply Qeq_bool_iff in E. unfold Qeq in E. simpl in E. lia.
Qed.


Lemma find_unique {A} (key : A -> Z) (g : A -> bool) (r : A) (xs : list A) :
  NoDup (map key xs) -> In r xs -> g r = true ->
  (forall x, In x xs -> g x = true -> key x = key r) ->
  find g xs = Some r.
Proof.
  induction xs as [|x t IH]; simpl; intros Hn Hin Hg Hk; [contradiction|].
  inversion Hn as [|k ks Hnotin Hnd]; subst.
  destruct Hin as [->|Hin]; [rewrite Hg; reflexivity|].
  destruct (g x) eqn:E.
  - exfalso. apply Hnotin. rewrite (Hk x (or_introl eq_refl) E).
    apply in_map, Hin.
  - apply IH; auto.
Qed.

Lemma find_none {A} (g : A -> bool) (xs : list A) :
  (forall x, In x xs -> g x = false) -> find g xs = None.
Proof.
  induction xs as [|x t IH]; simpl; intros H; [reflexivity|].
  rewrite (H x (or_introl eq_refl)). apply IH. auto.
Qed.

Section Lookup.
Context {R : Runtime}.

Lemma find_by_id (s : string) (xs : list value) :
  Forall identified xs ->
  find_ (fun r => i <- get r "id" ;; Ok (VBool (loose_eq_str i s))) xs =
  Ok match find (fun r => names s (id_of r)) xs with
     | Some x => x
     | None => VUndef
     end.
Proof.
  intros H. apply find_pure. intros x Hx.
  rewrite Forall_forall in H. destruct (H x Hx) as [Ho Hi].
  rewrite get_field by assumption. eexists. split; [reflexivity|].
  unfold id_of, names. rewrite (integer_inv _ Hi) at 1. reflexivity.
Qed.

Lemma object_truthy (v : value) : is_object v = true -> truthy v = true.
Proof. destruct v; simpl; congruence. Qed.


Lemma lookup_missing (s : string) (xs : list value) :
  Forall identified xs ->
  (forall x, In x xs -> names s (id_of x) = false) ->
  find_ (fun x => i <- get x "id" ;; Ok (VBool (loose_eq_str i s))) xs = Ok VUndef.
Proof.
  intros H Hs. rewrite find_by_id by assumption.
  rewrite find_none by assumption. reflexivity.
Qed.

End Lookup.

Lemma restaurants_identified (xs : list value) :
  Forall (fun r => is_restaurant r = true) xs -> Forall identified xs.
Proof.
  apply Forall_impl. intros r H. apply is_restaurant_inv in H.
  destruct H as (Ho & Hi & _). split; assumption.
Qed.

Lemma dishes_identified (xs : list value) :
  Forall (fun d => is_dish d = true) xs -> Forall identified xs.
Proof.
  apply Forall_impl. intros r H. apply is_dish_inv in H.
  destruct H as (Ho & Hi & _). split; assumption.
Qed.


Lemma integer_double (v : value) :
  is_integer v = true -> is_double (inject_Z (int v)) = true.
Proof.
  destruct v as [| | |[| |q|]| | |]; cbn [is_integer int]; try discriminate.
  destruct q as [n d]. cbn [Qden Qnum]. intros H. apply andb_true_iff in H.
  destruct H as [H1 H2]. apply Pos.eqb_eq in H1. subst d. exact H2.
Qed.

Lemma identified_double (v : value) :
  identified v -> is_double (inject_Z (id_of v)) = true.
Proof. intros [_ H]. apply integer_double, H. Qed.




(** ** C5: the serving relation *)

(** An integer rounds to an integer, or beyond the range. *)
Lemma round64_Z (v : Z) :
  round64 (inject_Z v) = PosInf \/ round64 (inject_Z v) = NegInf \/
  exists z, round64 (inject_Z v) = Fin (inject_Z z).
Proof.
  unfold round64. rewrite Qred_inject_Z.
  change (Qabs (inject_Z v)) with (inject_Z (Z.abs v)).
  set (a := inject_Z (Z.abs v)).
  destruct (Qeq_bool a 0); [right; right; exists 0; reflexivity|].
  set (k := quantum a).
  assert (W : exists w, (inject_Z (rne (a / 2 ^ k)) * 2 ^ k == inject_Z w)%Q).
  { destruct (Z.le_gt_cases 0 k) as [Hk|Hk].
    - exists (rne (a / 2 ^ k) * 2 ^ k).
      rewrite inject_Z_mult, pow2_Z by exact Hk. reflexivity.
    - exists (Z.abs v).
      assert (E : (a / 2 ^ k == inject_Z (Z.abs v * 2 ^ (- k)))%Q).
      { rewrite inject_Z_mult, (pow2_Z (- k)) by lia.
        rewrite Qpower_opp. reflexivity. }
      rewrite (rne_comp _ _ E), rne_Z, <- E. unfold a.
      field. apply Qpower_not_0, two_neq0. }
  destruct W as [w Hw].
  destruct (Qle_bool (2 ^ 1024) _).
  - destruct (Qle_bool 0 (inject_Z v)); auto.
  - right; right. destruct (Qle_bool 0 (inject_Z v)).
    + exists w. rewrite (Qred_complete _ _ Hw), Qred_inject_Z. reflexivity.
    + exists (- w).
      assert (E : (- (inject_Z (rne (a / 2 ^ k)) * 2 ^ k) == inject_Z (- w))%Q).
      { rewrite Hw. reflexivity. }
      rewrite (Qred_complete _ _ E), Qred_inject_Z. reflexivity.
Qed.

Lemma parseInt_cases (s : string) :
  unlisted (parseInt s) \/ exists z, parseInt s = Fin (inject_Z z).
Proof.
  unfold parseInt, unlisted. destruct (sign (trimStart s)) as [neg t].
  destruct (match strip "0x" t, strip "0X" t with
            | Some r, _ | None, Some r => (16, r)
            | None, None => (10, t)
            end) as [radix t'].
  destruct (digits radix t' 0 0) as [[[|k] v] rest]; [auto|].
  destruct (round64_Z (if neg then - v else v)) as [E|[E|[z E]]];
    rewrite E; eauto.
Qed.

Lemma filter_none {A} (xs : list A) : filter (fun _ => false) xs = [].
Proof. induction xs; simpl; auto. Qed.

Section Serving.
Context {R : Runtime}.

Lemma includes_integer (z : Z) (xs : list value) :
  forallb is_integer xs = true ->
  existsb (same_value_zero (VNum (Fin (inject_Z z)))) xs
  = existsb (Z.eqb z) (map int xs).
Proof.
  induction xs as [|x r IH]; simpl; [reflexivity|].
  intros H. apply andb_true_iff in H. destruct H as [Hx Hr].
  rewrite (IH Hr). f_equal.
  rewrite (integer_inv x Hx). simpl. rewrite inject_Z_eqb. apply Z.eqb_sym.
Qed.

Lemma includes_unlisted (n : number) (xs : list value) :
  unlisted n -> forallb is_integer xs = true ->
  existsb (same_value_zero (VNum n)) xs = false.
Proof.
  intros Hn. induction xs as [|x r IH]; simpl; [reflexivity|].
  intros H. apply andb_true_iff in H. destruct H as [Hx Hr].
  rewrite (IH Hr). rewrite (integer_inv x Hx).
  destruct Hn as [->|[->| ->]]; reflexivity.
Qed.

(** The callback of the menu filter, at an identifier and at a number that
    is none. *)
Lemma on_menu (z : Z) (d : value) :
  is_dish d = true ->
  exists v,
    and_ (get d "restaurants")
         (rs <- get d "restaurants" ;;
          call_includes rs (VNum (Fin (inject_Z z)))) = Ok v /\
    truthy v = serves z d.
Proof.
  intros H. apply is_dish_inv in H. destruct H as (Ho & _ & _ & _ & _ & _ & Hr).
  rewrite !get_field by assumption. unfold serves, served_at.
  destruct (field d "restaurants") as [| | | | |xs|]; simpl in Hr;
    try discriminate; simpl;
    try (eexists; split; reflexivity).
  eexists; split; [reflexivity|]. simpl. apply includes_integer, Hr.
Qed.

Lemma off_menu (n : number) (d : value) :
  unlisted n -> is_dish d = true ->
  exists v,
    and_ (get d "restaurants")
         (rs <- get d "restaurants" ;; call_includes rs (VNum n)) = Ok v /\
    truthy v = false.
Proof.
  intros Hn H. apply is_dish_inv in H. destruct H as (Ho & _ & _ & _ & _ & _ & Hr).
  rewrite !get_field by assumption.
  destruct (field d "restaurants") as [| | | | |xs|]; simpl in Hr;
    try discriminate; simpl;
    try (eexists; split; reflexivity).
  eexists; split; [reflexivity|]. simpl. apply includes_unlisted; assumption.
Qed.

Lemma menu_at (st : store) (s : string) (z : Z) :
  Forall (fun d => is_dish d = true) (dishesData st) ->
  parseInt s = Fin (inject_Z z) ->
  get_api_restaurants_id_menu st s
  = Reply 200 (VArr (filter (serves z) (dishesData st))).
Proof.
  intros HD Hs. unfold get_api_restaurants_id_menu. rewrite Hs.
  rewrite (filter_pure _ (serves z)); [reflexivity|].
  intros d Hd. apply on_menu. rewrite Forall_forall in HD. auto.
Qed.

Lemma menu_at_none (st : store) (s : string) :
  Forall (fun d => is_dish d = true) (dishesData st) ->
  unlisted (parseInt s) ->
  get_api_restaurants_id_menu st s = Reply 200 (VArr []).
Proof.
  intros HD Hs. unfold get_api_restaurants_id_menu.
  rewrite (filter_pure _ (fun _ => false)); [rewrite filter_none; reflexivity|].
  intros d Hd. apply off_menu; [exact Hs|]. rewrite Forall_forall in HD. auto.
Qed.

Lemma find_dish (dishId : number) (g : value -> bool) (xs : list value) :
  Forall identified xs ->
  (forall x, strict_eq_num (VNum (Fin (inject_Z (id_of x)))) dishId = g x) ->
  find_ (fun d => i <- get d "id" ;; Ok (VBool (strict_eq_num i dishId))) xs
  = Ok match find g xs with Some x => x | None => VUndef end.
Proof.
  intros H Hg. apply find_pure. intros x Hx.
  rewrite Forall_forall in H. destruct (H x Hx) as [Ho Hi].
  rewrite get_field by assumption. eexists. split; [reflexivity|].
  simpl truthy. rewrite <- Hg. unfold id_of.
  rewrite <- (integer_inv _ Hi). reflexivity.
Qed.

(** The restaurants that serve the dish [d], once [d] is found. *)
Lemma serving_of (st : store) (d : value) :
  Forall (fun r => is_restaurant r = true) (restaurantsData st) ->
  is_dish d = true ->
  catch (
    c <- or_ (not_ (Ok d)) (not_ (get d "restaurants")) ;;
    if truthy c then Ok (Reply 200 (VArr []))
    else
      availableRestaurants <-
        filter_ (fun r => rs <- get d "restaurants" ;;
                          i <- get r "id" ;;
                          call_includes rs i)
                (restaurantsData st) ;;
      Ok (Reply 200 (VArr availableRestaurants)))
  = Reply 200 (VArr (filter (fun r => serves (id_of r) d) (restaurantsData st))).
Proof.
  intros HR Hd. pose proof Hd as Hd'. apply is_dish_inv in Hd'.
  destruct Hd' as (Ho & _ & _ & _ & _ & _ & Hr).
  unfold not_, or_. cbn [bind]. rewrite (object_truthy d Ho). cbn [negb truthy].
  rewrite !get_field by assumption. cbn [bind].
  unfold serves, served_at.
  destruct (field d "restaurants") as [| | | | |xs|] eqn:E; simpl in Hr;
    try discriminate; cbn [truthy negb bind catch existsb map];
    try (rewrite filter_none; reflexivity).
  rewrite (filter_pure _ (fun r => existsb (Z.eqb (id_of r)) (map int xs)));
    [reflexivity|].
  intros r Hin. rewrite Forall_forall in HR. specialize (HR r Hin).
  apply is_restaurant_inv in HR. destruct HR as (Hor & Hir & _).
  rewrite !get_field by assumption. cbn [bind].
  rewrite (integer_inv _ Hir). simpl. eexists. split; [reflexivity|].
  simpl. apply includes_integer, Hr.
Qed.

End Serving.


Lemma servings_at {R : Runtime} (st : store) (s : string) (d : value) :
  Forall (fun r => is_restaurant r = true) (restaurantsData st) ->
  Forall (fun d => is_dish d = true) (dishesData st) ->
  NoDup (map id_of (dishesData st)) ->
  In d (dishesData st) -> reads s (id_of d) ->
  get_api_dishes_id_restaurants st s
  = Reply 200 (VArr (filter (fun r => serves (id_of r) d) (restaurantsData st))).
Proof.
  intros HR HD ND Hd Hs. unfold get_api_dishes_id_restaurants.
  unfold reads in Hs. rewrite Hs.
  rewrite (find_dish _ (fun x => id_of x =? id_of d));
    [ | apply dishes_identified, HD | intros x; apply inject_Z_eqb ].
  rewrite (find_unique id_of _ d _ ND Hd (Z.eqb_refl _))
    by (intros x _ Hx; apply Z.eqb_eq, Hx).
  cbn [bind]. apply serving_of; [exact HR|].
  rewrite Forall_forall in HD. auto.
Qed.



(** ** C8: the load and its invariant *)

Lemma lookup_update_same (k : string) (w : value) (fs : list (string * value)) :
  lookup k (update k w fs) = Some w.
Proof.
  induction fs as [|[k' v] r IH]; simpl.
  - rewrite String.eqb_refl. reflexivity.
  - destruct (lookup k r) eqn:E; simpl.
    + rewrite IH. reflexivity.
    + destruct (String.eqb_spec k' k) as [->|Hne]; simpl.
      * rewrite E, String.eqb_refl. reflexivity.
      * rewrite IH. reflexivity.
Qed.

Lemma lookup_update_other (k k2 : string) (w : value) (fs : list (string * value)) :
  k2 <> k -> lookup k2 (update k w fs) = lookup k2 fs.
Proof.
  intros Hne. induction fs as [|[k' v] r IH]; simpl.
  - destruct (String.eqb_spec k k2); [congruence | reflexivity].
  - destruct (lookup k r) eqn:E; simpl.
    + rewrite IH. reflexivity.
    + destruct (String.eqb_spec k' k) as [->|Hk]; simpl.
      * destruct (String.eqb_spec k k2); [congruence | reflexivity].
      * rewrite IH. reflexivity.
Qed.

Section Load.
Context {R : Runtime}.

(** The filter of the load never throws, whatever the entries are. *)
Lemma and_ok (x : value) (b : M value) :
  and_ (Ok x) b = if truthy x then b else Ok x.
Proof. reflexivity. Qed.

Lemma and_falsy (x : value) (b : M value) :
  truthy x = false -> and_ (Ok x) b = Ok x.
Proof. intros H. rewrite and_ok, H. reflexivity. Qed.

(** The filter of the load never throws, whatever the entries are. *)
Lemma keep_dish_pure (d : value) :
  exists v, keep_dish d = Ok v /\ truthy v = well_named d.
Proof.
  unfold keep_dish, well_named. rewrite and_ok.
  destruct (truthy d) eqn:T.
  2:{ exists d. rewrite !and_falsy by exact T. split; [reflexivity|].
      rewrite T. destruct d; try reflexivity; discriminate T. }
  destruct d as [| |b|n|s|xs|fs]; try discriminate T;
    try (exists (VBool false); split; reflexivity).
  - exists VUndef. split; reflexivity.
  - change (typeof (VObj fs) =? "object")%string with true.
    rewrite and_ok. cbn [truthy is_object andb get bind].
    set (nm := field (VObj fs) "name").
    change (match lookup "name" fs with Some w => w | None => VUndef end) with nm.
    rewrite and_ok. destruct (truthy nm) eqn:Tn.
    2:{ exists nm. rewrite and_falsy by exact Tn. split; [reflexivity|].
        rewrite Tn. destruct nm; try reflexivity.
        simpl in Tn. rewrite Tn. reflexivity. }
    destruct nm as [| |b|n|s|xs|fs']; try discriminate Tn;
      try (exists (VBool false); split; reflexivity).
    exists (VBool (negb (trim s =? "")%string)). split; [reflexivity|].
    simpl in Tn. rewrite Tn. reflexivity.
Qed.

Lemma filter_keep_dish (ds : list value) :
  filter_ keep_dish ds = Ok (filter well_named ds).
Proof. apply filter_pure. intros d _. apply keep_dish_pure. Qed.

(** One restaurant record through [add_coordinates]. *)
Lemma add_coordinates_kept (rnd : nat -> Q) (n : nat) (r : value) :
  is_object r = true -> lacks_coordinates r = false ->
  add_coordinates rnd n r = Ok (r, n).
Proof.
  intros Ho Hl. unfold add_coordinates, not_, or_.
  rewrite !get_field by assumption. unfold lacks_coordinates in Hl.
  cbn [bind truthy].
  destruct (truthy (field r "latitude")); [|discriminate Hl].
  cbn [negb bind truthy].
  destruct (truthy (field r "longitude")); [|discriminate Hl].
  reflexivity.
Qed.

Lemma add_coordinates_patched (rnd : nat -> Q) (n : nat) (fs : list (string * value)) :
  lacks_coordinates (VObj fs) = true ->
  add_coordinates rnd n (VObj fs) =
  Ok (VObj (update "longitude" (VNum (drawn_longitude (rnd (S n))))
              (update "latitude" (VNum (drawn_latitude (rnd n))) fs)),
      S (S n)).
Proof.
  intros Hl. unfold add_coordinates, not_, or_.
  rewrite !get_field by reflexivity. unfold lacks_coordinates in Hl.
  cbn [bind truthy].
  destruct (truthy (field (VObj fs) "latitude")); [|reflexivity].
  cbn [negb bind truthy].
  destruct (truthy (field (VObj fs) "longitude")); [discriminate Hl|].
  reflexivity.
Qed.

Lemma positive_truthy (x : Q) : (0 < x)%Q -> truthy (VNum (Fin x)) = true.
Proof.
  intros H. simpl. destruct (Qeq_bool x 0) eqn:E; [|reflexivity].
  apply Qeq_bool_iff in E. lra.
Qed.

(** A sum [a + r * c] of binary64, for a draw [r] in [0, 1), lies between
    [a] and the value [u] of binary64 at or above [a + c]. *)
Lemma drawn_between (a c u r : Q) :
  is_double a = true -> is_double c = true -> is_double u = true ->
  (0 < a)%Q -> (0 <= c)%Q -> (a + c <= u)%Q -> (0 <= r < 1)%Q ->
  exists x, num_add (Fin a) (num_mul (Fin r) (Fin c)) = Fin x /\
            (a <= x <= u)%Q.
Proof.
  intros Da Dc Du Ha Hc Hu [Hr0 Hr1]. cbn [num_mul].
  destruct (round64_below (r * c) c Dc) as (t & Et & Ht0 & Htc).
  { apply Qmult_le_0_compat; assumption. }
  { rewrite <- (Qmult_1_l c) at 2. apply Qmult_le_compat_r; [|exact Hc].
    apply Qlt_le_weak, Hr1. }
  rewrite Et. cbn [num_add].
  apply (round64_between a (a + t) u Da Du Ha); lra.
Qed.

Lemma drawn_latitude_box (r : Q) :
  (0 <= r < 1)%Q ->
  exists x, drawn_latitude r = Fin x /\
    (43.2000000000000028421709430404007434844970703125 <= x
     <= 43.30000000000000426325641456060111522674560546875)%Q.
Proof.
  intros Hr. unfold drawn_latitude.
  change (literal 43.2) with (Fin (3039929748475085 # 70368744177664)).
  change (literal 0.1) with (Fin (3602879701896397 # 36028797018963968)).
  destruct (drawn_between (3039929748475085 # 70368744177664)
              (3602879701896397 # 36028797018963968)
              (6093933245785703 # 140737488355328) r)
    as (x & E & H1 & H2);
    try reflexivity; try exact Hr; try (unfold Qle; simpl; lia).
  exists x. split; [exact E|]. split.
  - apply (Qle_trans _ (3039929748475085 # 70368744177664)); [|exact H1].
    unfold Qle. simpl. lia.
  - apply (Qle_trans _ (6093933245785703 # 140737488355328)); [exact H2|].
    unfold Qle. simpl. lia.
Qed.

Lemma drawn_longitude_box (r : Q) :
  (0 <= r < 1)%Q ->
  exists y, drawn_longitude r = Fin y /\
    (76.7999999999999971578290569595992565155029296875 <= y <= 77)%Q.
Proof.
  intros Hr. unfold drawn_longitude.
  change (literal 76.8) with (Fin (5404319552844595 # 70368744177664)).
  change (literal 0.2) with (Fin (3602879701896397 # 18014398509481984)).
  destruct (drawn_between (5404319552844595 # 70368744177664)
              (3602879701896397 # 18014398509481984) 77 r)
    as (y & E & H1 & H2);
    try reflexivity; try exact Hr; try (unfold Qle; simpl; lia).
  exists y. split; [exact E|]. split; [|exact H2].
  apply (Qle_trans _ (5404319552844595 # 70368744177664)); [|exact H1].
  unfold Qle. simpl. lia.
Qed.

Lemma patched_one (rnd : nat -> Q) (n : nat) (r : value) :
  (forall k, (0 <= rnd k < 1)%Q) ->
  is_object r = true ->
  exists r' n',
    add_coordinates rnd n r = Ok (r', n') /\ patched r r' /\ located r' = true.
Proof.
  intros Hrnd Ho. destruct (lacks_coordinates r) eqn:L.
  - destruct r as [| | | | | |fs]; try discriminate Ho.
    eexists _, _. split; [apply add_coordinates_patched, L|].
    destruct (drawn_latitude_box (rnd n) (Hrnd n)) as (x & Ex & Hx).
    destruct (drawn_longitude_box (rnd (S n)) (Hrnd (S n))) as (y & Ey & Hy).
    rewrite Ex, Ey.
    assert (Flat : field (VObj (update "longitude" (VNum (Fin y))
                           (update "latitude" (VNum (Fin x)) fs))) "latitude"
                   = VNum (Fin x)).
    { unfold field. rewrite lookup_update_other by discriminate.
      rewrite lookup_update_same. reflexivity. }
    assert (Flon : field (VObj (update "longitude" (VNum (Fin y))
                           (update "latitude" (VNum (Fin x)) fs))) "longitude"
                   = VNum (Fin y)).
    { unfold field. rewrite lookup_update_same. reflexivity. }
    split; [split|].
    + intros C. congruence.
    + intros _. split; [exists x, y; auto|].
      intros k H1 H2. unfold field. rewrite !lookup_update_other by assumption.
      reflexivity.
    + unfold located. rewrite Flat, Flon.
      rewrite !positive_truthy; [reflexivity | |].
      * apply (Qlt_le_trans _ 76.7999999999999971578290569595992565155029296875);
          [reflexivity | apply Hy].
      * apply (Qlt_le_trans _ 43.2000000000000028421709430404007434844970703125);
          [reflexivity | apply Hx].
  - exists r, n. split; [apply add_coordinates_kept; assumption|].
    split; [split; [intros _; reflexivity | intros C; congruence]|].
    unfold lacks_coordinates in L. unfold located.
    destruct (truthy (field r "latitude")), (truthy (field r "longitude"));
      try discriminate L; reflexivity.
Qed.


Lemma deref_alloc_old (h : heap) (xs : list value) (a : nat) :
  (a < List.length h)%nat -> deref (fst (alloc h xs)) a = deref h a.
Proof. intros H. unfold deref, alloc. cbn [fst]. apply app_nth1, H. Qed.

Lemma deref_alloc_new (h : heap) (xs : list value) :
  deref (fst (alloc h xs)) (snd (alloc h xs)) = xs.
Proof. unfold deref, alloc. cbn [fst snd]. apply nth_middle. Qed.

Lemma assign_length (h : heap) (a : nat) (xs : list value) :
  List.length (assign h a xs) = List.length h.
Proof.
  revert a. induction h as [|y r IH]; intros [|a]; simpl; try reflexivity.
  rewrite IH. reflexivity.
Qed.

Lemma deref_assign_same (h : heap) (a : nat) (xs : list value) :
  (a < List.length h)%nat -> deref (assign h a xs) a = xs.
Proof.
  revert a. induction h as [|y r IH]; intros [|a] H; simpl in *; try lia.
  - reflexivity.
  - apply IH. lia.
Qed.

Lemma deref_assign_other (h : heap) (a b : nat) (xs : list value) :
  a <> b -> deref (assign h a xs) b = deref h b.
Proof.
  revert a b. induction h as [|y r IH]; intros [|a] [|b] H; simpl;
    try reflexivity; try congruence.
  apply IH. congruence.
Qed.

(** One conditional filter over the heap: its result is the array that
    [filter_if] gives, at an address past the two arrays of the store, which
    are left as they were. *)
Lemma filter_if_at_spec (p : param) (f : string -> value -> M value)
    (a : nat) (h : heap) :
  (2 <= a < List.length h)%nat ->
  match filter_if p f (deref h a) with
  | Ok ys =>
      exists h' a',
        filter_if_at p f a h = (h', Ok a') /\
        (2 <= a' < List.length h')%nat /\ deref h' a' = ys /\
        deref h' restaurantsRef = deref h restaurantsRef /\
        deref h' dishesRef = deref h dishesRef
  | Throw e =>
      filter_if_at p f a h = (h, Throw e)
  end.
Proof.
  intros Ha. unfold filter_if, filter_if_at.
  destruct (supplied p) as [s|].
  - destruct (filter_ (f s) (deref h a)) as [ys|e]; [|reflexivity].
    exists (fst (alloc h ys)), (snd (alloc h ys)).
    split; [reflexivity|]. split; [|split; [|split]].
    + unfold alloc. cbn [fst snd]. rewrite length_app. simpl. lia.
    + apply deref_alloc_new.
    + apply deref_alloc_old. unfold restaurantsRef. lia.
    + apply deref_alloc_old. unfold dishesRef. lia.
  - exists h, a. repeat split; try reflexivity; apply Ha.
Qed.

Lemma store_of_heap (st : store) (h : heap) :
  deref h restaurantsRef = restaurantsData st ->
  deref h dishesRef = dishesData st ->
  store_of h = st.
Proof. intros H1 H2. unfold store_of. rewrite H1, H2. destruct st. reflexivity. Qed.

(** One [if (p) { xs = xs.filter(f) }] of the handler, on both sides. *)
Ltac stage :=
  let h := fresh "h" in let a := fresh "a" in
  let A := fresh "A" in let R0 := fresh "R0" in let S0 := fresh "S0" in
  intros h a A R0 S0; unfold then_ at 1;
  match goal with
  | |- context [filter_if_at ?p ?f a h] =>
      let F := fresh "F" in
      pose proof (filter_if_at_spec p f a h A) as F;
      destruct (filter_if p f (deref h a)) as [?ys|?e];
      [ let h' := fresh "h" in let a' := fresh "a" in
        let E := fresh "E" in let A' := fresh "A" in let D := fresh "D" in
        let R1 := fresh "R1" in let S1 := fresh "S1" in
        destruct F as (h' & a' & E & A' & D & R1 & S1);
        rewrite E; cbn [bind]; rewrite <- D;
        rewrite R0 in R1; rewrite S0 in S1; clear D E;
        revert A' R1 S1; generalize h' a'; clear
      | rewrite F; cbn [bind]; exists h; split;
        [reflexivity | apply store_of_heap; assumption] ]
  end.

(** GET /api/dishes over the heap answers what [get_api_dishes] answers and
    leaves the two arrays of the store as they were: it filters and sorts
    arrays of its own. *)
Lemma get_api_dishes_at_spec (st : store) (s c lo hi : param) :
  exists h,
    get_api_dishes_at s c lo hi (heap_of st) = (h, get_api_dishes st s c lo hi)
    /\ store_of h = st.
Proof.
  unfold get_api_dishes_at, get_api_dishes.
  set (h0 := fst (alloc (heap_of st) (deref (heap_of st) dishesRef))).
  set (a0 := snd (alloc (heap_of st) (deref (heap_of st) dishesRef))).
  assert (A0 : (2 <= a0 < List.length h0)%nat) by (cbv; lia).
  assert (D0 : deref h0 a0 = dishesData st) by reflexivity.
  assert (R0 : deref h0 restaurantsRef = restaurantsData st) by reflexivity.
  assert (S0 : deref h0 dishesRef = dishesData st) by reflexivity.
  unfold then_ at 1.
  change (alloc (heap_of st) (deref (heap_of st) dishesRef)) with (h0, a0).
  cbv iota beta.
  rewrite <- D0. clearbody h0 a0. clear D0.
  revert A0 R0 S0. generalize h0 a0. clear h0 a0.
  stage. stage. stage. stage.
  intros h a A R0 S0. unfold then_, sort_at.
  destruct (sort_ by_name (deref h a)) as [xs|e]; cbn [bind].
  - exists (assign h a xs). rewrite deref_assign_same by apply A.
    split; [reflexivity|]. apply store_of_heap.
    + rewrite deref_assign_other; [exact R0 | unfold restaurantsRef; lia].
    + rewrite deref_assign_other; [exact S0 | unfold dishesRef; lia].
  - exists h. split; [reflexivity | apply store_of_heap; assumption].
Qed.


Lemma step_reply (st : store) (s c lo hi : param) :
  snd (step st (GetDishes s c lo hi)) = get_api_dishes st s c lo hi.
Proof.
  cbn [step]. destruct (get_api_dishes_at_spec st s c lo hi) as (h & E & _).
  rewrite E. reflexivity.
Qed.




(** Whatever the two files hold: when the load completes, the dishes file
    was a list and the dishes kept are its well-named entries. *)
Lemma load_dishes (rf df : value) (rnd : nat -> Q) (st : store) :
  load rf df rnd = Ok st ->
  exists ds, df = VArr ds /\ dishesData st = filter well_named ds.
Proof.
  unfold load. destruct (or_ _ _) as [v|e]; [|discriminate]. cbn [bind].
  destruct df as [| | | | |ds|]; try discriminate. cbn [as_array bind].
  rewrite filter_keep_dish. cbn [bind].
  destruct (as_array v) as [rl|e]; [|discriminate]. cbn [bind].
  destruct (map_add_coordinates rnd 0 rl) as [p|e]; [|discriminate].
  cbn [bind]. intros H. injection H as <-. exists ds. split; reflexivity.
Qed.

End Load.




(** * Further properties *)

Import More.

(** ** The start-up: when it completes *)

Lemma add_coordinates_nullish (rnd : nat -> Q) (n : nat) (r : value) :
  nullish r = true -> add_coordinates rnd n r = Throw TypeError.
Proof. destruct r; try discriminate; reflexivity. Qed.

(** An entry that is neither an object nor nullish: the two assignments are
    dropped, the two draws are made. *)
Lemma add_coordinates_primitive (rnd : nat -> Q) (n : nat) (r : value) :
  nullish r = false -> is_object r = false ->
  add_coordinates rnd n r = Ok (r, S (S n)).
Proof. destruct r; try discriminate; reflexivity. Qed.

Lemma add_coordinates_defined (rnd : nat -> Q) (n : nat) (r : value) :
  nullish r = false ->
  exists r',
    add_coordinates rnd n r
    = Ok (r', if lacks_coordinates r then S (S n) else n).
Proof.
  intros Hn. destruct (is_object r) eqn:Ho.
  - destruct (lacks_coordinates r) eqn:L.
    + destruct r; try discriminate Ho.
      eexists. apply add_coordinates_patched, L.
    + exists r. apply add_coordinates_kept; assumption.
  - exists r. rewrite add_coordinates_primitive by assumption.
    destruct r; try discriminate; reflexivity.
Qed.

Lemma map_add_coordinates_defined (rnd : nat -> Q) (rs : list value) :
  Forall (fun r => nullish r = false) rs ->
  forall n, exists rs',
    map_add_coordinates rnd n rs = Ok (rs', (n + 2 * lacking rs)%nat).
Proof.
  induction 1 as [|r t Hr Ht IH]; intros n.
  - exists []. simpl. f_equal. f_equal. unfold lacking. simpl. lia.
  - destruct (add_coordinates_defined rnd n r Hr) as [r' E].
    cbn [map_add_coordinates]. rewrite E. cbn [bind snd fst].
    destruct (IH (if lacks_coordinates r then S (S n) else n)) as [t' Et].
    rewrite Et. cbn [bind snd fst]. exists (r' :: t'). f_equal. f_equal.
    unfold lacking. simpl. destruct (lacks_coordinates r); simpl; lia.
Qed.

Lemma map_add_coordinates_throws (rnd : nat -> Q) (rs : list value) :
  forall n p, map_add_coordinates rnd n rs = Ok p ->
  Forall (fun r => nullish r = false) rs.
Proof.
  induction rs as [|r t IH]; intros n p H; [constructor|].
  cbn [map_add_coordinates] in H.
  destruct (nullish r) eqn:Hn.
  - rewrite add_coordinates_nullish in H by exact Hn. discriminate.
  - constructor; [exact Hn|].
    destruct (add_coordinates rnd n r) as [q|e]; [|discriminate].
    cbn [bind] in H.
    destruct (map_add_coordinates rnd (snd q) t) as [q'|e] eqn:E; [|discriminate].
    apply (IH _ _ E).
Qed.

Lemma or_listed (rf : value) :
  nullish rf = false ->
  exists v, or_ (get rf "restaurants") (Ok (VArr [])) = Ok v /\
            (forall rs, as_array v = Ok rs <-> entries rf = Some rs).
Proof.
  intros Hn. unfold entries, or_.
  assert (G : get rf "restaurants" = Ok (field rf "restaurants"))
    by (destruct rf; try discriminate; reflexivity).
  rewrite G. cbn [bind].
  destruct (field rf "restaurants") as [| |b|n|s|xs|fs];
    try (eexists; split; [reflexivity|]; intros rs; simpl;
         split; intros H; congruence).
  - destruct b; eexists; (split; [reflexivity|]); intros rs; simpl;
      split; intros H; congruence.
  - destruct (truthy (VNum n)); eexists; (split; [reflexivity|]);
      intros rs; simpl; split; intros H; congruence.
  - destruct (truthy (VStr s)); eexists; (split; [reflexivity|]);
      intros rs; simpl; split; intros H; congruence.
Qed.

(** X1.  The load completes exactly when the restaurants file is not
    [null], the dishes file is a list, the [restaurants] key holds a list or
    something falsy, and no entry of that list is [null]; otherwise its
    [catch] block runs. *)
Theorem load_completes_iff :
  forall (restaurantsFile dishesFile : value) (rnd : nat -> Q),
    (exists st, load restaurantsFile dishesFile rnd = Ok st) <->
    nullish restaurantsFile = false /\
    (exists ds, dishesFile = VArr ds) /\
    (exists rs, entries restaurantsFile = Some rs /\
                Forall (fun r => nullish r = false) rs).
Proof.
  intros rf df rnd. split.
  - intros [st H]. unfold load in H.
    destruct (nullish rf) eqn:Hn.
    { destruct rf; try discriminate Hn; discriminate H. }
    split; [reflexivity|].
    destruct (or_listed rf Hn) as (v & Ev & Hv). rewrite Ev in H. cbn [bind] in H.
    destruct df as [| | | | |ds|]; try discriminate H.
    split; [exists ds; reflexivity|].
    cbn [as_array bind] in H. rewrite filter_keep_dish in H. cbn [bind] in H.
    destruct (as_array v) as [rl|e] eqn:Ea; [|discriminate H]. cbn [bind] in H.
    exists rl. split; [apply Hv; reflexivity|].
    destruct (map_add_coordinates rnd 0 rl) as [p|e] eqn:Em; [|discriminate H].
    apply (map_add_coordinates_throws _ _ _ _ Em).
  - intros (Hn & (ds & ->) & (rs & He & Hrs)). unfold load.
    destruct (or_listed rf Hn) as (v & Ev & Hv). rewrite Ev. cbn [bind as_array].
    rewrite filter_keep_dish. cbn [bind].
    rewrite (proj2 (Hv rs) He). cbn [bind].
    destruct (map_add_coordinates_defined rnd rs Hrs 0%nat) as [rs' E].
    rewrite E. eexists. reflexivity.
Qed.

(** ** The start-up: what it takes from [Math.random] *)

Lemma lacking_non_object (r : value) :
  is_object r = false -> lacks_coordinates r = true.
Proof. destruct r; try discriminate; reflexivity. Qed.

Lemma add_coordinates_agree (rnd1 rnd2 : nat -> Q) (n : nat) (r : value) :
  (lacks_coordinates r = true -> rnd1 n = rnd2 n /\ rnd1 (S n) = rnd2 (S n)) ->
  add_coordinates rnd1 n r = add_coordinates rnd2 n r.
Proof.
  intros H. destruct (lacks_coordinates r) eqn:L.
  - destruct (H eq_refl) as [H1 H2]. unfold add_coordinates.
    rewrite H1, H2. reflexivity.
  - destruct (is_object r) eqn:Ho.
    + rewrite !add_coordinates_kept by assumption. reflexivity.
    + rewrite lacking_non_object in L by exact Ho. discriminate.
Qed.

Lemma add_coordinates_counter (rnd : nat -> Q) (n : nat) (r : value) (p : value * nat) :
  add_coordinates rnd n r = Ok p ->
  snd p = if lacks_coordinates r then S (S n) else n.
Proof.
  intros H. destruct (nullish r) eqn:Hn.
  - rewrite add_coordinates_nullish in H by exact Hn. discriminate.
  - destruct (add_coordinates_defined rnd n r Hn) as [r' E].
    rewrite E in H. injection H as <-. reflexivity.
Qed.

Lemma map_add_coordinates_agree (rnd1 rnd2 : nat -> Q) (rs : list value) :
  forall n,
    (forall i, (n <= i < n + 2 * lacking rs)%nat -> rnd1 i = rnd2 i) ->
    map_add_coordinates rnd1 n rs = map_add_coordinates rnd2 n rs.
Proof.
  induction rs as [|r t IH]; intros n H; [reflexivity|].
  cbn [map_add_coordinates].
  assert (Hl : lacking (r :: t)
               = ((if lacks_coordinates r then 2 else 0) + lacking t
                  - (if lacks_coordinates r then 1 else 0))%nat).
  { unfold lacking. simpl. destruct (lacks_coordinates r); simpl; lia. }
  rewrite (add_coordinates_agree rnd1 rnd2 n r).
  2:{ intros L. rewrite L in Hl. split; apply H; lia. }
  destruct (add_coordinates rnd2 n r) as [p|e] eqn:E; [|reflexivity].
  cbn [bind]. rewrite (IH (snd p)); [reflexivity|].
  intros i Hi. apply H. rewrite (add_coordinates_counter _ _ _ _ E) in Hi.
  destruct (lacks_coordinates r); lia.
Qed.

Lemma located_kept (r : value) :
  located r = true -> is_object r = true /\ lacks_coordinates r = false.
Proof.
  unfold located, lacks_coordinates. intros H.
  apply andb_true_iff in H. destruct H as [H1 H2]. rewrite H1, H2.
  split; [|reflexivity]. destruct r; try discriminate H1; reflexivity.
Qed.

Lemma map_kept (rnd : nat -> Q) (rs : list value) :
  Forall (fun r => located r = true) rs ->
  forall n, map_add_coordinates rnd n rs = Ok (rs, n).
Proof.
  induction 1 as [|r t Hr Ht IH]; intros n; [reflexivity|].
  cbn [map_add_coordinates]. destruct (located_kept r Hr) as [Ho Hl].
  rewrite add_coordinates_kept by assumption. cbn [bind snd fst].
  rewrite IH. reflexivity.
Qed.

(** X2.  The load draws two numbers from [Math.random] for each restaurant
    entry that lacks a coordinate, and none for the others: two sequences of
    draws that agree on that many first values give the same outcome, and
    when no entry lacks a coordinate the outcome does not depend on the draws
    and the entries are kept as they are. *)
Theorem load_random_draws :
  forall (restaurantsFile dishesFile : value) (rs : list value),
    entries restaurantsFile = Some rs ->
    (forall rnd1 rnd2 : nat -> Q,
       (forall i, (i < 2 * lacking rs)%nat -> rnd1 i = rnd2 i) ->
       load restaurantsFile dishesFile rnd1
         = load restaurantsFile dishesFile rnd2) /\
    (forall (rnd : nat -> Q) (st : store),
       Forall (fun r => located r = true) rs ->
       load restaurantsFile dishesFile rnd = Ok st ->
       restaurantsData st = rs).
Proof.
  intros rf df rs He. split.
  - intros rnd1 rnd2 H. unfold load.
    destruct (nullish rf) eqn:Hn.
    { destruct rf; try discriminate Hn; reflexivity. }
    destruct (or_listed rf Hn) as (v & Ev & Hv). rewrite Ev. cbn [bind].
    destruct (as_array df) as [ds|e]; [|reflexivity]. cbn [bind].
    destruct (filter_ keep_dish ds) as [ds'|e]; [|reflexivity]. cbn [bind].
    rewrite (proj2 (Hv rs) He). cbn [bind].
    rewrite (map_add_coordinates_agree rnd1 rnd2 rs 0); [reflexivity|].
    intros i Hi. apply H. lia.
  - intros rnd st Hloc H. unfold load in H.
    destruct (nullish rf) eqn:Hn.
    { destruct rf; try discriminate Hn; discriminate H. }
    destruct (or_listed rf Hn) as (v & Ev & Hv). rewrite Ev in H. cbn [bind] in H.
    destruct (as_array df) as [ds|e]; [|discriminate H]. cbn [bind] in H.
    destruct (filter_ keep_dish ds) as [ds'|e]; [|discriminate H]. cbn [bind] in H.
    rewrite (proj2 (Hv rs) He) in H. cbn [bind] in H.
    rewrite (map_kept rnd rs Hloc 0) in H. cbn [bind fst] in H.
    injection H as <-. reflexivity.
Qed.

Lemma load_random_draws_witness :
  (forall rnd1 rnd2 : nat -> Q,
     (forall i, (i < 2 * lacking [Examples.pizza_hut; MoreExamples.sakura_located])%nat ->
                rnd1 i = rnd2 i) ->
     load Examples.restaurants_file Examples.dishes_file rnd1
       = load Examples.restaurants_file Examples.dishes_file rnd2) /\
  (forall (rnd : nat -> Q) (st : store),
     Forall (fun r => located r = true)
            [Examples.pizza_hut; MoreExamples.sakura_located] ->
     load Examples.restaurants_file Examples.dishes_file rnd = Ok st ->
     restaurantsData st = [Examples.pizza_hut; MoreExamples.sakura_located]).
Proof.
  apply (load_random_draws Examples.restaurants_file Examples.dishes_file).
  reflexivity.
Defined.

(** ** The start-up: loading what was loaded *)

Lemma filter_idempotent {A} (f : A -> bool) (xs : list A) :
  filter f (filter f xs) = filter f xs.
Proof.
  rewrite filter_twice. apply filter_ext. intros x. destruct (f x); reflexivity.
Qed.

(** An entry that came out of [add_coordinates] goes through it unchanged. *)
Lemma add_coordinates_settled (rnd rnd' : nat -> Q) (n m : nat) (r : value)
    (p : value * nat) :
  (forall k, (0 <= rnd k < 1)%Q) ->
  add_coordinates rnd n r = Ok p ->
  exists m', add_coordinates rnd' m (fst p) = Ok (fst p, m').
Proof.
  intros Hrnd H. destruct (nullish r) eqn:Hn.
  { rewrite add_coordinates_nullish in H by exact Hn. discriminate. }
  destruct (is_object r) eqn:Ho.
  - destruct (patched_one rnd n r Hrnd Ho) as (r' & n' & E & _ & L).
    rewrite E in H. injection H as <-. cbn [fst].
    destruct (located_kept r' L) as [Ho' Hl'].
    exists m. apply add_coordinates_kept; assumption.
  - rewrite add_coordinates_primitive in H by assumption.
    injection H as <-. cbn [fst]. eexists.
    apply add_coordinates_primitive; assumption.
Qed.

Lemma map_add_coordinates_settled (rnd rnd' : nat -> Q) (rs : list value) :
  (forall k, (0 <= rnd k < 1)%Q) ->
  forall n m p,
    map_add_coordinates rnd n rs = Ok p ->
    exists m', map_add_coordinates rnd' m (fst p) = Ok (fst p, m').
Proof.
  intros Hrnd. induction rs as [|r t IH]; intros n m p H.
  - injection H as <-. exists m. reflexivity.
  - cbn [map_add_coordinates] in H.
    destruct (add_coordinates rnd n r) as [q|e] eqn:E; [|discriminate].
    cbn [bind] in H.
    destruct (map_add_coordinates rnd (snd q) t) as [q'|e] eqn:E'; [|discriminate].
    cbn [bind] in H. injection H as <-. cbn [fst].
    destruct (add_coordinates_settled rnd rnd' n m r q Hrnd E) as [m1 E1].
    destruct (IH _ m1 _ E') as [m2 E2].
    exists m2. cbn [map_add_coordinates]. rewrite E1. cbn [bind snd fst].
    rewrite E2. reflexivity.
Qed.

(** X3.  The store of a completed load, written back as the two files and
    loaded again, is that same store, whatever [Math.random] then returns:
    the dishes kept are kept again, and the coordinates assigned are not
    drawn a second time. *)
Theorem load_again :
  forall (restaurantsFile dishesFile : value) (rnd rnd' : nat -> Q) (st : store),
    (forall k, (0 <= rnd k < 1)%Q) ->
    load restaurantsFile dishesFile rnd = Ok st ->
    load (restaurants_file_of st) (dishes_file_of st) rnd' = Ok st.
Proof.
  intros rf df rnd rnd' st Hrnd H. unfold load in H.
  destruct (or_ _ _) as [v|e]; [|discriminate]. cbn [bind] in H.
  destruct df as [| | | | |ds|]; try discriminate. cbn [as_array bind] in H.
  rewrite filter_keep_dish in H. cbn [bind] in H.
  destruct (as_array v) as [rl|e]; [|discriminate]. cbn [bind] in H.
  destruct (map_add_coordinates rnd 0 rl) as [p|e] eqn:E; [|discriminate].
  cbn [bind] in H. injection H as <-.
  destruct (map_add_coordinates_settled rnd rnd' rl Hrnd _ 0%nat _ E) as [m' E'].
  unfold load, restaurants_file_of, dishes_file_of.
  cbn [restaurantsData dishesData]. cbn. rewrite filter_keep_dish. cbn [bind].
  rewrite E'. cbn [bind fst]. rewrite filter_idempotent. reflexivity.
Qed.

Lemma load_again_witness :
  load (restaurants_file_of MoreExamples.loaded_store)
       (dishes_file_of MoreExamples.loaded_store) (fun _ => 0%Q)
  = Ok MoreExamples.loaded_store.
Proof.
  apply (load_again Examples.restaurants_file Examples.dishes_file
           Examples.half (fun _ => 0%Q) MoreExamples.loaded_store).
  - intros k. unfold Examples.half. lra.
  - reflexivity.
Defined.

(** ** After the load: the dish routes that cannot fail *)

Section Comparator.
Context (P : value -> Prop) (cmp : value -> value -> M Z) (c : value -> value -> Z).
Hypothesis cmp_pure : forall a b, P a -> P b -> cmp a b = Ok (c a b).



End Comparator.

Section AfterLoad.
Context {R : Runtime}.






End AfterLoad.



(** ** GET /api/search: a query text without a term *)

Section NoTerms.
Context {R : Runtime}.

Lemma and_truthy (x : value) (b : M value) :
  truthy x = true -> and_ (Ok x) b = b.
Proof. intros H. rewrite and_ok, H. reflexivity. Qed.

(** Without a term the dish test reaches no method call: it is false of any
    entry, [null] included. *)
Lemma dish_found_no_terms (d : value) :
  exists v, dish_found [] d = Ok v /\ truthy v = false.
Proof.
  unfold dish_found. cbn [map some_].
  destruct (truthy d) eqn:T.
  2:{ exists d. rewrite !and_falsy by exact T. split; [reflexivity | exact T]. }
  rewrite and_truthy by exact T.
  destruct d as [| |b|n|s|xs|fs]; try discriminate T;
    try (exists (VBool false); split; reflexivity).
  - exists VUndef. split; reflexivity.
  - change (typeof (VObj fs) =? "object")%string with true.
    rewrite and_truthy by reflexivity. rewrite get_field by reflexivity.
    destruct (truthy (field (VObj fs) "name")) eqn:Tn.
    + exists (VBool false). rewrite and_truthy by exact Tn. split; reflexivity.
    + eexists. rewrite and_falsy by exact Tn. split; [reflexivity | exact Tn].
Qed.

Lemma filter_rejects (f : value -> M value) (xs : list value) :
  (forall x, exists v, f x = Ok v /\ truthy v = false) ->
  filter_ f xs = Ok [].
Proof.
  intros H. rewrite (filter_pure f (fun _ => false)).
  - rewrite filter_none. reflexivity.
  - intros x _. apply H.
Qed.

End NoTerms.

(** X5.  A query text that is not empty but holds no term (commas and blanks
    only) is not refused: GET /api/search answers 200 with an empty list for
    each collection in scope, on any store, without reading any record. *)
Theorem search_without_terms :
  forall (R : Runtime) (st : store) (query : string) (type : param),
    query <> EmptyString ->
    terms query = [] ->
    get_api_search st (Some query) type =
    (let scope := match type with Some t => t | None => "all" end in
     Reply 200 (VObj (
       (if in_scope scope "restaurants" then [("restaurants", VArr [])] else []) ++
       (if in_scope scope "dishes" then [("dishes", VArr [])] else [])))%list).
Proof.
  intros R st query type Hq Ht. unfold get_api_search, supplied. simpl truthy.
  destruct (String.eqb_spec query EmptyString) as [E|_]; [contradiction|].
  cbn [negb]. rewrite Ht.
  rewrite (filter_rejects (restaurant_found [])).
  2:{ intros x. exists (VBool false). split; reflexivity. }
  rewrite (filter_rejects (dish_found [])) by (intros x; apply dish_found_no_terms).
  cbv zeta. unfold in_scope.
  destruct ((_ =? "all")%string || (_ =? "restaurants")%string);
    destruct ((_ =? "all")%string || (_ =? "dishes")%string); reflexivity.
Qed.

Lemma search_without_terms_witness :
  get_api_search (R := sample_runtime)
      {| restaurantsData := [VNull]; dishesData := [VNull; VNum (Fin 1)] |}
      (Some " , ,") None
  = Reply 200 (VObj [("restaurants", VArr []); ("dishes", VArr [])]).
Proof.
  apply (search_without_terms sample_runtime
           {| restaurantsData := [VNull]; dishesData := [VNull; VNum (Fin 1)] |}
           " , ," None).
  - discriminate.
  - reflexivity.
Defined.

(** ** GET /api/search: terms joined by a comma *)

Lemma split_nonempty (sep : ascii) (s : string) : split sep s <> [].
Proof.
  destruct s as [|c t]; simpl; [discriminate|].
  destruct (Ascii.eqb c sep); [discriminate|].
  destruct (split sep t); discriminate.
Qed.

Lemma split_join (a b : string) :
  split "," (a ++ String "," b) = (split "," a ++ split "," b)%list.
Proof.
  induction a as [|c a IH]; [reflexivity|].
  cbn [append split]. rewrite IH.
  destruct (Ascii.eqb c ","); [reflexivity|].
  destruct (split "," a) as [|h r] eqn:E; [|reflexivity].
  elim (split_nonempty _ _ E).
Qed.

Lemma terms_join {R : Runtime} (a b : string) :
  terms (a ++ String "," b) = (terms a ++ terms b)%list.
Proof.
  unfold terms. rewrite split_join, map_app, filter_app. reflexivity.
Qed.

Lemma search_terms_join {R : Runtime} (a b : string) :
  search_terms (a ++ String "," b) = (search_terms a ++ search_terms b)%list.
Proof.
  unfold search_terms. rewrite split_join, !map_app, filter_app, map_app.
  reflexivity.
Qed.

Lemma matches_any_join {R : Runtime} (a b : string) (fields : list string) :
  matches_any (a ++ String "," b) fields
  = matches_any a fields || matches_any b fields.
Proof.
  unfold matches_any. rewrite search_terms_join, existsb_app. reflexivity.
Qed.

Lemma join_nonempty (a b : string) : (a ++ String "," b)%string <> EmptyString.
Proof. destruct a; discriminate. Qed.

(** X6.  Joining two query texts by a comma searches for the terms of both:
    a record matches the joined text exactly when it matches one of the two.
    So the answer of GET /api/search does not depend on the order of the
    terms, and a text joined to itself is answered like the text alone. *)
Theorem search_joined_terms :
  forall (R : Runtime) (st : store) (a b : string) (type : param),
    (forall s, toLowerCase s = EmptyString <-> s = EmptyString) ->
    Forall (fun r => is_restaurant r = true) (restaurantsData st) ->
    Forall (fun d => is_dish d = true) (dishesData st) ->
    (forall fields,
       matches_any (a ++ String "," b) fields
       = matches_any a fields || matches_any b fields) /\
    get_api_search st (Some (a ++ String "," b)) type
      = get_api_search st (Some (b ++ String "," a)) type /\
    (a <> EmptyString ->
     get_api_search st (Some (a ++ String "," a)) type
       = get_api_search st (Some a) type).
Proof.
  intros R st a b type Hl HR HD. split; [|split].
  - intros fields. apply matches_any_join.
  - rewrite !(get_api_search_pure Hl) by (auto using join_nonempty).
    cbv zeta.
    rewrite (filter_ext (fun r => matches_any (a ++ String "," b) (restaurant_fields r))
                        (fun r => matches_any (b ++ String "," a) (restaurant_fields r)))
      by (intros r; rewrite !matches_any_join; apply orb_comm).
    rewrite (filter_ext (fun d => matches_any (a ++ String "," b) (dish_fields d))
                        (fun d => matches_any (b ++ String "," a) (dish_fields d)))
      by (intros d; rewrite !matches_any_join; apply orb_comm).
    reflexivity.
  - intros Ha.
    rewrite !(get_api_search_pure Hl) by (auto using join_nonempty).
    cbv zeta.
    rewrite (filter_ext (fun r => matches_any (a ++ String "," a) (restaurant_fields r))
                        (fun r => matches_any a (restaurant_fields r)))
      by (intros r; rewrite matches_any_join; apply orb_diag).
    rewrite (filter_ext (fun d => matches_any (a ++ String "," a) (dish_fields d))
                        (fun d => matches_any a (dish_fields d)))
      by (intros d; rewrite matches_any_join; apply orb_diag).
    reflexivity.
Qed.

Lemma search_joined_terms_witness :
  (forall fields,
     matches_any (R := sample_runtime) ("pizza" ++ String "," "lamb") fields
     = matches_any (R := sample_runtime) "pizza" fields
       || matches_any (R := sample_runtime) "lamb" fields) /\
  get_api_search (R := sample_runtime) Examples.catalog
      (Some ("pizza" ++ String "," "lamb")) None
    = get_api_search (R := sample_runtime) Examples.catalog
        (Some ("lamb" ++ String "," "pizza")) None /\
  ("pizza" <> EmptyString ->
   get_api_search (R := sample_runtime) Examples.catalog
       (Some ("pizza" ++ String "," "pizza")) None
     = get_api_search (R := sample_runtime) Examples.catalog (Some "pizza") None).
Proof.
  apply (search_joined_terms sample_runtime Examples.catalog "pizza" "lamb" None).
  - exact fold_empty.
  - repeat constructor.
  - repeat constructor.
Defined.

(** ** GET /api/dishes: bounds that no dish meets, and predicates together *)

Lemma order_by_nil_filter {A} (le : A -> A -> bool) (f : A -> bool) (xs : list A) :
  (forall x, In x xs -> f x = false) ->
  Sql.order_by le (filter f xs) = [].
Proof.
  intros H. rewrite (filter_ext_in f (fun _ => false)) by exact H.
  rewrite filter_none. reflexivity.
Qed.

Lemma supplied_some (s : string) : s <> EmptyString -> supplied (Some s) = Some s.
Proof.
  intros H. unfold supplied. simpl.
  destruct (String.eqb_spec s EmptyString); [contradiction | reflexivity].
Qed.

(** X7.  A price bound that is given but is not a number (a blank, a word)
    is not ignored and not refused: no dish meets it and GET /api/dishes
    answers 200 with the empty list; so does a lower bound above every
    price. *)
Theorem price_bound_unmet :
  forall (R : Runtime) (st : store) (search category other : param),
    toLowerCase EmptyString = EmptyString ->
    Forall (fun d => is_dish d = true) (dishesData st) ->
    (forall b, b <> EmptyString -> parseFloat b = NaN ->
       get_api_dishes st search category (Some b) other = Reply 200 (VArr []) /\
       get_api_dishes st search category other (Some b) = Reply 200 (VArr [])) /\
    (forall b q, parseFloat b = Fin q ->
       (forall d, In d (dishesData st) -> (price_of d < q)%Q) ->
       get_api_dishes st search category (Some b) other = Reply 200 (VArr [])).
Proof.
  intros R st search category other Hl HD. split.
  - intros b Hb Hn. split.
    + rewrite get_api_dishes_pure by auto. rewrite order_by_nil_filter; [reflexivity|].
      intros d _. unfold satisfies. rewrite (supplied_some b Hb), Hn.
      cbn [num_le]. rewrite andb_false_r. reflexivity.
    + rewrite get_api_dishes_pure by auto. rewrite order_by_nil_filter; [reflexivity|].
      intros d _. unfold satisfies. rewrite (supplied_some b Hb), Hn.
      destruct (price_of d); cbn [num_le]. apply andb_false_r.
  - intros b q Hq Hlt.
    assert (Hb : b <> EmptyString) by (intros ->; discriminate Hq).
    rewrite get_api_dishes_pure by auto. rewrite order_by_nil_filter; [reflexivity|].
    intros d Hd. unfold satisfies. rewrite (supplied_some b Hb), Hq.
    cbn [num_le].
    assert (E : Qle_bool q (price_of d) = false).
    { destruct (Qle_bool q (price_of d)) eqn:E; [|reflexivity].
      apply Qle_bool_iff in E. specialize (Hlt d Hd). lra. }
    rewrite E, andb_false_r. reflexivity.
Qed.

Lemma price_bound_unmet_witness :
  (forall b, b <> EmptyString -> parseFloat b = NaN ->
     get_api_dishes (R := sample_runtime) Examples.two_dishes
         None None (Some b) None = Reply 200 (VArr []) /\
     get_api_dishes (R := sample_runtime) Examples.two_dishes
         None None None (Some b) = Reply 200 (VArr [])) /\
  (forall b q, parseFloat b = Fin q ->
     (forall d, In d (dishesData Examples.two_dishes) -> (price_of d < q)%Q) ->
     get_api_dishes (R := sample_runtime) Examples.two_dishes
         None None (Some b) None = Reply 200 (VArr [])).
Proof.
  apply (price_bound_unmet sample_runtime Examples.two_dishes None None None).
  - reflexivity.
  - repeat constructor.
Defined.

Lemma satisfies_apart {R : Runtime} (search category min_price max_price : param)
    (d : value) :
  satisfies search category min_price max_price d =
  satisfies search None None None d && satisfies None category None None d &&
  satisfies None None min_price None d && satisfies None None None max_price d.
Proof.
  unfold satisfies. cbn [supplied].
  destruct (match supplied search with Some _ => _ | None => _ end),
           (match supplied category with Some _ => _ | None => _ end),
           (match supplied min_price with Some _ => _ | None => _ end),
           (match supplied max_price with Some _ => _ | None => _ end);
    reflexivity.
Qed.

Lemma listed_dishes {R : Runtime} (st : store)
    (search category min_price max_price : param) (d : value) :
  toLowerCase EmptyString = EmptyString ->
  Forall (fun x => is_dish x = true) (dishesData st) ->
  In d (listed (get_api_dishes st search category min_price max_price)) <->
  In d (dishesData st) /\ satisfies search category min_price max_price d = true.
Proof.
  intros Hl HD. rewrite get_api_dishes_pure by auto. cbn [listed].
  rewrite <- filter_In. split; apply Permutation_in.
  - apply order_by_perm.
  - symmetry. apply order_by_perm.
Qed.

(** X8.  The predicates of GET /api/dishes act independently: a dish is in
    the answer to several predicates exactly when it is in the answer to
    each of them alone; so giving one more predicate never adds a dish. *)
Theorem dishes_predicates_intersect :
  forall (R : Runtime) (st : store) (search category min_price max_price : param)
         (d : value),
    toLowerCase EmptyString = EmptyString ->
    Forall (fun x => is_dish x = true) (dishesData st) ->
    In d (listed (get_api_dishes st search category min_price max_price)) <->
    In d (listed (get_api_dishes st search None None None)) /\
    In d (listed (get_api_dishes st None category None None)) /\
    In d (listed (get_api_dishes st None None min_price None)) /\
    In d (listed (get_api_dishes st None None None max_price)).
Proof.
  intros R st search category min_price max_price d Hl HD.
  rewrite !listed_dishes by assumption.
  rewrite (satisfies_apart search category min_price max_price).
  rewrite !andb_true_iff. tauto.
Qed.

Lemma dishes_predicates_intersect_witness :
  In Examples.borscht
     (listed (get_api_dishes (R := sample_runtime) Examples.two_dishes
                (Some "sch") None (Some "5") (Some "8"))) <->
  In Examples.borscht
     (listed (get_api_dishes (R := sample_runtime) Examples.two_dishes
                (Some "sch") None None None)) /\
  In Examples.borscht
     (listed (get_api_dishes (R := sample_runtime) Examples.two_dishes
                None None None None)) /\
  In Examples.borscht
     (listed (get_api_dishes (R := sample_runtime) Examples.two_dishes
                None None (Some "5") None)) /\
  In Examples.borscht
     (listed (get_api_dishes (R := sample_runtime) Examples.two_dishes
                None None None (Some "8"))).
Proof.
  apply (dishes_predicates_intersect sample_runtime Examples.two_dishes
           (Some "sch") None (Some "5") (Some "8") Examples.borscht).
  - reflexivity.
  - repeat constructor.
Defined.

(** ** GET /api/search and GET /api/dishes on one term *)

Lemma split_whole (t : string) : no_comma t = true -> split "," t = [t].
Proof.
  induction t as [|c t IH]; [reflexivity|]. cbn [no_comma split].
  intros H. apply andb_true_iff in H. destruct H as [Hc Ht].
  destruct (Ascii.eqb c ","); [discriminate Hc|]. rewrite (IH Ht). reflexivity.
Qed.

Lemma firstn_incl {A : Type} (n : nat) (xs : list A) (x : A) :
  In x (firstn n xs) -> In x xs.
Proof.
  revert xs. induction n as [|n IH]; intros [|y xs]; simpl; try tauto.
  intros [H|H]; [left; exact H | right; apply IH; exact H].
Qed.

Lemma terms_single {R : Runtime} (t : string) :
  (forall s, toLowerCase s = EmptyString <-> s = EmptyString) ->
  no_comma t = true -> trim t = t -> t <> EmptyString ->
  terms t = [toLowerCase t].
Proof.
  intros Hl Hc Ht Hne. unfold terms. rewrite (split_whole t Hc).
  cbn [map filter]. rewrite Ht.
  destruct (toLowerCase t) eqn:E; [|reflexivity].
  apply (proj1 (Hl t)) in E. contradiction.
Qed.

(** X9.  For a search text of one term (no comma, no blank around it), the
    dishes that GET /api/search finds are among those that GET /api/dishes
    lists for the same text, in collection order instead of name order; when
    at most 20 dishes match, the two answers hold the same dishes. *)
Theorem search_agrees_with_dish_filter :
  forall (R : Runtime) (st : store) (t : string),
    (forall s, toLowerCase s = EmptyString <-> s = EmptyString) ->
    Forall (fun d => is_dish d = true) (dishesData st) ->
    no_comma t = true -> trim t = t -> t <> EmptyString ->
    exists found out,
      get_api_search st (Some t) (Some "dishes")
        = Reply 200 (VObj [("dishes", VArr found)]) /\
      get_api_dishes st (Some t) None None None = Reply 200 (VArr out) /\
      (forall d, In d found -> In d out) /\
      ((List.length out <= 20)%nat -> Permutation found out).
Proof.
  intros R st t Hl HD Hc Ht Hne.
  set (P := fun d => existsb (holds (toLowerCase t)) (dish_fields d)).
  assert (Hl0 : toLowerCase EmptyString = EmptyString) by (apply Hl; reflexivity).
  exists (firstn 20 (filter P (dishesData st))),
         (Sql.order_by name_leb (filter P (dishesData st))).
  split; [|split; [|split]].
  - unfold get_api_search. rewrite (supplied_some t Hne).
    rewrite (terms_single t Hl Hc Ht Hne).
    change (("dishes" =? "all")%string || ("dishes" =? "restaurants")%string)
      with false.
    change (("dishes" =? "all")%string || ("dishes" =? "dishes")%string)
      with true.
    cbn [bind]. rewrite (filter_pure (dish_found [toLowerCase t]) P).
    + reflexivity.
    + intros d Hd. rewrite Forall_forall in HD.
      destruct (dish_found_pure Hl [toLowerCase t] d) as (v & E & T).
      * intros q [<-|[]]. intros E. apply (proj1 (Hl t)) in E. contradiction.
      * auto.
      * exists v. split; [exact E|]. rewrite T. unfold P. simpl.
        apply orb_false_r.
  - rewrite get_api_dishes_pure by auto.
    rewrite (filter_ext (satisfies (Some t) None None None) P); [reflexivity|].
    intros d. unfold satisfies. rewrite (supplied_some t Hne).
    cbn [supplied]. unfold P. rewrite !andb_true_r. reflexivity.
  - intros d Hd. apply (Permutation_in d (Permutation_sym (order_by_perm _ _))).
    apply (firstn_incl _ _ _ Hd).
  - intros Hlen. rewrite (Permutation_length (order_by_perm _ _)) in Hlen.
    rewrite firstn_all2 by exact Hlen. symmetry. apply order_by_perm.
Qed.

Lemma search_agrees_with_dish_filter_witness :
  exists found out,
    get_api_search (R := sample_runtime) Examples.catalog
        (Some "Lamb") (Some "dishes")
      = Reply 200 (VObj [("dishes", VArr found)]) /\
    get_api_dishes (R := sample_runtime) Examples.catalog
        (Some "Lamb") None None None = Reply 200 (VArr out) /\
    (forall d, In d found -> In d out) /\
    ((List.length out <= 20)%nat -> Permutation found out).
Proof.
  apply (search_agrees_with_dish_filter sample_runtime Examples.catalog "Lamb").
  - exact fold_empty.
  - repeat constructor.
  - reflexivity.
  - reflexivity.
  - discriminate.
Defined.

(** ** Identifier texts with a tail *)

Lemma print_append (fuel : nat) :
  forall n a b,
    print_digits fuel n (a ++ b)%string = (print_digits fuel n a ++ b)%string.
Proof.
  induction fuel as [|f IH]; intros n a b; cbn [print_digits].
  - reflexivity.
  - destruct (n <? 10); [reflexivity|].
    rewrite <- IH. reflexivity.
Qed.

Lemma digits_tail (c : ascii) (u s : string) :
  all_digits s = true -> digit_of 10 c = None ->
  forall a k k' n,
    digits 10 s a k = (k', n, EmptyString) ->
    digits 10 (s ++ String c u)%string a k = (k', n, String c u).
Proof.
  intros Hs Hc. induction s as [|d s IH]; intros a k k' n H.
  - cbn [digits] in H. injection H as <- <-.
    cbn [append digits]. rewrite Hc. reflexivity.
  - cbn [all_digits] in Hs. cbn [append digits] in *.
    destruct (digit_of 10 d) as [v|]; [|discriminate Hs].
    apply IH; assumption.
Qed.

Lemma stray_inv (c : ascii) :
  stray c = true ->
  digit_of 10 c = None /\ starts_blank c = false /\
  existsb (Ascii.eqb c) ["."; "e"; "E"; "x"; "X"; "o"; "O"; "b"; "B"]%char = false.
Proof.
  unfold stray. intros H.
  apply andb_true_iff in H. destruct H as [H H3].
  apply andb_true_iff in H. destruct H as [H H2].
  apply andb_true_iff in H. destruct H as [_ H1].
  apply negb_true_iff in H1, H3.
  destruct (digit_of 10 c); [discriminate H2|]. auto.
Qed.

Lemma strip_none (a b : ascii) (r : string) (d e : ascii) (t : string) :
  a <> d \/ b <> e -> strip (String a (String b r)) (String d (String e t)) = None.
Proof.
  intros H. unfold strip. cbn [String.prefix].
  destruct (ascii_dec a d) as [->|]; [|reflexivity].
  destruct (ascii_dec b e) as [->|]; [|reflexivity].
  destruct H as [H|H]; elim H; reflexivity.
Qed.

Lemma numeral_no_mark (a b : ascii) (r s t : string) :
  digit_of 10 a = None -> all_digits s = true -> s <> EmptyString ->
  strip (String a (String b r)) (s ++ t)%string = None.
Proof.
  intros Ha Hs Hne. destruct s as [|d s]; [contradiction|].
  cbn [all_digits] in Hs. cbn [append]. unfold strip.
  assert (E : String.prefix (String a (String b r)) (String d (s ++ t)) = false).
  { cbn [String.prefix]. destruct (ascii_dec a d) as [->|]; [|reflexivity].
    rewrite Ha in Hs. discriminate Hs. }
  rewrite E. reflexivity.
Qed.

Lemma numeral_no_radix (b c : ascii) (r s u : string) :
  digit_of 10 b = None -> Ascii.eqb c b = false ->
  all_digits s = true -> s <> EmptyString ->
  strip (String "0" (String b r)) (s ++ String c u)%string = None.
Proof.
  intros Hb Hc Hs Hne. destruct s as [|d [|e s]]; [contradiction| |];
    cbn [append]; apply strip_none; right; intros <-.
  - rewrite Ascii.eqb_refl in Hc. discriminate Hc.
  - cbn [all_digits] in Hs. rewrite Hb in Hs.
    destruct (digit_of 10 d); discriminate Hs.
Qed.

Lemma numeral_trimStart (s t : string) :
  all_digits s = true -> s <> EmptyString ->
  trimStart (s ++ t)%string = (s ++ t)%string.
Proof.
  intros Hs Hne. destruct s as [|d s]; [contradiction|].
  cbn [all_digits] in Hs. cbn [append].
  destruct (digit_of 10 d) as [v|] eqn:E; [|discriminate Hs].
  apply digit_char_inv in E. destruct E as [-> Hv].
  apply trimStart_head, digit_not_blank, Hv.
Qed.

Lemma numeral_sign (s t : string) :
  all_digits s = true -> s <> EmptyString ->
  sign (s ++ t)%string = (false, (s ++ t)%string).
Proof.
  intros Hs Hne. destruct s as [|d s]; [contradiction|].
  cbn [all_digits] in Hs. cbn [append].
  destruct (digit_of 10 d) as [v|] eqn:E; [|discriminate Hs].
  apply digit_char_inv in E. destruct E as [-> Hv].
  each_digit v Hv; reflexivity.
Qed.

Lemma numeral_trimEnd (c : ascii) (s u : string) :
  all_digits s = true -> starts_blank c = false ->
  trimEnd (s ++ String c u)%string = (s ++ String c (trimEnd u))%string.
Proof.
  intros Hs Hc. induction s as [|d s IH]; cbn [append].
  - apply trimEnd_cons, Hc.
  - cbn [all_digits] in Hs.
    destruct (digit_of 10 d) as [v|] eqn:E; [|discriminate Hs].
    apply digit_char_inv in E. destruct E as [-> Hv].
    rewrite trimEnd_cons by (apply digit_not_blank, Hv).
    rewrite (IH Hs). reflexivity.
Qed.

Lemma stray_marks (c : ascii) :
  stray c = true ->
  Ascii.eqb c "x" = false /\ Ascii.eqb c "X" = false /\
  Ascii.eqb c "o" = false /\ Ascii.eqb c "O" = false /\
  Ascii.eqb c "b" = false /\ Ascii.eqb c "B" = false.
Proof.
  intros H. apply stray_inv in H. destruct H as (_ & _ & H).
  cbn [existsb] in H. repeat (apply orb_false_iff in H; destruct H as [? H]).
  auto 10.
Qed.

Lemma parseInt_tail (neg : bool) (s : string) (c : ascii) (u : string) (k : nat) (n : Z) :
  all_digits s = true -> digits 10 s 0 0 = (S k, n, EmptyString) ->
  stray c = true ->
  parseInt ((if neg then "-" else "") ++ s ++ String c u)%string
  = round64 (inject_Z (if neg then - n else n)).
Proof.
  intros Hs Hd Hc.
  assert (Hne : s <> EmptyString) by (intros ->; discriminate Hd).
  destruct (stray_marks c Hc) as (Hx & HX & _).
  apply stray_inv in Hc. destruct Hc as (Hc & _ & _).
  assert (E : sign (trimStart ((if neg then "-" else "") ++ s ++ String c u)%string)
              = (neg, (s ++ String c u)%string)).
  { destruct neg; cbn [append].
    - rewrite minus_not_blank. reflexivity.
    - rewrite numeral_trimStart, numeral_sign by assumption. reflexivity. }
  unfold parseInt. rewrite E.
  change "0x" with (String "0" (String "x" EmptyString)).
  change "0X" with (String "0" (String "X" EmptyString)).
  rewrite !numeral_no_radix by (assumption || reflexivity).
  rewrite (digits_tail c u s Hs Hc 0 0%nat (S k) n Hd). reflexivity.
Qed.

Lemma unsigned_decimal_tail (x : string) (c : ascii) (u : string) (k : nat) (n : Z) :
  strip "Infinity" x = None ->
  digits 10 x 0 0 = (S k, n, String c u) ->
  stray c = true ->
  exists q, unsigned_decimal x = Some (q, String c u).
Proof.
  intros Hi Hd Hc. unfold unsigned_decimal. rewrite Hi, Hd.
  destruct c as [[] [] [] [] [] [] [] []];
    try (vm_compute in Hc; discriminate Hc);
    eexists; reflexivity.
Qed.

Lemma StringToNumber_tail (neg : bool) (s : string) (c : ascii) (u : string) (k : nat) (n : Z) :
  all_digits s = true -> digits 10 s 0 0 = (S k, n, EmptyString) ->
  stray c = true ->
  StringToNumber ((if neg then "-" else "") ++ s ++ String c u)%string = NaN.
Proof.
  intros Hs Hd Hc.
  assert (Hne : s <> EmptyString) by (intros ->; discriminate Hd).
  destruct (stray_marks c Hc) as (Hx & HX & Ho & HO & Hb & HB).
  destruct (stray_inv c Hc) as (Hdc & Hsp & _).
  set (t := (s ++ String c (trimEnd u))%string).
  assert (Et : trim ((if neg then "-" else "") ++ s ++ String c u)%string
               = ((if neg then "-" else "") ++ t)%string).
  { unfold trim. destruct neg; cbn [append].
    - rewrite minus_not_blank.
      rewrite trimEnd_cons by reflexivity.
      rewrite numeral_trimEnd by assumption. reflexivity.
    - rewrite numeral_trimStart by assumption.
      apply numeral_trimEnd; assumption. }
  assert (El : exists q, decimal_literal ((if neg then "-" else "") ++ t)%string
                         = Some (q, String c (trimEnd u))).
  { destruct (unsigned_decimal_tail t c (trimEnd u) k n) as [q Hq].
    - apply numeral_no_mark; [reflexivity | assumption | assumption].
    - apply digits_tail; assumption.
    - exact Hc.
    - unfold decimal_literal.
      assert (E : sign ((if neg then "-" else "") ++ t)%string = (neg, t)).
      { destruct neg; cbn [append]; [reflexivity|].
        apply numeral_sign; assumption. }
      rewrite E, Hq. eexists. reflexivity. }
  destruct El as [q El].
  unfold StringToNumber. rewrite Et.
  assert (Es : forall b : ascii, digit_of 10 b = None -> Ascii.eqb c b = false ->
             strip (String "0" (String b EmptyString))
                   ((if neg then "-" else "") ++ t)%string = None).
  { intros b Hb1 Hb2. destruct neg; cbn [append].
    - destruct s as [|d s']; [contradiction|]. unfold t. cbn [append].
      apply strip_none. left. discriminate.
    - apply numeral_no_radix; assumption. }
  change "0x" with (String "0" (String "x" EmptyString)).
  change "0X" with (String "0" (String "X" EmptyString)).
  change "0o" with (String "0" (String "o" EmptyString)).
  change "0O" with (String "0" (String "O" EmptyString)).
  change "0b" with (String "0" (String "b" EmptyString)).
  change "0B" with (String "0" (String "B" EmptyString)).
  rewrite !Es by (assumption || reflexivity).
  rewrite El.
  destruct ((if neg then "-" else "") ++ t)%string eqn:Ex; [|reflexivity].
  destruct neg; cbn [append] in Ex; [discriminate Ex|].
  destruct s; [contradiction | discriminate Ex].
Qed.

Lemma decimal_shape (z : Z) :
  exists (neg : bool) (s : string) (k : nat) (n : Z),
    decimal z = ((if neg then "-" else "") ++ s)%string /\
    all_digits s = true /\ digits 10 s 0 0 = (S k, n, EmptyString) /\
    z = (if neg then - n else n).
Proof.
  destruct z as [|p|p].
  - exists false, "0"%string, 0%nat, 0. repeat split; reflexivity.
  - destruct (digits_of_print p) as [k Hk].
    exists false, (print_digits (Pos.size_nat p) (Zpos p) EmptyString), k, (Zpos p).
    repeat split; [apply print_digits_shape | exact Hk].
  - destruct (digits_of_print p) as [k Hk].
    exists true, (print_digits (Pos.size_nat p) (Zpos p) EmptyString), k, (Zpos p).
    repeat split; [apply print_digits_shape | exact Hk].
Qed.

Lemma parseInt_decimal_tail (z : Z) (c : ascii) (u : string) :
  stray c = true ->
  parseInt (decimal z ++ String c u)%string = parseInt (decimal z).
Proof.
  intros Hc. rewrite parseInt_decimal_rounds.
  destruct (decimal_shape z) as (neg & s & k & n & -> & Hs & Hd & ->).
  rewrite append_assoc. apply (parseInt_tail neg s c u k n); assumption.
Qed.

Lemma names_decimal_tail (z : Z) (c : ascii) (u : string) (y : Z) :
  stray c = true -> names (decimal z ++ String c u)%string y = false.
Proof.
  intros Hc. unfold names.
  destruct (decimal_shape z) as (neg & s & k & n & -> & Hs & Hd & _).
  rewrite append_assoc, (StringToNumber_tail neg s c u k n) by assumption.
  reflexivity.
Qed.

(** X10.  An identifier followed by other text (as in [7abc]) is read by the
    two relationship routes as the identifier alone, while the two lookups by
    identifier find nothing under it and answer 404. *)
Theorem identifier_with_tail :
  forall (R : Runtime) (st : store) (z : Z) (c : ascii) (u : string),
    Forall (fun r => is_restaurant r = true) (restaurantsData st) ->
    Forall (fun d => is_dish d = true) (dishesData st) ->
    stray c = true ->
    get_api_restaurants_id_menu st (decimal z ++ String c u)%string
      = get_api_restaurants_id_menu st (decimal z) /\
    get_api_dishes_id_restaurants st (decimal z ++ String c u)%string
      = get_api_dishes_id_restaurants st (decimal z) /\
    get_api_restaurants_id st (decimal z ++ String c u)%string
      = Reply 404 (error_body "Restaurant not found") /\
    get_api_dishes_id st (decimal z ++ String c u)%string
      = Reply 404 (error_body "Dish not found").
Proof.
  intros R st z c u HR HD Hc.
  split; [|split; [|split]].
  - unfold get_api_restaurants_id_menu.
    rewrite (parseInt_decimal_tail z c u Hc). reflexivity.
  - unfold get_api_dishes_id_restaurants.
    rewrite (parseInt_decimal_tail z c u Hc). reflexivity.
  - unfold get_api_restaurants_id.
    rewrite lookup_missing; [reflexivity | apply restaurants_identified, HR |].
    intros x _. apply names_decimal_tail, Hc.
  - unfold get_api_dishes_id.
    rewrite lookup_missing; [reflexivity | apply dishes_identified, HD |].
    intros x _. apply names_decimal_tail, Hc.
Qed.

Lemma identifier_with_tail_witness :
  get_api_restaurants_id_menu (R := sample_runtime) Examples.catalog
      (decimal 1 ++ "abc")%string
    = get_api_restaurants_id_menu (R := sample_runtime) Examples.catalog
        (decimal 1) /\
  get_api_dishes_id_restaurants (R := sample_runtime) Examples.catalog
      (decimal 1 ++ "abc")%string
    = get_api_dishes_id_restaurants (R := sample_runtime) Examples.catalog
        (decimal 1) /\
  get_api_restaurants_id (R := sample_runtime) Examples.catalog
      (decimal 1 ++ "abc")%string
    = Reply 404 (error_body "Restaurant not found") /\
  get_api_dishes_id (R := sample_runtime) Examples.catalog
      (decimal 1 ++ "abc")%string
    = Reply 404 (error_body "Dish not found").
Proof.
  apply (identifier_with_tail sample_runtime Examples.catalog 1 "a" "bc").
  - repeat constructor.
  - repeat constructor.
  - reflexivity.
Defined.

(** ** The two views of the serving relation *)

(** X11.  The two relationship routes agree: a dish is on the menu that
    GET /api/restaurants/:id/menu gives for a restaurant exactly when that
    restaurant is among those that GET /api/dishes/:id/restaurants gives for
    the dish. *)
Theorem menu_and_servings_agree :
  forall (R : Runtime) (st : store) (r d : value),
    Forall (fun r => is_restaurant r = true) (restaurantsData st) ->
    Forall (fun d => is_dish d = true) (dishesData st) ->
    NoDup (map id_of (dishesData st)) ->
    In r (restaurantsData st) -> In d (dishesData st) ->
    (In d (listed (get_api_restaurants_id_menu st (decimal (id_of r)))) <->
     In r (listed (get_api_dishes_id_restaurants st (decimal (id_of d))))).
Proof.
  intros R st r d HR HD ND Hr Hd.
  assert (Dr : is_double (inject_Z (id_of r)) = true).
  { apply identified_double.
    pose proof (restaurants_identified _ HR) as H.
    rewrite Forall_forall in H. apply H, Hr. }
  assert (Dd : is_double (inject_Z (id_of d)) = true).
  { apply identified_double.
    pose proof (dishes_identified _ HD) as H.
    rewrite Forall_forall in H. apply H, Hd. }
  rewrite (menu_at st _ (id_of r) HD (parseInt_decimal _ Dr)).
  rewrite (servings_at st _ d HR HD ND Hd (parseInt_decimal _ Dd)).
  cbn [listed]. rewrite !filter_In. tauto.
Qed.

Lemma menu_and_servings_agree_witness :
  In Examples.pilaf
     (listed (get_api_restaurants_id_menu (R := sample_runtime) Examples.catalog
                (decimal (id_of Examples.pizza_hut)))) <->
  In Examples.pizza_hut
     (listed (get_api_dishes_id_restaurants (R := sample_runtime) Examples.catalog
                (decimal (id_of Examples.pilaf)))).
Proof.
  apply (menu_and_servings_agree sample_runtime Examples.catalog).
  - repeat constructor.
  - repeat constructor.
  - repeat constructor; simpl; intuition discriminate.
  - simpl. tauto.
  - simpl. tauto.
Defined.

(** ** A restaurant without a name *)

Lemma restaurant_found_throws {R : Runtime} (r : value) (q : string) (qs : list string) :
  is_string (field r "name") = false ->
  restaurant_found (q :: qs) r = Throw TypeError.
Proof.
  intros H. unfold restaurant_found. cbn [map some_].
  assert (E : (n <- get r "name" ;; l <- call_toLowerCase n ;;
               call_includes l (VStr q)) = Throw TypeError).
  { destruct r as [| |b|n|s|xs|fs]; try reflexivity.
    cbn [get bind]. unfold field in H.
    destruct (lookup "name" fs) as [v|]; [|reflexivity].
    destruct v; try discriminate H; reflexivity. }
  unfold or_. rewrite E. reflexivity.
Qed.

Lemma filter_throws (f : value -> M value) (xs : list value) (x : value) :
  In x xs -> f x = Throw TypeError -> filter_ f xs = Throw TypeError.
Proof.
  intros Hx Hf. induction xs as [|y t IH]; [contradiction|].
  cbn [filter_]. destruct Hx as [->|Hx].
  - rewrite Hf. reflexivity.
  - destruct (f y) as [b|[]]; [|reflexivity]. cbn [bind].
    rewrite (IH Hx). reflexivity.
Qed.

Lemma search_throws {R : Runtime} (st : store) (q : string) (type : param) (r : value) :
  q <> EmptyString -> terms q <> [] ->
  in_scope (match type with Some t => t | None => "all" end) "restaurants" = true ->
  In r (restaurantsData st) -> is_string (field r "name") = false ->
  get_api_search st (Some q) type = ServerError TypeError.
Proof.
  intros Hq Ht Hs Hr Hn. unfold get_api_search.
  rewrite (supplied_some q Hq). unfold in_scope in Hs. rewrite Hs.
  destruct (terms q) as [|t ts]; [contradiction|].
  rewrite (filter_throws _ _ r Hr (restaurant_found_throws r t ts Hn)).
  reflexivity.
Qed.

Lemma add_coordinates_name (rnd : nat -> Q) (n m : nat) (r r' : value) :
  add_coordinates rnd n r = Ok (r', m) -> field r' "name" = field r "name".
Proof.
  intros H. destruct (nullish r) eqn:Hn.
  { rewrite add_coordinates_nullish in H by exact Hn. discriminate H. }
  destruct (is_object r) eqn:Ho.
  - destruct (lacks_coordinates r) eqn:L.
    + destruct r as [| | | | | |fs]; try discriminate Ho.
      rewrite add_coordinates_patched in H by exact L. injection H as <- _.
      unfold field. rewrite !lookup_update_other by discriminate. reflexivity.
    + rewrite add_coordinates_kept in H by assumption. injection H as <- _.
      reflexivity.
  - rewrite add_coordinates_primitive in H by assumption. injection H as <- _.
    reflexivity.
Qed.

Lemma map_add_coordinates_name (rnd : nat -> Q) (rs : list value) :
  forall n rs' m,
    map_add_coordinates rnd n rs = Ok (rs', m) ->
    forall r, In r rs ->
      exists r', In r' rs' /\ field r' "name" = field r "name".
Proof.
  induction rs as [|x t IH]; intros n rs' m H r Hr; [contradiction|].
  cbn [map_add_coordinates] in H.
  destruct (add_coordinates rnd n x) as [[x' n1]|e] eqn:Ex; [|discriminate H].
  cbn [bind snd fst] in H.
  destruct (map_add_coordinates rnd n1 t) as [[t' n2]|e] eqn:Et; [|discriminate H].
  cbn [bind snd fst] in H. injection H as <- _.
  destruct Hr as [->|Hr].
  - exists x'. split; [left; reflexivity|]. apply (add_coordinates_name _ _ _ _ _ Ex).
  - destruct (IH _ _ _ Et r Hr) as (r' & Hin & E).
    exists r'. split; [right; exact Hin | exact E].
Qed.

Lemma load_restaurants (rf df : value) (rnd : nat -> Q) (st : store) (rs : list value) :
  load rf df rnd = Ok st -> entries rf = Some rs ->
  exists m, map_add_coordinates rnd 0 rs = Ok (restaurantsData st, m).
Proof.
  intros H He. unfold load in H.
  destruct (nullish rf) eqn:Hn.
  { destruct rf; try discriminate Hn; discriminate H. }
  destruct (or_listed rf Hn) as (v & Ev & Hv). rewrite Ev in H. cbn [bind] in H.
  destruct (as_array df) as [ds|e]; [|discriminate H]. cbn [bind] in H.
  destruct (filter_ keep_dish ds) as [ds'|e]; [|discriminate H]. cbn [bind] in H.
  rewrite (proj2 (Hv rs) He) in H. cbn [bind] in H.
  destruct (map_add_coordinates rnd 0 rs) as [[rs' m]|e]; [|discriminate H].
  cbn [bind fst] in H. injection H as <-. exists m. reflexivity.
Qed.

(** X12.  The load does not look at the names of the restaurants: when the
    restaurants file holds an entry whose name is no string (or is missing),
    the load still completes with it, and from then on every
    GET /api/search over the restaurants with at least one term is answered
    500, whatever the term. *)
Theorem search_after_unnamed_restaurant :
  forall (R : Runtime) (restaurantsFile dishesFile : value) (rnd : nat -> Q)
         (st : store) (rs : list value) (r : value) (q : string) (type : param),
    load restaurantsFile dishesFile rnd = Ok st ->
    entries restaurantsFile = Some rs ->
    In r rs -> is_string (field r "name") = false ->
    q <> EmptyString -> terms q <> [] ->
    in_scope (match type with Some t => t | None => "all" end) "restaurants"
      = true ->
    get_api_search st (Some q) type = ServerError TypeError /\
    status (get_api_search st (Some q) type) = 500%nat.
Proof.
  intros R rf df rnd st rs r q type Hl He Hr Hn Hq Ht Hs.
  destruct (load_restaurants rf df rnd st rs Hl He) as [m Hm].
  destruct (map_add_coordinates_name rnd rs 0 _ m Hm r Hr) as (r' & Hin & E).
  assert (S : get_api_search st (Some q) type = ServerError TypeError).
  { apply (search_throws st q type r'); try assumption. rewrite E. exact Hn. }
  split; [exact S | rewrite S; reflexivity].
Qed.

Lemma search_after_unnamed_restaurant_witness :
  get_api_search (R := sample_runtime) MoreExamples.nameless_store
      (Some "pizza") None = ServerError TypeError /\
  status (get_api_search (R := sample_runtime) MoreExamples.nameless_store
            (Some "pizza") None) = 500%nat.
Proof.
  apply (search_after_unnamed_restaurant sample_runtime
           MoreExamples.nameless_file (VArr []) Examples.half
           MoreExamples.nameless_store
           [VObj [("id", VNum (Fin 3))]] (VObj [("id", VNum (Fin 3))])
           "pizza" None).
  - reflexivity.
  - reflexivity.
  - left. reflexivity.
  - reflexivity.
  - discriminate.
  - discriminate.
  - reflexivity.
Defined.

(** ** The replies over well-formed collections *)

Lemma lookup_status {R : Runtime} (xs : list value) (id : string) (msg : string) :
  Forall identified xs ->
  let r := catch (
    x <- find_ (fun r => i <- get r "id" ;; Ok (VBool (loose_eq_str i id))) xs ;;
    if negb (truthy x) then Ok (Reply 404 (error_body msg))
    else Ok (Reply 200 x)) in
  status r = 200%nat \/ status r = 404%nat.
Proof.
  intros H. rewrite find_by_id by exact H.
  destruct (find _ xs) as [x|] eqn:E; cbn [bind].
  - apply find_some in E. destruct E as [Hx _].
    rewrite Forall_forall in H. destruct (H x Hx) as [Ho _].
    rewrite (object_truthy x Ho). left. reflexivity.
  - right. reflexivity.
Qed.

(** X13.  Over collections of well-formed records no request is answered
    500: the two lookups by identifier answer 200 or 404, the search answers
    400 without a query text and 200 with one, an unknown route answers 404,
    and every other route answers 200, for route parameters of any text
    and query parameters that are single strings or absent. *)
Theorem well_formed_store_answers :
  forall (R : Runtime) (st : store) (rq : request),
    (forall s, toLowerCase s = EmptyString <-> s = EmptyString) ->
    Forall (fun r => is_restaurant r = true) (restaurantsData st) ->
    Forall (fun d => is_dish d = true) (dishesData st) ->
    match rq with
    | GetRestaurant _ | GetDish _ =>
        status (snd (step st rq)) = 200%nat \/ status (snd (step st rq)) = 404%nat
    | Search query _ =>
        status (snd (step st rq))
        = match supplied query with Some _ => 200%nat | None => 400%nat end
    | Other _ _ => status (snd (step st rq)) = 404%nat
    | _ => status (snd (step st rq)) = 200%nat
    end.
Proof.
  intros R st rq Hl HR HD.
  assert (Hl0 : toLowerCase EmptyString = EmptyString) by (apply Hl; reflexivity).
  destruct rq as [|id|id|s c lo hi|id|id|q t|now|m u];
    [| | |rewrite step_reply| | | | |]; cbn [step snd].
  - reflexivity.
  - apply lookup_status, restaurants_identified, HR.
  - destruct (parseInt_cases id) as [E | [z E]].
    + rewrite (menu_at_none st id HD E). reflexivity.
    + rewrite (menu_at st id z HD E). reflexivity.
  - rewrite get_api_dishes_pure by auto. reflexivity.
  - apply lookup_status, dishes_identified, HD.
  - unfold get_api_dishes_id_restaurants.
    rewrite (find_dish _ (fun d => strict_eq_num
                            (VNum (Fin (inject_Z (id_of d)))) (parseInt id)));
      [ | apply dishes_identified, HD | reflexivity ].
    destruct (find _ (dishesData st)) as [d|] eqn:E; [|reflexivity].
    apply find_some in E. destruct E as [Hd _]. cbn [bind].
    rewrite serving_of; [reflexivity | exact HR |].
    rewrite Forall_forall in HD. auto.
  - destruct q as [q|]; [|reflexivity].
    destruct (String.eqb_spec q EmptyString) as [->|Hq]; [reflexivity|].
    rewrite (supplied_some q Hq).
    rewrite (get_api_search_pure Hl st q t Hq HR HD). reflexivity.
  - reflexivity.
  - reflexivity.
Qed.

Lemma well_formed_store_answers_witness :
  status (snd (step (R := sample_runtime) Examples.catalog
                 (Search (Some "pizza") None)))
  = match supplied (Some "pizza") with Some _ => 200%nat | None => 400%nat end.
Proof.
  apply (well_formed_store_answers sample_runtime Examples.catalog
           (Search (Some "pizza") None)).
  - exact fold_empty.
  - repeat constructor.
  - repeat constructor.
Defined.

(** ** The dish statement of the MySQL servers *)

Lemma selected_and3 (a b : option bool) :
  Sql.selected (Sql.and3 a b) = Sql.selected a && Sql.selected b.
Proof. destruct a as [[]|], b as [[]|]; reflexivity. Qed.

Lemma dishes_where_split (search category min_price max_price : option string)
    (x : Sql.dish) :
  Sql.selected (Sql.dishes_where search category min_price max_price x) =
  match Sql.supplied search with
  | Some s =>
      Sql.selected
        (Sql.or3 (Sql.or3 (Sql.like (Sql.d_name x) ("%" ++ s ++ "%"))
                          (Sql.like (Sql.d_description x) ("%" ++ s ++ "%")))
                 (Sql.like (Sql.d_ingredients x) ("%" ++ s ++ "%")))
  | None => true
  end &&
  match Sql.supplied category with
  | Some c => Sql.selected (Sql.text_eq (Sql.d_category x) c)
  | None => true
  end &&
  match Sql.supplied min_price with
  | Some p => Sql.selected (Sql.num_ge (Sql.d_price x) p)
  | None => true
  end &&
  match Sql.supplied max_price with
  | Some p => Sql.selected (Sql.num_le (Sql.d_price x) p)
  | None => true
  end.
Proof.
  unfold Sql.dishes_where.
  destruct (Sql.supplied search), (Sql.supplied category),
           (Sql.supplied min_price), (Sql.supplied max_price);
    rewrite ?selected_and3; cbn [Sql.selected andb];
    rewrite ?andb_true_r; reflexivity.
Qed.

Lemma when_supplied {A} (o : option A) (f : A -> bool) (P : A -> Prop) :
  (forall a, f a = true <-> P a) ->
  (match o with Some a => f a | None => true end = true <->
   forall a, o = Some a -> P a).
Proof.
  intros H. destruct o as [a|].
  - rewrite H. split; [intros Ha b E; injection E as <-; exact Ha | auto].
  - split; [intros _ a E; discriminate E | reflexivity].
Qed.

Lemma searched_selected (x : Sql.dish) (s : string) :
  Sql.selected
    (Sql.or3 (Sql.or3 (Sql.like (Sql.d_name x) ("%" ++ s ++ "%"))
                      (Sql.like (Sql.d_description x) ("%" ++ s ++ "%")))
             (Sql.like (Sql.d_ingredients x) ("%" ++ s ++ "%"))) = true <->
  exists t,
    In (Some t) [Sql.d_name x; Sql.d_description x; Sql.d_ingredients x] /\
    Sql.like_match (Sql.fold ("%" ++ s ++ "%")) (Sql.fold t) = true.
Proof.
  rewrite !or3_selected, !like_selected. simpl In. split.
  - intros [[(t & E & H) | (t & E & H)] | (t & E & H)]; exists t; auto.
  - intros (t & [E | [E | [E | []]]] & H); eauto.
Qed.








(** ** The search text inside the LIKE pattern *)

Lemma like_star (p s : string) :
  Sql.like_match (String "%" p) s
  = Sql.like_match p s ||
    match s with
    | String _ t => Sql.like_match (String "%" p) t
    | EmptyString => false
    end.
Proof. destruct s; reflexivity. Qed.

Lemma like_any (p : string) :
  (forall s, Sql.like_match p s = true) ->
  forall s, Sql.like_match (String "%" p) s = true.
Proof. intros H s. rewrite like_star, H. reflexivity. Qed.

Lemma like_all (s : string) : Sql.like_match "%" s = true.
Proof.
  induction s as [|c t IH]; [reflexivity|].
  rewrite like_star. rewrite IH. apply orb_true_r.
Qed.

Lemma like_wildcard_only (s : string) :
  Sql.like_match (Sql.fold ("%" ++ "%" ++ "%")) (Sql.fold s) = true.
Proof.
  change (Sql.fold ("%" ++ "%" ++ "%")) with (String "%" (String "%" "%")).
  apply like_any, like_any. exact like_all.
Qed.

(** X15.  The MySQL servers put the search text into the LIKE pattern as it
    is, so that its [%] and [_] act as wildcards: the text [%] matches every
    column that is not NULL, and the text [_] every one that is not empty,
    while a NULL column matches no pattern; so GET /api/dishes with
    [search=%] lists every row that has a name. *)
Theorem mysql_search_text_unescaped :
  forall (s : string) (d : Sql.db) (x : Sql.dish),
    In x (Sql.dishes d) -> Sql.d_name x <> None ->
    Sql.like (Some s) ("%" ++ "%" ++ "%") = Some true /\
    Sql.like (Some s) ("%" ++ "_" ++ "%") = Some (negb (s =? "")%string) /\
    Sql.like None ("%" ++ "%" ++ "%") = None /\
    exists rows,
      Sql.get_api_dishes (Some d) (Some "%") None None None
        = Sql.Reply 200 (Sql.Dishes rows) /\
      In x rows.
Proof.
  intros s d x Hx Hn. split; [|split; [|split]].
  - unfold Sql.like. f_equal. apply like_wildcard_only.
  - unfold Sql.like. f_equal.
    change (Sql.fold ("%" ++ "_" ++ "%")) with (String "%" (String "_" "%")).
    destruct s as [|c t]; [reflexivity|].
    cbn [Sql.fold]. rewrite like_star.
    change (Sql.like_match (String "_" "%") (String (Sql.fold_char c) (Sql.fold t)))
      with (Sql.like_match "%" (Sql.fold t)).
    rewrite like_all. reflexivity.
  - reflexivity.
  - eexists. split; [reflexivity|].
    apply (Permutation_in x (Permutation_sym (order_by_perm Sql.name_asc _))).
    apply filter_In. split; [exact Hx|].
    rewrite dishes_where_split. cbn [Sql.supplied String.eqb andb].
    rewrite !andb_true_r. apply searched_selected.
    destruct (Sql.d_name x) as [t|] eqn:E; [|contradiction].
    exists t. split; [left; reflexivity | apply like_wildcard_only].
Qed.

Lemma mysql_search_text_unescaped_witness :
  Sql.like (Some "Lamb pilaf") ("%" ++ "%" ++ "%") = Some true /\
  Sql.like (Some "Lamb pilaf") ("%" ++ "_" ++ "%")
    = Some (negb ("Lamb pilaf" =? "")%string) /\
  Sql.like None ("%" ++ "%" ++ "%") = None /\
  exists rows,
    Sql.get_api_dishes (Some Examples.catalog_db) (Some "%") None None None
      = Sql.Reply 200 (Sql.Dishes rows) /\
    In Examples.pilaf_row rows.
Proof.
  apply (mysql_search_text_unescaped "Lamb pilaf" Examples.catalog_db
           Examples.pilaf_row).
  - left. reflexivity.
  - discriminate.
Defined.

(** ** The scopes of the unified search *)

Lemma firstn_short {A} (n : nat) (xs : list A) : (List.length (firstn n xs) <= n)%nat.
Proof. apply firstn_le_length. Qed.

(** X16.  With a query text, the unified search under the scope [all] (or
    under no scope) answers with the two lists that the scopes [restaurants]
    and [dishes] answer with one by one, and no list is longer than 20; this
    holds in the snapshot server over well-formed collections and in the
    MySQL servers while the database answers. *)
Theorem search_scopes_compose :
  forall (R : Runtime) (st : store) (d : Sql.db) (v : Sql.server) (q : string),
    (forall s, toLowerCase s = EmptyString <-> s = EmptyString) ->
    Forall (fun r => is_restaurant r = true) (restaurantsData st) ->
    Forall (fun d => is_dish d = true) (dishesData st) ->
    q <> EmptyString ->
    (exists rs ds,
       get_api_search st (Some q) (Some "restaurants")
         = Reply 200 (VObj [("restaurants", VArr rs)]) /\
       get_api_search st (Some q) (Some "dishes")
         = Reply 200 (VObj [("dishes", VArr ds)]) /\
       get_api_search st (Some q) (Some "all")
         = Reply 200 (VObj [("restaurants", VArr rs); ("dishes", VArr ds)]) /\
       get_api_search st (Some q) None
         = Reply 200 (VObj [("restaurants", VArr rs); ("dishes", VArr ds)]) /\
       (List.length rs <= 20)%nat /\ (List.length ds <= 20)%nat) /\
    (exists rs ds,
       Sql.get_api_search (Some d) v (Some q) (Some "restaurants")
         = Sql.Reply 200 (Sql.Results (Some rs) None) /\
       Sql.get_api_search (Some d) v (Some q) (Some "dishes")
         = Sql.Reply 200 (Sql.Results None (Some ds)) /\
       Sql.get_api_search (Some d) v (Some q) (Some "all")
         = Sql.Reply 200 (Sql.Results (Some rs) (Some ds)) /\
       Sql.get_api_search (Some d) v (Some q) None
         = Sql.Reply 200 (Sql.Results (Some rs) (Some ds)) /\
       (List.length rs <= 20)%nat /\ (List.length ds <= 20)%nat).
Proof.
  intros R st d v q Hl HR HD Hq. split.
  - eexists _, _.
    rewrite !(get_api_search_pure Hl st q _ Hq HR HD).
    repeat (split; [reflexivity|]). split; apply firstn_short.
  - eexists _, _. unfold Sql.get_api_search.
    rewrite (supplied_nonempty q Hq).
    repeat (split; [reflexivity|]). split; apply firstn_short.
Qed.

Lemma search_scopes_compose_witness :
  (exists rs ds,
     get_api_search (R := sample_runtime) Examples.catalog (Some "pizza")
         (Some "restaurants")
       = Reply 200 (VObj [("restaurants", VArr rs)]) /\
     get_api_search (R := sample_runtime) Examples.catalog (Some "pizza")
         (Some "dishes")
       = Reply 200 (VObj [("dishes", VArr ds)]) /\
     get_api_search (R := sample_runtime) Examples.catalog (Some "pizza")
         (Some "all")
       = Reply 200 (VObj [("restaurants", VArr rs); ("dishes", VArr ds)]) /\
     get_api_search (R := sample_runtime) Examples.catalog (Some "pizza") None
       = Reply 200 (VObj [("restaurants", VArr rs); ("dishes", VArr ds)]) /\
     (List.length rs <= 20)%nat /\ (List.length ds <= 20)%nat) /\
  (exists rs ds,
     Sql.get_api_search (Some Examples.catalog_db) Sql.Basic (Some "pizza")
         (Some "restaurants")
       = Sql.Reply 200 (Sql.Results (Some rs) None) /\
     Sql.get_api_search (Some Examples.catalog_db) Sql.Basic (Some "pizza")
         (Some "dishes")
       = Sql.Reply 200 (Sql.Results None (Some ds)) /\
     Sql.get_api_search (Some Examples.catalog_db) Sql.Basic (Some "pizza")
         (Some "all")
       = Sql.Reply 200 (Sql.Results (Some rs) (Some ds)) /\
     Sql.get_api_search (Some Examples.catalog_db) Sql.Basic (Some "pizza") None
       = Sql.Reply 200 (Sql.Results (Some rs) (Some ds)) /\
     (List.length rs <= 20)%nat /\ (List.length ds <= 20)%nat).
Proof.
  apply (search_scopes_compose sample_runtime Examples.catalog
           Examples.catalog_db Sql.Basic "pizza").
  - exact fold_empty.
  - repeat constructor.
  - repeat constructor.
  - discriminate.
Defined.

(** ** GET /health after the load *)

Lemma map_add_coordinates_length (rnd : nat -> Q) (rs : list value) :
  forall n rs' m,
    map_add_coordinates rnd n rs = Ok (rs', m) ->
    List.length rs' = List.length rs.
Proof.
  induction rs as [|x t IH]; intros n rs' m H.
  - injection H as <- _. reflexivity.
  - cbn [map_add_coordinates] in H.
    destruct (add_coordinates rnd n x) as [[x' n1]|e]; [|discriminate H].
    cbn [bind snd fst] in H.
    destruct (map_add_coordinates rnd n1 t) as [[t' n2]|e] eqn:Et;
      [|discriminate H].
    cbn [bind snd fst] in H. injection H as <- _.
    cbn [List.length]. rewrite (IH _ _ _ Et). reflexivity.
Qed.

(** X17.  After a load that completes, GET /health answers 200 and reports
    as many restaurants as the restaurants file lists entries and as many
    dishes as the dishes file holds well-named entries, at any reading of
    the clock. *)
Theorem health_after_load :
  forall (restaurantsFile : value) (rs ds : list value) (rnd : nat -> Q)
         (st : store) (now : string),
    load restaurantsFile (VArr ds) rnd = Ok st ->
    entries restaurantsFile = Some rs ->
    exists body,
      get_health st now = Reply 200 body /\
      field body "status" = VStr "OK" /\
      field body "timestamp" = VStr now /\
      field (field body "database") "restaurants"
        = VNum (Fin (inject_Z (Z.of_nat (List.length rs)))) /\
      field (field body "database") "dishes"
        = VNum (Fin (inject_Z (Z.of_nat (List.length (filter well_named ds))))).
Proof.
  intros rf rs ds rnd st now Hl He.
  destruct (load_restaurants rf _ rnd st rs Hl He) as [m Hm].
  apply map_add_coordinates_length in Hm.
  apply load_dishes in Hl. destruct Hl as (ds' & Ed & Hd).
  injection Ed as <-.
  eexists. split; [reflexivity|].
  split; [reflexivity|]. split; [reflexivity|]. split.
  - cbn [field lookup String.eqb Ascii.eqb Bool.eqb]. rewrite Hm. reflexivity.
  - cbn [field lookup String.eqb Ascii.eqb Bool.eqb]. rewrite Hd. reflexivity.
Qed.

Lemma health_after_load_witness :
  exists body,
    get_health MoreExamples.loaded_store "2024-01-01T00:00:00.000Z"
      = Reply 200 body /\
    field body "status" = VStr "OK" /\
    field body "timestamp" = VStr "2024-01-01T00:00:00.000Z" /\
    field (field body "database") "restaurants"
      = VNum (Fin (inject_Z (Z.of_nat
          (List.length [Examples.pizza_hut; MoreExamples.sakura_located])))) /\
    field (field body "database") "dishes"
      = VNum (Fin (inject_Z (Z.of_nat (List.length (filter well_named
          match Examples.dishes_file with VArr ds => ds | _ => [] end))))).
Proof.
  apply (health_after_load Examples.restaurants_file
           [Examples.pizza_hut; MoreExamples.sakura_located]
           match Examples.dishes_file with VArr ds => ds | _ => [] end
           Examples.half MoreExamples.loaded_store).
  - reflexivity.
  - reflexivity.
Defined.
